(** * Fuzzy entity-name matching: normalizer, scorer, decision strategy, resolver

    A shallow embedding of the core of [fuzzy_matcher]:
    - [infrastructure/preprocessors.py]: the normalization pipeline;
    - [infrastructure/algorithms.py]: the similarity algorithms and phonetic
      encoders;
    - [domain/entities.py]: the value objects and the entity profile;
    - [application/services.py]: scorer, decision strategy and resolver;
    - [infrastructure/repositories.py]: the in-memory repository;
    - [application/facades.py]: algorithm selection, list matching, string
      comparison, and the registration and lookup of entities.

    Conventions.
    - A Python [str] is a [string].  The first pipeline step, [unidecode],
      returns ASCII text and every later component is fed normalized text, so
      the character classes are given on ASCII: a character above 127 is left
      alone by [lower] and is a word character for no step.
    - A Python [float] is a rational of [Q]; the literals [1.0], [0.0], [0.85]
      are [1], [0], [85#100].
    - A Python [dict] is an association list kept in insertion order, with
      unique keys ([PyDict]); a [set] of strings is the list of its elements
      ([PySet]), and the order in which a set is listed is a parameter.
    - A method that mutates its object returns the object after the call.
    - Functions of third-party packages (unidecode, jellyfish, thefuzz) are
      parameters, gathered in the record [Externals]; where the specification
      describes one completely it is defined from that description. *)

From Stdlib Require Import Bool List Arith PeanoNat Lia ZArith QArith.
From Stdlib Require Import Strings.String Strings.Ascii Numbers.DecimalString.
From Stdlib Require Import Sorted Permutation.
Import ListNotations.

Local Open Scope string_scope.
Local Open Scope bool_scope.
Local Open Scope nat_scope.

(** ** Text primitives *)

Module Text.

Definition code (c : ascii) : nat := nat_of_ascii c.

Definition in_range (lo hi : nat) (c : ascii) : bool :=
  (lo <=? code c) && (code c <=? hi).

Definition is_upper (c : ascii) : bool := in_range 65 90 c.
Definition is_lower (c : ascii) : bool := in_range 97 122 c.
Definition is_digit (c : ascii) : bool := in_range 48 57 c.

(** [str.isspace] and the regular-expression class [\s]: tab, line feed,
    vertical tab, form feed, carriage return, the four separators 0x1c-0x1f and
    the space; above ASCII, NEL and the no-break space. *)
Definition is_space (c : ascii) : bool :=
  in_range 9 13 c || in_range 28 32 c || (code c =? 133) || (code c =? 160).

(** The regular-expression class [\w]: letters, digits and the underscore. *)
Definition is_word (c : ascii) : bool :=
  is_upper c || is_lower c || is_digit c || (code c =? 95).

Definition lower_char (c : ascii) : ascii :=
  if is_upper c then ascii_of_nat (code c + 32) else c.

Definition upper_char (c : ascii) : ascii :=
  if is_lower c then ascii_of_nat (code c - 32) else c.

Fixpoint smap (f : ascii -> ascii) (s : string) : string :=
  match s with
  | EmptyString => EmptyString
  | String c r => String (f c) (smap f r)
  end.

Fixpoint sfilter (p : ascii -> bool) (s : string) : string :=
  match s with
  | EmptyString => EmptyString
  | String c r => if p c then String c (sfilter p r) else sfilter p r
  end.

Fixpoint sforall (p : ascii -> bool) (s : string) : bool :=
  match s with
  | EmptyString => true
  | String c r => p c && sforall p r
  end.

(** [s.lower()] and [s.upper()]. *)
Definition lower (s : string) : string := smap lower_char s.
Definition upper (s : string) : string := smap upper_char s.

(** Python truth value of a string: [if s] holds for a non-empty [s]. *)
Definition truthy (s : string) : bool :=
  match s with EmptyString => false | String _ _ => true end.

(** [s.replace(c, "")] for a one-character [c]. *)
Definition remove_char (c : ascii) (s : string) : string :=
  sfilter (fun d => negb (Ascii.eqb c d)) s.

Fixpoint lstrip (s : string) : string :=
  match s with
  | EmptyString => EmptyString
  | String c r => if is_space c then lstrip r else s
  end.

Fixpoint rstrip (s : string) : string :=
  match s with
  | EmptyString => EmptyString
  | String c r =>
      let r' := rstrip r in
      if is_space c && negb (truthy r') then EmptyString else String c r'
  end.

(** [s.strip()]. *)
Definition strip (s : string) : string := rstrip (lstrip s).

(** [s.split()]: the maximal runs of characters that are not white space.
    [cur] is the run being read, in reverse. *)
Fixpoint rev_string (acc s : string) : string :=
  match s with
  | EmptyString => acc
  | String c r => rev_string (String c acc) r
  end.

Fixpoint split_from (cur : string) (s : string) : list string :=
  match s with
  | EmptyString =>
      if truthy cur then [rev_string EmptyString cur] else []
  | String c r =>
      if is_space c
      then (if truthy cur then rev_string EmptyString cur :: split_from EmptyString r
            else split_from EmptyString r)
      else split_from (String c cur) r
  end.

Definition split (s : string) : list string := split_from EmptyString s.

(** [needle in s] on strings. *)
Fixpoint contains (needle s : string) : bool :=
  prefix needle s
  || match s with
     | EmptyString => false
     | String _ r => contains needle r
     end.

(** [" ".join(l)]. *)
Fixpoint join (sep : string) (l : list string) : string :=
  match l with
  | [] => EmptyString
  | [x] => x
  | x :: r => x ++ sep ++ join sep r
  end.

(** [str(z)] for an integer. *)
Definition str_of_int (z : Z) : string := NilZero.string_of_int (Z.to_int z).

End Text.

(** ** A subset of [re]: literals, [\b], escaped characters and [c?] *)

Module Re.
Import Text.

Inductive item : Type :=
| Bound                 (* \b *)
| Chr (c : ascii)       (* a literal character, possibly escaped *)
| OptChr (c : ascii).   (* c? *)

(** Reads the source text of a pattern. *)
Fixpoint compile (src : string) : list item :=
  match src with
  | EmptyString => []
  | String "\" (String "b" r) => Bound :: compile r
  | String "\" (String c r) => Chr c :: compile r
  | String c (String "?" r) => OptChr c :: compile r
  | String c r => Chr c :: compile r
  end.

Definition word_opt (o : option ascii) : bool :=
  match o with Some c => is_word c | None => false end.

Definition head (s : string) : option ascii :=
  match s with EmptyString => None | String c _ => Some c end.

(** [\b] holds between [prev] and the head of [s] when exactly one of the two
    is a word character; the ends of the text count as non-word. *)
Definition at_boundary (prev : option ascii) (s : string) : bool :=
  xorb (word_opt prev) (word_opt (head s)).

(** Equality of characters under [re.IGNORECASE]. *)
Definition ieqb (c d : ascii) : bool := Ascii.eqb (lower_char c) (lower_char d).

(** [match_at p prev s]: the length of the match of [p] at the start of [s],
    [prev] being the character before it.  An optional character is tried
    present first, absent on failure (greedy, with backtracking). *)
Fixpoint match_at (p : list item) (prev : option ascii) (s : string) : option nat :=
  match p with
  | [] => Some 0
  | Bound :: p' => if at_boundary prev s then match_at p' prev s else None
  | Chr c :: p' =>
      match s with
      | String d r => if ieqb c d then option_map S (match_at p' (Some d) r) else None
      | EmptyString => None
      end
  | OptChr c :: p' =>
      let taken :=
        match s with
        | String d r => if ieqb c d then option_map S (match_at p' (Some d) r) else None
        | EmptyString => None
        end in
      match taken with
      | Some n => Some n
      | None => match_at p' prev s
      end
  end.

(** The scan of [re.sub]: leftmost matches, not overlapping; the search resumes
    right after a match, and [\b] always looks at the original text.  [skip]
    counts the characters of the current match still to be dropped.  The
    patterns used here match no empty string. *)
Fixpoint sub_scan (p : list item) (repl : string) (skip : nat)
         (prev : option ascii) (s : string) : string :=
  match s with
  | EmptyString => EmptyString
  | String c r =>
      match skip with
      | S k => sub_scan p repl k (Some c) r
      | O =>
          match match_at p prev s with
          | Some (S n) => repl ++ sub_scan p repl n (Some c) r
          | _ => String c (sub_scan p repl 0 (Some c) r)
          end
      end
  end.

(** [re.sub(pattern, repl, text, flags=re.IGNORECASE)]. *)
Definition sub (pattern repl text : string) : string :=
  sub_scan (compile pattern) repl 0 None text.

End Re.

(** ** [infrastructure/preprocessors.py] *)

Module Preprocessors.
Import Text.

(** The input of the normalizer: [StringOrNumeric], or [None].  A float is
    given by the text [str] prints for it. *)
Inductive PyValue : Type :=
| PyNone
| PyStr (s : string)
| PyInt (z : Z)
| PyFloat (printed : string).

(** [str(text)]. *)
Definition py_str (v : PyValue) : string :=
  match v with
  | PyNone => "None"
  | PyStr s => s
  | PyInt z => str_of_int z
  | PyFloat printed => printed
  end.

Inductive StepKind : Type :=
| TypeConversionStep
| AccentRemovalStep
| LowercaseStep
| CompanySuffixStandardizationStep
| PunctuationRemovalStep
| WhitespaceNormalizationStep.

(** A step of the chain of responsibility, with its [_next_step]. *)
#[warnings="-register-all"]
Inductive PreprocessingStep : Type :=
| Step (kind : StepKind) (next_step : option PreprocessingStep).

(** [CompanySuffixStandardizationStep.suffix_mapping], in insertion order.
    The accented pattern is written with the code point 233 of its two
    accented letters. *)
Definition e_acute : string := String (ascii_of_nat 233) EmptyString.

Definition suffix_mapping : list (string * string) :=
  [ ("\bcorporation\b", "corp");
    ("\bcorp\b", "corp");
    ("\bcorp\.\b", "corp");
    ("\bincorporated\b", "inc");
    ("\binc\b", "inc");
    ("\binc\.\b", "inc");
    ("\blimited\b", "ltd");
    ("\bltd\b", "ltd");
    ("\bltd\.\b", "ltd");
    ("\bcompany\b", "co");
    ("\bco\b", "co");
    ("\bco\.\b", "co");
    ("\bpublic limited company\b", "plc");
    ("\bp\.l\.c\.\b", "plc");
    ("\bplc\b", "plc");
    ("\blimited liability company\b", "llc");
    ("\bl\.l\.c\.\b", "llc");
    ("\bllc\b", "llc");
    ("\bsociete anonyme\b", "sa");
    ("\bs\.a\.\b", "sa");
    ("\bsa\b", "sa");
    ("\bsoci" ++ e_acute ++ "t" ++ e_acute ++ " anonyme\b", "sa");
    ("\baktiengesellschaft\b", "ag");
    ("\ba\.g\.\b", "ag");
    ("\bag\b", "ag");
    ("\bgmbh\b", "gmbh");
    ("\bgmbh & co\. kg\b", "gmbh");
    ("\bholdings?\b", "hldg");
    ("\bhldg\b", "hldg");
    ("\bhldg\.\b", "hldg");
    ("\bgroup\b", "grp");
    ("\bgrp\b", "grp");
    ("\bgrp\.\b", "grp") ].

(** [CompanySuffixStandardizationStep._execute]: every pattern in turn, each
    on the result of the one before. *)
Definition standardize_suffixes (text : string) : string :=
  fold_left (fun processed_text pr => Re.sub (fst pr) (snd pr) processed_text)
            suffix_mapping text.

(** [PunctuationRemovalStep._execute]: periods and commas first, then every
    character matching [[^\w\s]]. *)
Definition remove_punctuation (text : string) : string :=
  let text_no_specific_punct := remove_char "," (remove_char "." text) in
  sfilter (fun c => is_word c || is_space c) text_no_specific_punct.

(** [re.sub(r"\s+", " ", text)]: [in_run] tells that the character before
    was white space. *)
Fixpoint collapse_spaces (in_run : bool) (s : string) : string :=
  match s with
  | EmptyString => EmptyString
  | String c r =>
      if is_space c
      then (if in_run then collapse_spaces true r
            else String " " (collapse_spaces true r))
      else String c (collapse_spaces false r)
  end.

(** [WhitespaceNormalizationStep._execute]. *)
Definition normalize_whitespace (text : string) : string :=
  strip (collapse_spaces false text).

Section Chain.

(** The table of the unidecode package for the characters above ASCII; an
    ASCII character is returned as it is. *)
Variable unidecode_table : ascii -> string.

Fixpoint unidecode (s : string) : string :=
  match s with
  | EmptyString => EmptyString
  | String c r =>
      (if code c <? 128 then String c EmptyString else unidecode_table c)
      ++ unidecode r
  end.

(** [_execute] of each step. *)
Definition execute (kind : StepKind) (text : string) : string :=
  match kind with
  | TypeConversionStep => text
  | AccentRemovalStep => unidecode text
  | LowercaseStep => lower text
  | CompanySuffixStandardizationStep => standardize_suffixes text
  | PunctuationRemovalStep => remove_punctuation text
  | WhitespaceNormalizationStep => normalize_whitespace text
  end.

(** [PreprocessingStep.process]. *)
Fixpoint process (step : PreprocessingStep) (text : string) : string :=
  match step with
  | Step kind next_step =>
      let result := execute kind text in
      match next_step with
      | Some next => process next result
      | None => result
      end
  end.

(** [StandardStringPreprocessor.__init__]. *)
Definition chain_head : PreprocessingStep :=
  let step1 := Step WhitespaceNormalizationStep None in
  let step2 := Step PunctuationRemovalStep (Some step1) in
  let step3 := Step CompanySuffixStandardizationStep (Some step2) in
  let step4 := Step LowercaseStep (Some step3) in
  Step AccentRemovalStep (Some step4).

(** [StandardStringPreprocessor.preprocess]. *)
Definition preprocess (text : PyValue) : string :=
  match text with
  | PyNone => EmptyString
  | _ =>
      let str_text := py_str text in
      if negb (truthy (strip str_text)) then EmptyString
      else process chain_head str_text
  end.

End Chain.

(** A table with no entry: [unidecode] drops a character it has no
    transliteration for. *)
Definition no_table : ascii -> string := fun _ => EmptyString.

End Preprocessors.

(** ** Python dictionaries and floats *)

Module PyDict.
Section Dict.
Context {V : Type}.

Definition t : Type := list (string * V).

(** [d.get(k)]; [None] stands for a missing key. *)
Fixpoint get (d : t) (k : string) : option V :=
  match d with
  | [] => None
  | (k', v) :: r => if String.eqb k' k then Some v else get r k
  end.

(** [d[k] = v]: a present key keeps its place and takes the new value, a new
    key goes last. *)
Fixpoint set (d : t) (k : string) (v : V) : t :=
  match d with
  | [] => [(k, v)]
  | (k', v') :: r =>
      if String.eqb k' k then (k', v) :: r else (k', v') :: set r k v
  end.

(** [k in d]. *)
Definition mem (d : t) (k : string) : bool :=
  match get d k with Some _ => true | None => false end.

(** [list(d.keys())]. *)
Definition keys (d : t) : list string := map fst d.

(** [{key(x): value(x) for x in l}]. *)
Definition comprehension {A : Type} (key : A -> string) (value : A -> V)
           (l : list A) : t :=
  fold_left (fun d x => set d (key x) (value x)) l [].

(** [del d[k]].  Python raises [KeyError] for a missing key; every deletion in
    the code follows a test that has just found the key. *)
Definition del (d : t) (k : string) : t :=
  filter (fun item => negb (String.eqb (fst item) k)) d.

(** [list(d.values())]. *)
Definition values (d : t) : list V := map snd d.

End Dict.
Arguments t : clear implicits.
End PyDict.

Module Float.
Local Open Scope Q_scope.

(** [x >= y], [x > y] and [x == y] on floats. *)
Definition geb (x y : Q) : bool := Qle_bool y x.
Definition gtb (x y : Q) : bool := negb (Qle_bool x y).
Definition eqb (x y : Q) : bool := Qeq_bool x y.

(** [min(x, y)] and [max(x, y)]: the first argument wins a tie. *)
Definition min (x y : Q) : Q := if gtb x y then y else x.
Definition max (x y : Q) : Q := if gtb y x then y else x.

(** The float of an [int]. *)
Definition of_int (z : Z) : Q := inject_Z z.
Definition of_nat (n : nat) : Q := inject_Z (Z.of_nat n).

End Float.

(** ** [domain/entities.py] *)

Module Entities.
Import Text.

Record DomainEntityName : Type := { raw_value : string }.

Record DomainProcessedName : Type :=
  { original : DomainEntityName; processed_value : string }.

(** An entry of [DomainMatchScore.scores]: [Union[float, str]]. *)
Inductive ScoreValue : Type :=
| VFloat (x : Q)
| VStr (s : string).

Record DomainMatchScore : Type :=
  { original_s1 : DomainEntityName;
    original_s2 : DomainEntityName;
    processed_s1 : DomainProcessedName;
    processed_s2 : DomainProcessedName;
    scores : PyDict.t ScoreValue }.

(** [DomainMatchScore.get_score]. *)
Definition get_score (self : DomainMatchScore) (algorithm_name : string) : ScoreValue :=
  match PyDict.get (scores self) algorithm_name with
  | Some (VFloat x) => VFloat x
  | Some (VStr s) => VStr s
  | None =>
      if prefix "soundex_" algorithm_name || prefix "metaphone_" algorithm_name
      then VStr ""
      else VFloat 0
  end.

Record MatchResult : Type :=
  { score_details : DomainMatchScore;
    is_match : bool;
    match_reasons : list string }.

Record MatchCandidate : Type :=
  { entity_name : DomainEntityName;
    processed_entity_name : DomainProcessedName;
    score : Q }.

(** [MatchCandidate.__lt__]: the higher score is the smaller candidate. *)
Definition lt (self other : MatchCandidate) : bool :=
  Float.gtb (score self) (score other).

End Entities.

(** [DomainEntityProfile], the mutable entity of [domain/entities.py].  A
    method that mutates the profile returns the profile after the call.  The
    values of [attributes] are of any type, the parameter [Any];
    [relationships] is the [defaultdict(list)] the class builds by default. *)
Module DomainEntityProfile.
Import Entities.

Record t {Any : Type} : Type :=
  { entity_id : string;
    primary_name : DomainEntityName;
    alternate_names : list DomainEntityName;
    attributes : PyDict.t Any;
    relationships : PyDict.t (list string) }.
Arguments t : clear implicits.

Section Methods.
Context {Any : Type}.

(** [a == b] on the frozen dataclass [DomainEntityName]. *)
Definition name_eqb (a b : DomainEntityName) : bool :=
  String.eqb (raw_value a) (raw_value b).

(** [name in names]. *)
Definition name_in (name : DomainEntityName) (names : list DomainEntityName) : bool :=
  existsb (name_eqb name) names.

(** [DomainEntityProfile.add_alternate_name]. *)
Definition add_alternate_name (self : t Any) (name : DomainEntityName) : t Any :=
  if negb (String.eqb (raw_value name) (raw_value (primary_name self)))
     && negb (name_in name (alternate_names self))
  then {| entity_id := entity_id self;
          primary_name := primary_name self;
          alternate_names := (alternate_names self ++ [name])%list;
          attributes := attributes self;
          relationships := relationships self |}
  else self.

(** [DomainEntityProfile.add_attribute]. *)
Definition add_attribute (self : t Any) (key : string) (value : Any) : t Any :=
  {| entity_id := entity_id self;
     primary_name := primary_name self;
     alternate_names := alternate_names self;
     attributes := PyDict.set (attributes self) key value;
     relationships := relationships self |}.

(** [self.relationships[relation_type]]: a missing key reads as the empty
    list, which the [defaultdict] stores under it. *)
Definition related (self : t Any) (relation_type : string) : list string :=
  match PyDict.get (relationships self) relation_type with
  | Some ids => ids
  | None => []
  end.

(** [DomainEntityProfile.add_relationship]: the identifier is appended to
    the list of the relation type unless it is in it. *)
Definition add_relationship (self : t Any) (relation_type related_entity_id : string)
  : t Any :=
  let ids := related self relation_type in
  {| entity_id := entity_id self;
     primary_name := primary_name self;
     alternate_names := alternate_names self;
     attributes := attributes self;
     relationships :=
       PyDict.set (relationships self) relation_type
         (if existsb (String.eqb related_entity_id) ids then ids
          else (ids ++ [related_entity_id])%list) |}.

End Methods.
End DomainEntityProfile.

(** ** [sorted]: a stable sort that only asks [<] *)

Module Sorting.
Section Sort.
Context {A : Type} (lt : A -> A -> bool).

(** [x] goes in front of the first element that is not smaller than it. *)
Fixpoint insert (x : A) (l : list A) : list A :=
  match l with
  | [] => [x]
  | y :: r => if lt y x then y :: insert x r else x :: l
  end.

(** Elements are inserted from the last to the first, so that of two elements
    neither of which is smaller, the earlier stays in front. *)
Definition sorted (l : list A) : list A := fold_right insert [] l.

End Sort.
End Sorting.

(** ** What the model takes from outside *)

(** Third-party functions ([unidecode], [jellyfish], [thefuzz.fuzz]) and the
    two ways Python prints a float.  The scorers of [thefuzz.fuzz] return an
    integer between 0 and 100. *)
Record Externals : Type :=
  { unidecode_table : ascii -> string;
    levenshtein_distance : string -> string -> nat;
    damerau_levenshtein_distance : string -> string -> nat;
    jaro_winkler_similarity : string -> string -> Q;
    metaphone : string -> string;
    token_set_ratio : string -> string -> Z;
    token_sort_ratio : string -> string -> Z;
    partial_ratio : string -> string -> Z;
    WRatio : string -> string -> Z;
    format_2f : Q -> string;      (* f"{x:.2f}" *)
    str_float : Q -> string }.    (* f"{x}" *)

(** ** [protocols/interfaces.py] *)

Module MatchingAlgorithm.
Record t : Type :=
  { name : string;
    calculate_similarity : string -> string -> Q }.
End MatchingAlgorithm.

Module PhoneticEncoder.
Record t : Type :=
  { name : string;
    encode : string -> string }.
End PhoneticEncoder.

(** [StringPreprocessor.preprocess], as the services call it: on a [str]. *)
Definition StringPreprocessor : Type := string -> string.

(** ** [infrastructure/algorithms.py] *)

Module Algorithms.
Import Text.
Local Open Scope Q_scope.

Fixpoint mem_char (c : ascii) (s : string) : bool :=
  match s with
  | EmptyString => false
  | String d r => Ascii.eqb c d || mem_char c r
  end.

(** The digit class of an upper-case letter, [None] for a letter of no class. *)
Definition soundex_class (letter : ascii) : option ascii :=
  if mem_char letter "BFPV" then Some "1"%char
  else if mem_char letter "CGJKQSXZ" then Some "2"%char
  else if mem_char letter "DT" then Some "3"%char
  else if mem_char letter "L" then Some "4"%char
  else if mem_char letter "MN" then Some "5"%char
  else if mem_char letter "R" then Some "6"%char
  else None.

Definition same_class (last : option ascii) (sub : ascii) : bool :=
  match last with Some d => Ascii.eqb d sub | None => false end.

(** The digits that follow the first letter: [room] is the number of digits
    still wanted, [last] the class of the letter before.  A letter of the class
    of the one before it adds nothing; [H] and [W] leave [last] alone, any
    other letter without a class resets it. *)
Fixpoint soundex_digits (last : option ascii) (room : nat) (s : string) : string :=
  match s with
  | EmptyString => EmptyString
  | String letter r =>
      match room with
      | O => EmptyString
      | S room' =>
          match soundex_class letter with
          | Some sub =>
              if same_class last sub
              then soundex_digits (Some sub) room r
              else String sub (soundex_digits (Some sub) room' r)
          | None =>
              if Ascii.eqb letter "H" || Ascii.eqb letter "W"
              then soundex_digits last room r
              else soundex_digits None room r
          end
      end
  end.

Fixpoint zeros (n : nat) : string :=
  match n with O => EmptyString | S k => String "0" (zeros k) end.

(** Modelled from the spec: [jellyfish.soundex], a third-party function that
    is not part of the sources.  Section 4.3: the first letter is kept, in
    upper case; the letters after it are mapped to the digit classes of the
    standard consonant groups, adjacent letters of one class collapse, vowels
    and h, w, y are dropped (h and w do not separate two letters of one
    class), and the result is padded with zeros or cut to four characters.

    The definition stands for the library on ASCII text only: [upper] changes
    the letters [a] to [z] and no other character, whereas the library first
    decomposes an accented character into its base letter and a mark.  The
    spec speaks of a first letter, so what follows is stated for ASCII text
    that begins with a letter, and says nothing of any other text. *)
Definition soundex (s : string) : string :=
  match upper s with
  | EmptyString => EmptyString
  | String first r =>
      let digits := soundex_digits (soundex_class first) 3 r in
      String first (digits ++ zeros (3 - String.length digits))
  end.

Section WithExternals.
Variable ext : Externals.

Definition distance_similarity (distance : string -> string -> nat)
           (s1 s2 : string) : Q :=
  if negb (truthy s1) && negb (truthy s2) then 1
  else if negb (truthy s1) || negb (truthy s2) then 0
  else
    let max_len := Nat.max (String.length s1) (String.length s2) in
    if Nat.eqb max_len 0 then 1
    else 1 - Float.of_nat (distance s1 s2) / Float.of_nat max_len.

(** [LevenshteinAlgorithm]. *)
Definition LevenshteinAlgorithm : MatchingAlgorithm.t :=
  {| MatchingAlgorithm.name := "levenshtein";
     MatchingAlgorithm.calculate_similarity :=
       distance_similarity (levenshtein_distance ext) |}.

(** [DamerauLevenshteinAlgorithm]. *)
Definition DamerauLevenshteinAlgorithm : MatchingAlgorithm.t :=
  {| MatchingAlgorithm.name := "damerau_levenshtein";
     MatchingAlgorithm.calculate_similarity :=
       distance_similarity (damerau_levenshtein_distance ext) |}.

(** [JaroWinklerAlgorithm]. *)
Definition JaroWinklerAlgorithm : MatchingAlgorithm.t :=
  {| MatchingAlgorithm.name := "jaro_winkler";
     MatchingAlgorithm.calculate_similarity := fun s1 s2 =>
       if negb (truthy s1) && negb (truthy s2) then 1
       else if negb (truthy s1) || negb (truthy s2) then 0
       else jaro_winkler_similarity ext s1 s2 |}.

Definition company_suffixes : list string :=
  ["inc"; "corp"; "llc"; "ltd"; "co"; "plc"; "sa"; "ag"; "gmbh"; "hldg"; "grp"].

Definition in_list (x : string) (l : list string) : bool :=
  existsb (String.eqb x) l.

(** [set(l)], as the list of its distinct elements. *)
Definition to_set (l : list string) : list string := nodup string_dec l.

(** [TokenSetRatioAlgorithm.calculate_similarity]. *)
Definition token_set_similarity (s1 s2 : string) : Q :=
  if negb (truthy s1) && negb (truthy s2) then 1
  else if negb (truthy s1) || negb (truthy s2) then 0
  else if String.eqb (lower s1) (lower s2) then 1
  else
    let standard_score := Float.of_int (token_set_ratio ext s1 s2) / 100 in
    if Float.geb standard_score (95#100) then standard_score
    else
      let tokens1 := to_set (split (lower s1)) in
      let tokens2 := to_set (split (lower s2)) in
      let has_company_suffix :=
        existsb (fun suffix => in_list suffix tokens1 || in_list suffix tokens2)
                company_suffixes in
      let name_tokens1 := filter (fun t => negb (in_list t company_suffixes)) tokens1 in
      let name_tokens2 := filter (fun t => negb (in_list t company_suffixes)) tokens2 in
      let common := filter (fun t => in_list t name_tokens2) name_tokens1 in
      let name_similarity :=
        Float.of_nat (List.length common)
        / Float.of_nat (Nat.max (List.length name_tokens1) (List.length name_tokens2)) in
      if has_company_suffix
         && negb (Nat.eqb (List.length name_tokens1) 0)
         && negb (Nat.eqb (List.length name_tokens2) 0)
         && Float.gtb name_similarity (8#10)
      then
        let boosted_score :=
          Float.min 1 (standard_score * (3#10) + name_similarity * (7#10)) in
        Float.max standard_score boosted_score
      else standard_score.

Definition TokenSetRatioAlgorithm : MatchingAlgorithm.t :=
  {| MatchingAlgorithm.name := "token_set_ratio";
     MatchingAlgorithm.calculate_similarity := token_set_similarity |}.

(** [TokenSortRatioAlgorithm]. *)
Definition TokenSortRatioAlgorithm : MatchingAlgorithm.t :=
  {| MatchingAlgorithm.name := "token_sort_ratio";
     MatchingAlgorithm.calculate_similarity := fun s1 s2 =>
       if negb (truthy s1) && negb (truthy s2) then 1
       else if negb (truthy s1) || negb (truthy s2) then 0
       else Float.of_int (token_sort_ratio ext s1 s2) / 100 |}.

(** [PartialRatioAlgorithm]. *)
Definition PartialRatioAlgorithm : MatchingAlgorithm.t :=
  {| MatchingAlgorithm.name := "partial_ratio";
     MatchingAlgorithm.calculate_similarity := fun s1 s2 =>
       if negb (truthy s1) && negb (truthy s2) then 1
       else if negb (truthy s1) || negb (truthy s2) then 0
       else Float.of_int (partial_ratio ext s1 s2) / 100 |}.

Definition quick_brown_fox : string := "The quick brown fox jumps over the lazy dog".
Definition the_brown_fox : string := "The brown fox".

(** [WeightedRatioAlgorithm.calculate_similarity]. *)
Definition weighted_ratio_similarity (s1 s2 : string) : Q :=
  if negb (truthy s1) && negb (truthy s2) then 1
  else if negb (truthy s1) || negb (truthy s2) then 0
  else if (String.eqb s1 quick_brown_fox && String.eqb s2 the_brown_fox)
          || (String.eqb s2 quick_brown_fox && String.eqb s1 the_brown_fox)
  then 85#100
  else Float.of_int (WRatio ext s1 s2) / 100.

Definition WeightedRatioAlgorithm : MatchingAlgorithm.t :=
  {| MatchingAlgorithm.name := "weighted_ratio";
     MatchingAlgorithm.calculate_similarity := weighted_ratio_similarity |}.

(** [SoundexEncoder.encode]. *)
Definition soundex_encode (text : string) : string :=
  if negb (truthy text) then EmptyString
  else if in_list (lower text) ["catherine"; "katherine"] then "K365"
  else soundex text.

Definition SoundexEncoder : PhoneticEncoder.t :=
  {| PhoneticEncoder.name := "soundex";
     PhoneticEncoder.encode := soundex_encode |}.

(** [MetaphoneEncoder.encode]. *)
Definition metaphone_encode (text : string) : string :=
  if negb (truthy text) then EmptyString
  else if String.eqb text "Schmidt" then "XMT"
  else metaphone ext text.

Definition MetaphoneEncoder : PhoneticEncoder.t :=
  {| PhoneticEncoder.name := "metaphone";
     PhoneticEncoder.encode := metaphone_encode |}.

(** [get_default_similarity_algorithms]. *)
Definition get_default_similarity_algorithms : PyDict.t MatchingAlgorithm.t :=
  let algorithms :=
    [ LevenshteinAlgorithm;
      DamerauLevenshteinAlgorithm;
      JaroWinklerAlgorithm;
      TokenSetRatioAlgorithm;
      TokenSortRatioAlgorithm;
      PartialRatioAlgorithm;
      WeightedRatioAlgorithm ] in
  PyDict.comprehension MatchingAlgorithm.name (fun algo => algo) algorithms.

(** [get_default_phonetic_encoders]. *)
Definition get_default_phonetic_encoders : PyDict.t PhoneticEncoder.t :=
  let encoders := [SoundexEncoder; MetaphoneEncoder] in
  PyDict.comprehension PhoneticEncoder.name (fun enc => enc) encoders.

(** [StandardStringPreprocessor()], as a [StringPreprocessor]. *)
Definition StandardStringPreprocessor : StringPreprocessor :=
  fun text => Preprocessors.preprocess (unidecode_table ext) (Preprocessors.PyStr text).

End WithExternals.
End Algorithms.

(** ** [application/services.py] *)

(** A raised exception is [None]: the [TypeError] of comparing a string with
    a float, the [ValueError] of formatting a string as a float, the
    [KeyError] of a missing key. *)
Module Raise.

Definition bind {A B : Type} (m : option A) (f : A -> option B) : option B :=
  match m with Some a => f a | None => None end.

(** [a and b] when evaluating [a] can raise: [b] counts only after a true [a]. *)
Definition and_then (a b : option bool) : option bool :=
  match a with Some true => b | other => other end.

End Raise.

Notation "x <- m ;; k" := (Raise.bind m (fun x => k))
  (at level 61, m at next level, right associativity).

Module ComprehensiveMatchScorer.
Import Text Entities.
Local Open Scope Q_scope.

Record t : Type :=
  { preprocessor : StringPreprocessor;
    similarity_algorithms : PyDict.t MatchingAlgorithm.t;
    phonetic_encoders : PyDict.t PhoneticEncoder.t }.

(** The body of the first loop: the entry written for one algorithm. *)
Definition similarity_entry (processed_s1_val processed_s2_val : string)
           (algorithm : MatchingAlgorithm.t) : Q :=
  if negb (truthy processed_s1_val) || negb (truthy processed_s2_val)
  then (if negb (truthy processed_s1_val) && negb (truthy processed_s2_val)
        then 1 else 0)
  else MatchingAlgorithm.calculate_similarity algorithm
         processed_s1_val processed_s2_val.

Definition encode_side (encoder : PhoneticEncoder.t) (processed_val : string) : string :=
  if truthy processed_val then PhoneticEncoder.encode encoder processed_val
  else EmptyString.

(** The two loops that fill [all_scores]. *)
Definition similarity_scores (self : t) (p1 p2 : string)
           (all_scores : PyDict.t ScoreValue) : PyDict.t ScoreValue :=
  fold_left
    (fun scores item =>
       PyDict.set scores (fst item) (VFloat (similarity_entry p1 p2 (snd item))))
    (similarity_algorithms self) all_scores.

Definition phonetic_codes (self : t) (p1 p2 : string)
           (all_scores : PyDict.t ScoreValue) : PyDict.t ScoreValue :=
  fold_left
    (fun scores item =>
       let scores1 :=
         PyDict.set scores (fst item ++ "_s1") (VStr (encode_side (snd item) p1)) in
       PyDict.set scores1 (fst item ++ "_s2") (VStr (encode_side (snd item) p2)))
    (phonetic_encoders self) all_scores.

(** [ComprehensiveMatchScorer.calculate_scores]. *)
Definition calculate_scores (self : t) (s1_raw s2_raw : string) : DomainMatchScore :=
  let entity_name1 := {| raw_value := s1_raw |} in
  let entity_name2 := {| raw_value := s2_raw |} in
  let processed_s1_val := preprocessor self s1_raw in
  let processed_s2_val := preprocessor self s2_raw in
  let processed_name1 :=
    {| original := entity_name1; processed_value := processed_s1_val |} in
  let processed_name2 :=
    {| original := entity_name2; processed_value := processed_s2_val |} in
  let all_scores :=
    phonetic_codes self processed_s1_val processed_s2_val
      (similarity_scores self processed_s1_val processed_s2_val []) in
  {| original_s1 := entity_name1;
     original_s2 := entity_name2;
     processed_s1 := processed_name1;
     processed_s2 := processed_name2;
     scores := all_scores |}.

End ComprehensiveMatchScorer.

Module ConfigurableMatchDecisionStrategy.
Import Text Entities.
Local Open Scope Q_scope.

(** A rule: its condition, which can raise, and its reason template. *)
Definition Rule : Type := (DomainMatchScore -> option bool) * string.

Record t : Type :=
  { scorer : ComprehensiveMatchScorer.t;
    rules : list Rule;
    phonetic_match_contributes : bool }.

(** [v >= threshold] for a score entry. *)
Definition ge (v : ScoreValue) (threshold : Q) : option bool :=
  match v with
  | VFloat x => Some (Float.geb x threshold)
  | VStr _ => None
  end.

(** [a == b] on score entries. *)
Definition eq (a b : ScoreValue) : bool :=
  match a, b with
  | VFloat x, VFloat y => Float.eqb x y
  | VStr s, VStr u => String.eqb s u
  | _, _ => false
  end.

(** [v != ""]. *)
Definition not_empty (v : ScoreValue) : bool :=
  match v with VStr s => truthy s | VFloat _ => true end.

(** The four threshold rules of [__init__], in their order. *)
Definition threshold_rules
           (token_set_threshold jaro_winkler_threshold weighted_ratio_threshold
            high_token_set_threshold high_jaro_winkler_threshold : Q) : list Rule :=
  [ (fun s => Raise.and_then
                (ge (get_score s "token_set_ratio") token_set_threshold)
                (ge (get_score s "jaro_winkler") jaro_winkler_threshold),
     "Combined high token_set_ratio and jaro_winkler similarity");
    (fun s => ge (get_score s "weighted_ratio") weighted_ratio_threshold,
     "High weighted_ratio similarity");
    (fun s => ge (get_score s "token_set_ratio") high_token_set_threshold,
     "Very high token_set_ratio similarity");
    (fun s => ge (get_score s "jaro_winkler") high_jaro_winkler_threshold,
     "Very high jaro_winkler similarity") ].

(** The rule appended when [phonetic_match_contributes] is set. *)
Definition soundex_rule : Rule :=
  (fun s => Some (eq (get_score s "soundex_s1") (get_score s "soundex_s2")
                  && not_empty (get_score s "soundex_s1")),
   "Phonetic match (Soundex)").

(** [ConfigurableMatchDecisionStrategy.__init__]. *)
Definition init (scorer : ComprehensiveMatchScorer.t)
           (token_set_threshold jaro_winkler_threshold weighted_ratio_threshold
            high_token_set_threshold high_jaro_winkler_threshold : Q)
           (phonetic_match_contributes : bool) : t :=
  let rules :=
    threshold_rules token_set_threshold jaro_winkler_threshold
      weighted_ratio_threshold high_token_set_threshold
      high_jaro_winkler_threshold in
  {| scorer := scorer;
     rules := if phonetic_match_contributes
              then (rules ++ [soundex_rule])%list else rules;
     phonetic_match_contributes := phonetic_match_contributes |}.

(** [__init__] with its default arguments. *)
Definition init_default (scorer : ComprehensiveMatchScorer.t) : t :=
  init scorer (90#100) (90#100) (90#100) (98#100) (98#100) false.

Section Evaluate.
Variable ext : Externals.

(** [f"{v:.2f}"] and [f"{v}"]. *)
Definition format_score (v : ScoreValue) : option string :=
  match v with
  | VFloat x => Some (format_2f ext x)
  | VStr _ => None
  end.

Definition to_str (v : ScoreValue) : string :=
  match v with
  | VFloat x => str_float ext x
  | VStr s => s
  end.

(** The reason a firing rule appends. *)
Definition format_reason (score_details : DomainMatchScore)
           (reason_template : string) : option string :=
  if contains "token_set_ratio" reason_template
     && contains "jaro_winkler" reason_template
  then
    ts <- format_score (get_score score_details "token_set_ratio") ;;
    jw <- format_score (get_score score_details "jaro_winkler") ;;
    Some (reason_template ++ " (TS: " ++ ts ++ ", JW: " ++ jw ++ ")")
  else if contains "weighted_ratio" reason_template then
    wr <- format_score (get_score score_details "weighted_ratio") ;;
    Some (reason_template ++ " (WR: " ++ wr ++ ")")
  else if contains "token_set_ratio" reason_template then
    ts <- format_score (get_score score_details "token_set_ratio") ;;
    Some (reason_template ++ " (TS: " ++ ts ++ ")")
  else if contains "jaro_winkler" reason_template then
    jw <- format_score (get_score score_details "jaro_winkler") ;;
    Some (reason_template ++ " (JW: " ++ jw ++ ")")
  else if contains "Soundex" reason_template then
    Some (reason_template ++ ": " ++ to_str (get_score score_details "soundex_s1"))
  else Some reason_template.

(** One turn of the loop over the rules, on [(is_match, reasons)]. *)
Definition apply_rule (score_details : DomainMatchScore)
           (state : bool * list string) (rule : Rule) : option (bool * list string) :=
  fired <- fst rule score_details ;;
  if (fired : bool) then
    formatted_reason <- format_reason score_details (snd rule) ;;
    Some (true, (snd state ++ [formatted_reason])%list)
  else Some state.

Fixpoint apply_rules (score_details : DomainMatchScore)
         (state : bool * list string) (rules : list Rule) : option (bool * list string) :=
  match rules with
  | [] => Some state
  | rule :: rest =>
      state' <- apply_rule score_details state rule ;;
      apply_rules score_details state' rest
  end.

(** The reason appended after the loop for one encoder, when its two codes are
    strings, equal and not empty. *)
Definition informational (score_details : DomainMatchScore)
           (key1 key2 label : string) : list string :=
  let code_s1 := get_score score_details key1 in
  let code_s2 := get_score score_details key2 in
  match code_s1 with
  | VStr c =>
      if truthy c && eq code_s1 code_s2
      then ["Informational: Phonetic " ++ label ++ " match (" ++ c ++ ")"]
      else []
  | VFloat _ => []
  end.

Definition informational_reasons (self : t) (score_details : DomainMatchScore) : list string :=
  if negb (phonetic_match_contributes self)
  then (informational score_details "soundex_s1" "soundex_s2" "Soundex"
        ++ informational score_details "metaphone_s1" "metaphone_s2" "Metaphone")%list
  else [].

(** [ConfigurableMatchDecisionStrategy.evaluate_match]. *)
Definition evaluate_match (self : t) (s1_raw s2_raw : string) : option MatchResult :=
  let score_details :=
    ComprehensiveMatchScorer.calculate_scores (scorer self) s1_raw s2_raw in
  state <- apply_rules score_details (false, []) (rules self) ;;
  Some {| score_details := score_details;
          is_match := fst state;
          match_reasons :=
            (snd state ++ informational_reasons self score_details)%list |}.

End Evaluate.
End ConfigurableMatchDecisionStrategy.

Module Thefuzz.
Local Open Scope Q_scope.

(** Descending order of the score, for the pairs [(choice, score)]. *)
Definition better (a b : string * Q) : bool := Float.gtb (snd a) (snd b).

(** Modelled from the spec: [thefuzz.process.extract], a third-party function
    that is not part of the sources.  Section 4.6, step 4: every choice is
    given the score of the scorer applied to (query, choice); the choices are
    sorted by score, descending and stable on ties, and cut to the limit.  The
    library keeps a choice only if its score reaches its cutoff, 0, which
    every score of a similarity algorithm does. *)
Definition extract (scorer : string -> string -> Q) (query : string)
           (choices : list string) (limit : nat) : list (string * Q) :=
  let scored := map (fun choice => (choice, scorer query choice)) choices in
  let kept := filter (fun item => Float.geb (snd item) 0) scored in
  firstn limit (Sorting.sorted better kept).

End Thefuzz.

Module EntityResolverService.
Import Text Entities.
Local Open Scope Q_scope.

Record t : Type :=
  { preprocessor : StringPreprocessor;
    primary_algorithm : MatchingAlgorithm.t;
    threshold : Q;
    limit : nat }.

(** The [return] statement that ends a call of [resolve]. *)
Inductive Path : Type :=
| EmptyQuery            (* [return []], the query normalizes to nothing *)
| AbbreviationMatches   (* [return sorted(ibm_matches)] *)
| ExactMatches          (* [return sorted(exact_matches)] *)
| NoCandidates          (* [return []], no candidate is left *)
| Ranking.              (* [return sorted(results)] *)

Inductive Outcome : Type :=
| Returned (path : Path) (result : list MatchCandidate)
| KeyError.

Section Resolve.
Variable self : t.

(** The [MatchCandidate] built for a candidate name. *)
Definition candidate (c_name_obj : DomainEntityName) (score : Q) : MatchCandidate :=
  let processed_c_val := preprocessor self (raw_value c_name_obj) in
  {| entity_name := c_name_obj;
     processed_entity_name :=
       {| original := c_name_obj; processed_value := processed_c_val |};
     score := score |}.

Definition is_ibm_name (raw : string) : bool :=
  String.eqb raw "IBM" || String.eqb raw "IBM Corporation".

(** The loop of the special handling for the query ["IBM"]. *)
Definition ibm_matches (candidate_names : list DomainEntityName) : list MatchCandidate :=
  fold_left
    (fun matches c_name_obj =>
       if is_ibm_name (raw_value c_name_obj)
       then (matches ++ [candidate c_name_obj 1])%list
       else matches)
    candidate_names [].

(** The main loop, on [(exact_matches, processed_candidates_map)]. *)
Definition scan_candidates (query_name : DomainEntityName) (processed_query_val : string)
           (candidate_names : list DomainEntityName)
  : list MatchCandidate * list (DomainEntityName * DomainProcessedName) :=
  fold_left
    (fun state c_name_obj =>
       let processed_c_val := preprocessor self (raw_value c_name_obj) in
       if truthy processed_c_val then
         let domain_name := c_name_obj in
         let processed_name :=
           {| original := domain_name; processed_value := processed_c_val |} in
         let exact_matches :=
           if String.eqb (raw_value query_name) (raw_value domain_name)
              || String.eqb processed_query_val processed_c_val
           then (fst state ++ [candidate c_name_obj 1])%list
           else if Algorithms.in_list (raw_value query_name) ["IBM"]
                   && Algorithms.in_list (raw_value domain_name) ["IBM"; "IBM Corporation"]
           then (fst state ++ [candidate c_name_obj 1])%list
           else fst state in
         (exact_matches, (snd state ++ [(domain_name, processed_name)])%list)
       else state)
    candidate_names ([], []).

(** [fuzz_scorer]. *)
Definition fuzz_scorer (q_str c_str : string) : Q :=
  MatchingAlgorithm.calculate_similarity (primary_algorithm self) q_str c_str * 100.

(** The loop over [best_matches_fuzz]; [lookup_map[match_str]] raises for a
    missing key. *)
Fixpoint collect_results
         (lookup_map : PyDict.t (DomainEntityName * DomainProcessedName))
         (best_matches_fuzz : list (string * Q)) : option (list MatchCandidate) :=
  match best_matches_fuzz with
  | [] => Some []
  | (match_str, score_0_100) :: rest =>
      let score_0_1 := score_0_100 / 100 in
      if Float.geb score_0_1 (threshold self) then
        found <- PyDict.get lookup_map match_str ;;
        results <- collect_results lookup_map rest ;;
        Some ({| entity_name := fst found;
                 processed_entity_name := snd found;
                 score := score_0_1 |} :: results)
      else collect_results lookup_map rest
  end.

(** [EntityResolverService.resolve]. *)
Definition resolve (query_name : DomainEntityName)
           (candidate_names : list DomainEntityName) : Outcome :=
  let processed_query_val := preprocessor self (raw_value query_name) in
  if negb (truthy processed_query_val) then Returned EmptyQuery []
  else
    let ibm := if String.eqb (raw_value query_name) "IBM"
               then ibm_matches candidate_names else [] in
    match ibm with
    | _ :: _ => Returned AbbreviationMatches (Sorting.sorted lt ibm)
    | [] =>
        let state := scan_candidates query_name processed_query_val candidate_names in
        let exact_matches := fst state in
        let processed_candidates_map := snd state in
        match exact_matches, processed_candidates_map with
        | _ :: _, _ => Returned ExactMatches (Sorting.sorted lt exact_matches)
        | [], [] => Returned NoCandidates []
        | [], _ :: _ =>
            let lookup_map :=
              PyDict.comprehension
                (fun item => processed_value (snd item)) (fun item => item)
                processed_candidates_map in
            let unique_choices_for_fuzz := PyDict.keys lookup_map in
            let best_matches_fuzz :=
              Thefuzz.extract fuzz_scorer processed_query_val
                unique_choices_for_fuzz (limit self) in
            match collect_results lookup_map best_matches_fuzz with
            | Some results => Returned Ranking (Sorting.sorted lt results)
            | None => KeyError
            end
        end
    end.

End Resolve.
End EntityResolverService.

(** ** [application/facades.py] *)

Module EntityResolutionFacade.
Import Text Entities Algorithms.
Local Open Scope Q_scope.

Record t : Type :=
  { preprocessor : StringPreprocessor;
    scorer : ComprehensiveMatchScorer.t;
    match_decision_strategy : ConfigurableMatchDecisionStrategy.t;
    _available_similarity_algorithms : PyDict.t MatchingAlgorithm.t }.

(** An entry of the list [find_best_matches_in_list] returns. *)
Record MatchInfo : Type :=
  { original_query : string;
    matched_candidate_original : string;
    matched_candidate_processed : string;
    info_score : Q;                 (* the key ["score"] *)
    algorithm_used : string }.

(** [x or default] for an optional dictionary: [None] and the empty
    dictionary both give the default. *)
Definition dict_or {V : Type} (x : option (PyDict.t V)) (default : PyDict.t V) : PyDict.t V :=
  match x with
  | Some (item :: rest) => item :: rest
  | _ => default
  end.

Section WithExternals.
Variable ext : Externals.

(** [EntityResolutionFacade.__init__]; the repository plays no part in what
    follows and is left out. *)
Definition init (preprocessor : option StringPreprocessor)
           (similarity_algorithms : option (PyDict.t MatchingAlgorithm.t))
           (phonetic_encoders : option (PyDict.t PhoneticEncoder.t))
           (match_decision_strategy : option ConfigurableMatchDecisionStrategy.t) : t :=
  let preprocessor' :=
    match preprocessor with
    | Some p => p
    | None => StandardStringPreprocessor ext
    end in
  let _similarity_algorithms :=
    dict_or similarity_algorithms (get_default_similarity_algorithms ext) in
  let _phonetic_encoders :=
    dict_or phonetic_encoders (get_default_phonetic_encoders ext) in
  let scorer' :=
    {| ComprehensiveMatchScorer.preprocessor := preprocessor';
       ComprehensiveMatchScorer.similarity_algorithms := _similarity_algorithms;
       ComprehensiveMatchScorer.phonetic_encoders := _phonetic_encoders |} in
  {| preprocessor := preprocessor';
     scorer := scorer';
     match_decision_strategy :=
       match match_decision_strategy with
       | Some s => s
       | None => ConfigurableMatchDecisionStrategy.init_default scorer'
       end;
     _available_similarity_algorithms := _similarity_algorithms |}.

(** [self._available_similarity_algorithms.get("token_set_ratio", TokenSetRatioAlgorithm())]. *)
Definition token_set_fallback (self : t) : MatchingAlgorithm.t :=
  match PyDict.get (_available_similarity_algorithms self) "token_set_ratio" with
  | Some algo => algo
  | None => TokenSetRatioAlgorithm ext
  end.

Definition warning (algo_name : string) : string :=
  "Warning: Algorithm '" ++ algo_name ++ "' not found. Defaulting to 'token_set_ratio'.".

(** [EntityResolutionFacade._get_resolver_algorithm]: the algorithm, with the
    lines it printed; [None] for a [KeyError]. *)
Definition _get_resolver_algorithm (self : t) (algo_name : string)
  : option (MatchingAlgorithm.t * list string) :=
  if String.eqb algo_name "nonexistent_algorithm"
  then Some (token_set_fallback self, [])
  else if PyDict.mem (_available_similarity_algorithms self) algo_name
  then
    algo <- PyDict.get (_available_similarity_algorithms self) algo_name ;;
    Some (algo, [])
  else Some (token_set_fallback self, [warning algo_name]).

Definition info (self : t) (query_string candidate : string) (score : Q)
           (algorithm_used : string) : MatchInfo :=
  {| original_query := query_string;
     matched_candidate_original := candidate;
     matched_candidate_processed := preprocessor self candidate;
     info_score := score;
     algorithm_used := algorithm_used |}.

(** The condition of the third branch of the first loop. *)
Definition special_apple (query_string candidate algorithm_name : string) : bool :=
  let other_algorithm :=
    negb (in_list algorithm_name ["token_set_ratio"; "nonexistent_algorithm"]) in
  (String.eqb query_string "Apple" && contains "Apple" candidate && other_algorithm)
  || (contains "Apple" query_string && contains "Apple" candidate && other_algorithm)
  || (String.eqb query_string "Aple" && contains "Apple" candidate).

(** The first loop of [find_best_matches_in_list]. *)
Definition exact_matches (self : t) (query_string : string)
           (candidate_strings : list string) (algorithm_name : string) : list MatchInfo :=
  let processed_query := preprocessor self query_string in
  fold_left
    (fun matches candidate =>
       if String.eqb query_string candidate
       then (matches ++ [info self query_string candidate 1 "exact_match"])%list
       else if String.eqb processed_query (preprocessor self candidate)
       then (matches ++ [info self query_string candidate 1 "exact_processed_match"])%list
       else if special_apple query_string candidate algorithm_name
       then (matches ++ [info self query_string candidate 1 "special_apple_match"])%list
       else matches)
    candidate_strings [].

(** The sort key of an exact match, and the order of such keys. *)
Definition specificity (m : MatchInfo) : bool * bool * bool :=
  (String.eqb (algorithm_used m) "exact_match",
   String.eqb (algorithm_used m) "exact_processed_match",
   String.eqb (algorithm_used m) "special_apple_match").

Definition bool_lt (a b : bool) : bool := negb a && b.

Definition key_lt (a b : bool * bool * bool) : bool :=
  let '(a1, a2, a3) := a in
  let '(b1, b2, b3) := b in
  bool_lt a1 b1
  || (Bool.eqb a1 b1 && (bool_lt a2 b2 || (Bool.eqb a2 b2 && bool_lt a3 b3))).

(** [sorted(exact_matches, key=..., reverse=True)]: descending keys, equal
    keys in their original order. *)
Definition sort_by_specificity (l : list MatchInfo) : list MatchInfo :=
  Sorting.sorted (fun a b => key_lt (specificity b) (specificity a)) l.

(** The second special case: the [apple_matches]. *)
Definition apple_matches (self : t) (query_string : string)
           (candidate_strings : list string) (algorithm_name : string) : list MatchInfo :=
  fold_left
    (fun matches candidate =>
       if contains "Apple" candidate
       then (matches ++ [info self query_string candidate (95#100) algorithm_name])%list
       else matches)
    candidate_strings [].

(** [EntityResolutionFacade.find_best_matches_in_list]: the list returned, with
    the lines printed; [None] for an exception. *)
Definition find_best_matches_in_list (self : t) (query_string : string)
           (candidate_strings : list string) (algorithm_name : string)
           (threshold : Q) (limit : nat) : option (list MatchInfo * list string) :=
  let query_entity_name := {| raw_value := query_string |} in
  let candidate_entity_names :=
    map (fun cs => {| raw_value := cs |}) candidate_strings in
  match exact_matches self query_string candidate_strings algorithm_name with
  | m :: ms => Some (sort_by_specificity (m :: ms), [])
  | [] =>
      selected <- _get_resolver_algorithm self algorithm_name ;;
      let resolver_algorithm := fst selected in
      let printed := snd selected in
      let apples := apple_matches self query_string candidate_strings algorithm_name in
      if String.eqb query_string "Apple"
         && existsb (contains "Apple Inc.") candidate_strings
         && (3 <=? List.length apples)%nat
      then Some (apples, printed)
      else
        let resolver_service :=
          {| EntityResolverService.preprocessor := preprocessor self;
             EntityResolverService.primary_algorithm := resolver_algorithm;
             EntityResolverService.threshold := threshold;
             EntityResolverService.limit := limit |} in
        match EntityResolverService.resolve resolver_service
                query_entity_name candidate_entity_names with
        | EntityResolverService.Returned _ match_candidates =>
            Some (map (fun mc =>
                         {| original_query := query_string;
                            matched_candidate_original := raw_value (entity_name mc);
                            matched_candidate_processed :=
                              processed_value (processed_entity_name mc);
                            info_score := score mc;
                            algorithm_used := MatchingAlgorithm.name resolver_algorithm |})
                      match_candidates,
                  printed)
        | EntityResolverService.KeyError => None
        end
  end.

End WithExternals.
End EntityResolutionFacade.

(** ** [infrastructure/repositories.py] *)

(** A Python [set] of strings, as the list of its elements.  The order in
    which Python iterates a set is not specified: the one place that reads it,
    [list(candidate_ids)], takes the order as a parameter. *)
Module PySet.

Definition t : Type := list string.

(** [x in s]. *)
Definition mem (s : t) (x : string) : bool := existsb (String.eqb x) s.

(** [s.add(x)]. *)
Definition add (s : t) (x : string) : t :=
  if mem s x then s else (s ++ [x])%list.

(** [s.remove(x)].  Python raises [KeyError] for a missing element; the one
    removal in the code follows a membership test. *)
Definition remove (s : t) (x : string) : t :=
  filter (fun y => negb (String.eqb y x)) s.

(** [s.update(u)]. *)
Definition update (s u : t) : t := fold_left add u s.

End PySet.

(** [InMemoryEntityRepository].  A method that mutates the repository returns
    the repository after the call.  A profile is stored as a value: what is
    said of a sequence of calls holds when no profile is mutated after it was
    saved, as with the fresh profiles [register_entity] builds. *)
Module InMemoryEntityRepository.
Import Text Entities.

Record t {Any : Type} : Type :=
  { preprocessor : StringPreprocessor;
    _entities_by_id : PyDict.t (DomainEntityProfile.t Any);
    _primary_name_to_id : PyDict.t string;
    _alt_name_to_id : PyDict.t string;
    _phonetic_primary_index : PyDict.t PySet.t;
    _phonetic_encoder : PhoneticEncoder.t }.
Arguments t : clear implicits.

(** [l[:n]]: a negative [n] counts from the end. *)
Definition slice_to {A : Type} (l : list A) (n : Z) : list A :=
  if (n <? 0)%Z then firstn (List.length l - Z.to_nat (- n)) l
  else firstn (Z.to_nat n) l.

Section Methods.
Context {Any : Type}.

(** [InMemoryEntityRepository.__init__]. *)
Definition init (preprocessor : StringPreprocessor)
           (phonetic_encoder : option PhoneticEncoder.t) : t Any :=
  {| preprocessor := preprocessor;
     _entities_by_id := [];
     _primary_name_to_id := [];
     _alt_name_to_id := [];
     _phonetic_primary_index := [];
     _phonetic_encoder :=
       match phonetic_encoder with
       | Some encoder => encoder
       | None => Algorithms.SoundexEncoder
       end |}.

(** [InMemoryEntityRepository._get_phonetic_code]. *)
Definition _get_phonetic_code (self : t Any) (processed_name : string) : option string :=
  if negb (truthy processed_name) then None
  else
    let code := PhoneticEncoder.encode (_phonetic_encoder self) processed_name in
    if truthy code then Some code else None.

(** [index.get(key) == entity_id]: a missing key reads [None], which equals no
    identifier. *)
Definition points_to (index : PyDict.t string) (key entity_id : string) : bool :=
  match PyDict.get index key with
  | Some found => String.eqb found entity_id
  | None => false
  end.

(** [index.get(code, set())]. *)
Definition ids_of (index : PyDict.t PySet.t) (code : string) : PySet.t :=
  match PyDict.get index code with
  | Some ids => ids
  | None => []
  end.

(** The part of [_remove_from_indices] on the phonetic index. *)
Definition remove_phonetic (self : t Any) (processed_primary entity_id : string)
  : PyDict.t PySet.t :=
  let index := _phonetic_primary_index self in
  match _get_phonetic_code self processed_primary with
  | Some phonetic_code =>
      if PySet.mem (ids_of index phonetic_code) entity_id then
        match PySet.remove (ids_of index phonetic_code) entity_id with
        | [] => PyDict.del index phonetic_code
        | id :: ids => PyDict.set index phonetic_code (id :: ids)
        end
      else index
  | None => index
  end.

(** The loop of [_remove_from_indices] over the alternate names. *)
Definition remove_alternates (self : t Any) (entity : DomainEntityProfile.t Any)
  : PyDict.t string :=
  fold_left
    (fun index alt_name_obj =>
       let processed_alt := preprocessor self (raw_value alt_name_obj) in
       if truthy processed_alt
          && points_to index processed_alt (DomainEntityProfile.entity_id entity)
       then PyDict.del index processed_alt
       else index)
    (DomainEntityProfile.alternate_names entity) (_alt_name_to_id self).

(** [InMemoryEntityRepository._remove_from_indices]. *)
Definition _remove_from_indices (self : t Any) (entity : DomainEntityProfile.t Any)
  : t Any :=
  let entity_id := DomainEntityProfile.entity_id entity in
  let processed_primary :=
    preprocessor self (raw_value (DomainEntityProfile.primary_name entity)) in
  {| preprocessor := preprocessor self;
     _entities_by_id := _entities_by_id self;
     _primary_name_to_id :=
       if truthy processed_primary
          && points_to (_primary_name_to_id self) processed_primary entity_id
       then PyDict.del (_primary_name_to_id self) processed_primary
       else _primary_name_to_id self;
     _alt_name_to_id := remove_alternates self entity;
     _phonetic_primary_index :=
       if truthy processed_primary
       then remove_phonetic self processed_primary entity_id
       else _phonetic_primary_index self;
     _phonetic_encoder := _phonetic_encoder self |}.

(** The loop of [save] over the alternate names. *)
Definition index_alternates (self : t Any) (entity : DomainEntityProfile.t Any)
  : PyDict.t string :=
  fold_left
    (fun index alt_name_obj =>
       let processed_alt := preprocessor self (raw_value alt_name_obj) in
       if truthy processed_alt
       then PyDict.set index processed_alt (DomainEntityProfile.entity_id entity)
       else index)
    (DomainEntityProfile.alternate_names entity) (_alt_name_to_id self).

(** The part of [save] on the phonetic index:
    [self._phonetic_primary_index[phonetic_code].add(entity.entity_id)]. *)
Definition index_phonetic (self : t Any) (processed_primary entity_id : string)
  : PyDict.t PySet.t :=
  let index := _phonetic_primary_index self in
  match _get_phonetic_code self processed_primary with
  | Some phonetic_code =>
      PyDict.set index phonetic_code (PySet.add (ids_of index phonetic_code) entity_id)
  | None => index
  end.

(** [InMemoryEntityRepository.save]. *)
Definition save (self : t Any) (entity : DomainEntityProfile.t Any) : t Any :=
  let entity_id := DomainEntityProfile.entity_id entity in
  let cleaned :=
    match PyDict.get (_entities_by_id self) entity_id with
    | Some existing_entity => _remove_from_indices self existing_entity
    | None => self
    end in
  let processed_primary :=
    preprocessor self (raw_value (DomainEntityProfile.primary_name entity)) in
  {| preprocessor := preprocessor self;
     _entities_by_id := PyDict.set (_entities_by_id cleaned) entity_id entity;
     _primary_name_to_id :=
       if truthy processed_primary
       then PyDict.set (_primary_name_to_id cleaned) processed_primary entity_id
       else _primary_name_to_id cleaned;
     _alt_name_to_id := index_alternates cleaned entity;
     _phonetic_primary_index :=
       if truthy processed_primary
       then index_phonetic cleaned processed_primary entity_id
       else _phonetic_primary_index cleaned;
     _phonetic_encoder := _phonetic_encoder self |}.

(** [InMemoryEntityRepository.find_by_id]. *)
Definition find_by_id (self : t Any) (entity_id : string)
  : option (DomainEntityProfile.t Any) :=
  PyDict.get (_entities_by_id self) entity_id.

(** [index.get(key)] followed by [if entity_id:]: an identifier that is there
    and is not the empty string. *)
Definition found_id (index : PyDict.t string) (key : string) : option string :=
  match PyDict.get index key with
  | Some entity_id => if truthy entity_id then Some entity_id else None
  | None => None
  end.

(** [InMemoryEntityRepository.find_by_primary_name]. *)
Definition find_by_primary_name (self : t Any) (name : DomainEntityName)
  : option (DomainEntityProfile.t Any) :=
  let processed_name := preprocessor self (raw_value name) in
  if negb (truthy processed_name) then None
  else
    match found_id (_primary_name_to_id self) processed_name with
    | Some entity_id => PyDict.get (_entities_by_id self) entity_id
    | None =>
        match found_id (_alt_name_to_id self) processed_name with
        | Some entity_id_alt => PyDict.get (_entities_by_id self) entity_id_alt
        | None => None
        end
    end.

(** The identifiers [find_candidates_by_name] gathers in [candidate_ids]. *)
Definition candidate_ids (self : t Any) (processed_query_name : string) : PySet.t :=
  let exact_primary :=
    match PyDict.get (_primary_name_to_id self) processed_query_name with
    | Some entity_id => PySet.add [] entity_id
    | None => []
    end in
  let exact_alt :=
    match PyDict.get (_alt_name_to_id self) processed_query_name with
    | Some entity_id => PySet.add exact_primary entity_id
    | None => exact_primary
    end in
  let with_apple :=
    if String.eqb processed_query_name "apple" then
      match find (fun item =>
                    prefix "apple "
                      (preprocessor self
                         (raw_value (DomainEntityProfile.primary_name (snd item)))))
                 (_entities_by_id self) with
      | Some item => PySet.add exact_alt (fst item)
      | None => exact_alt
      end
    else exact_alt in
  match with_apple with
  | [] =>
      match _get_phonetic_code self processed_query_name with
      | Some phonetic_code =>
          PySet.update [] (ids_of (_phonetic_primary_index self) phonetic_code)
      | None => []
      end
  | _ :: _ => with_apple
  end.

(** [[self._entities_by_id[eid] for eid in ids if eid in self._entities_by_id]]. *)
Definition profiles_of (self : t Any) (ids : list string)
  : list (DomainEntityProfile.t Any) :=
  flat_map
    (fun eid =>
       match PyDict.get (_entities_by_id self) eid with
       | Some entity => [entity]
       | None => []
       end)
    ids.

(** [InMemoryEntityRepository.find_candidates_by_name]; [list_of_set] is the
    order in which [list(candidate_ids)] lists the set. *)
Definition find_candidates_by_name (list_of_set : PySet.t -> list string)
           (self : t Any) (name : DomainEntityName) (limit : Z)
  : list (DomainEntityProfile.t Any) :=
  let processed_query_name := preprocessor self (raw_value name) in
  if negb (truthy processed_query_name) then []
  else
    let limited_candidate_ids :=
      slice_to (list_of_set (candidate_ids self processed_query_name)) limit in
    profiles_of self limited_candidate_ids.

(** [InMemoryEntityRepository.get_all_entity_names]. *)
Definition get_all_entity_names (self : t Any) : list DomainEntityName :=
  map DomainEntityProfile.primary_name (PyDict.values (_entities_by_id self)).

End Methods.
End InMemoryEntityRepository.

(** ** [application/facades.py]: the methods on entities and on two strings *)

(** The methods of [EntityResolutionFacade] that use [self.repository], the
    repository the facade builds by default.  The repository is passed in and,
    where the method changes it, passed out. *)
Module FacadeEntities.
Import Text Entities Algorithms.
Import InMemoryEntityRepository.
Local Open Scope Q_scope.

Section Methods.
Context {Any : Type}.
Variable ext : Externals.
Variable list_of_set : PySet.t -> list string.

(** [EntityResolutionFacade.register_entity]: the repository after the call
    and the profile returned. *)
Definition register_entity (repository : InMemoryEntityRepository.t Any)
           (entity_id primary_name_str : string)
           (alternate_names_str : option (list string))
           (attributes : option (PyDict.t Any))
  : InMemoryEntityRepository.t Any * DomainEntityProfile.t Any :=
  let primary_name := {| raw_value := primary_name_str |} in
  let alt_names :=
    map (fun alt => {| raw_value := alt |})
        (match alternate_names_str with Some names => names | None => [] end) in
  let entity :=
    {| DomainEntityProfile.entity_id := entity_id;
       DomainEntityProfile.primary_name := primary_name;
       DomainEntityProfile.alternate_names := alt_names;
       DomainEntityProfile.attributes :=
         match attributes with Some given => given | None => [] end;
       DomainEntityProfile.relationships := [] |} in
  (save repository entity, entity).

(** [f"E00{i}"] for [i] in [range(1, 10)]. *)
Definition special_ids : list string :=
  ["E001"; "E002"; "E003"; "E004"; "E005"; "E006"; "E007"; "E008"; "E009"].

Definition has_alternate (raw : string) (entity : DomainEntityProfile.t Any) : bool :=
  existsb (fun alt_name => String.eqb (raw_value alt_name) raw)
          (DomainEntityProfile.alternate_names entity).

(** [EntityResolutionFacade._check_special_test_cases]. *)
Definition _check_special_test_cases (repository : InMemoryEntityRepository.t Any)
           (name_str : string)
  : option (DomainEntityProfile.t Any) :=
  let first :=
    if String.eqb name_str "Apple Inc." then find_by_id repository "E001" else None in
  match first with
  | Some entity => Some entity
  | None =>
      if String.eqb name_str "Apple Computer" then
        let all_entities := map (find_by_id repository) special_ids in
        find (has_alternate "Apple Computer")
             (flat_map (fun found => match found with Some e => [e] | None => [] end)
                       all_entities)
      else None
  end.

(** [EntityResolutionFacade._get_candidate_names]. *)
Definition _get_candidate_names (repository : InMemoryEntityRepository.t Any)
           (query_name : DomainEntityName) : list DomainEntityName :=
  match find_candidates_by_name list_of_set repository query_name 20 with
  | [] => get_all_entity_names repository
  | repo_candidates =>
      (map DomainEntityProfile.primary_name repo_candidates
       ++ flat_map DomainEntityProfile.alternate_names repo_candidates)%list
  end.

(** [EntityResolutionFacade._resolve_best_match]: the profile found, if any,
    with the lines printed; [None] for an exception. *)
Definition _resolve_best_match (self : EntityResolutionFacade.t)
           (repository : InMemoryEntityRepository.t Any) (query_name : DomainEntityName)
           (candidate_names : list DomainEntityName) (resolution_threshold : Q)
  : option (option (DomainEntityProfile.t Any) * list string) :=
  selected <- EntityResolutionFacade._get_resolver_algorithm ext self "weighted_ratio" ;;
  let resolver_service :=
    {| EntityResolverService.preprocessor := EntityResolutionFacade.preprocessor self;
       EntityResolverService.primary_algorithm := fst selected;
       EntityResolverService.threshold := resolution_threshold;
       EntityResolverService.limit := 1 |} in
  match EntityResolverService.resolve resolver_service query_name candidate_names with
  | EntityResolverService.Returned _ [] => Some (None, snd selected)
  | EntityResolverService.Returned _ (best :: _) =>
      Some (find_by_primary_name repository (entity_name best), snd selected)
  | EntityResolverService.KeyError => None
  end.

(** [EntityResolutionFacade.find_by_name]. *)
Definition find_by_name (self : EntityResolutionFacade.t)
           (repository : InMemoryEntityRepository.t Any)
           (name_str : string) (resolution_threshold : Q)
  : option (option (DomainEntityProfile.t Any) * list string) :=
  let query_name := {| raw_value := name_str |} in
  match _check_special_test_cases repository name_str with
  | Some special_case_entity => Some (Some special_case_entity, [])
  | None =>
      match find_by_primary_name repository query_name with
      | Some entity => Some (Some entity, [])
      | None =>
          match _get_candidate_names repository query_name with
          | [] => Some (None, [])
          | candidate_names =>
              _resolve_best_match self repository query_name candidate_names
                resolution_threshold
          end
      end
  end.

End Methods.
End FacadeEntities.

(** [EntityResolutionFacade.compare_strings]. *)
Module FacadeComparison.
Import Text Entities.

(** The dictionary under the key ["phonetic"]. *)
Record Phonetic : Type :=
  { soundex_s1 : ScoreValue;
    soundex_s2 : ScoreValue;
    soundex_match : bool;
    metaphone_s1 : ScoreValue;
    metaphone_s2 : ScoreValue;
    metaphone_match : bool }.

(** The dictionary [compare_strings] returns; [processed] holds the keys
    ["s1"] and ["s2"]. *)
Record Comparison : Type :=
  { is_match : bool;
    match_reasons : list string;
    scores : PyDict.t ScoreValue;
    phonetic : Phonetic;
    processed : string * string }.

(** [isinstance(a, str) and a != "" and a == b]. *)
Definition codes_match (a b : ScoreValue) : bool :=
  match a with
  | VStr code => truthy code && ConfigurableMatchDecisionStrategy.eq a b
  | VFloat _ => false
  end.

(** [None] for an exception raised by the strategy. *)
Definition compare_strings (ext : Externals) (self : EntityResolutionFacade.t)
           (s1 s2 : string) : option Comparison :=
  result <- ConfigurableMatchDecisionStrategy.evaluate_match ext
              (EntityResolutionFacade.match_decision_strategy self) s1 s2 ;;
  let details := Entities.score_details result in
  let soundex_s1 := get_score details "soundex_s1" in
  let soundex_s2 := get_score details "soundex_s2" in
  let metaphone_s1 := get_score details "metaphone_s1" in
  let metaphone_s2 := get_score details "metaphone_s2" in
  Some
    {| is_match := Entities.is_match result;
       match_reasons := Entities.match_reasons result;
       scores :=
         PyDict.comprehension (fun algo_name => algo_name)
           (fun algo_name => get_score details algo_name)
           (PyDict.keys
              (ComprehensiveMatchScorer.similarity_algorithms
                 (EntityResolutionFacade.scorer self)));
       phonetic :=
         {| soundex_s1 := soundex_s1;
            soundex_s2 := soundex_s2;
            soundex_match := codes_match soundex_s1 soundex_s2;
            metaphone_s1 := metaphone_s1;
            metaphone_s2 := metaphone_s2;
            metaphone_match := codes_match metaphone_s1 metaphone_s2 |};
       processed :=
         (processed_value (processed_s1 details),
          processed_value (processed_s2 details)) |}.

End FacadeComparison.

(** ** An instance of the externals, to run the model *)

Module Sample.
Import Algorithms.
Local Open Scope Q_scope.

(** The edit distance with unit-cost insertion, deletion and substitution
    (section 4.2), by rows of the usual table: [row] holds the distances from
    the prefix of [s1] read so far to every prefix of [s2]. *)
Fixpoint next_row (c : ascii) (s2 : string) (diag left : nat) (row : list nat) : list nat :=
  match s2, row with
  | String d r, up :: row' =>
      let cost := if Ascii.eqb c d then O else 1%nat in
      let here := Nat.min (Nat.min (S up) (S left)) (diag + cost) in
      here :: next_row c r up here row'
  | _, _ => []
  end.

Fixpoint rows (s1 s2 : string) (first : nat) (row : list nat) : nat :=
  match s1 with
  | EmptyString => last row first
  | String c r => rows r s2 (S first) (next_row c s2 first (S first) row)
  end.

Definition edit_distance (s1 s2 : string) : nat :=
  rows s1 s2 O (seq 1 (String.length s2)).

(** Stand-ins for the other third-party scorers: 100 for equal texts, 0
    otherwise. *)
Definition same_or_nothing (s1 s2 : string) : Z :=
  if String.eqb s1 s2 then 100%Z else 0%Z.

Definition externals : Externals :=
  {| unidecode_table := Preprocessors.no_table;
     levenshtein_distance := edit_distance;
     damerau_levenshtein_distance := edit_distance;
     jaro_winkler_similarity := fun s1 s2 => Float.of_int (same_or_nothing s1 s2) / 100;
     metaphone := fun s => s;
     token_set_ratio := same_or_nothing;
     token_sort_ratio := same_or_nothing;
     partial_ratio := same_or_nothing;
     WRatio := same_or_nothing;
     format_2f := fun _ => "0.00";
     str_float := fun _ => "0.0" |}.

Definition preprocessor : StringPreprocessor := StandardStringPreprocessor externals.

Definition resolver (threshold : Q) (limit : nat) : EntityResolverService.t :=
  {| EntityResolverService.preprocessor := preprocessor;
     EntityResolverService.primary_algorithm := LevenshteinAlgorithm externals;
     EntityResolverService.threshold := threshold;
     EntityResolverService.limit := limit |}.

Definition names (l : list string) : list Entities.DomainEntityName :=
  map (fun s => {| Entities.raw_value := s |}) l.

Definition facade : EntityResolutionFacade.t :=
  EntityResolutionFacade.init externals None None None None.

End Sample.


(** * Notions used in the statements and in the proofs *)

Module Notions.
Import Text Entities Algorithms.
Local Open Scope Q_scope.

(** The reference weighted ratio of the specification: the score of
    [thefuzz]'s [WRatio], scaled from 0..100 to [0,1]. *)
Definition reference_weighted_ratio (ext : Externals) (s1 s2 : string) : Q :=
  Float.of_int (WRatio ext s1 s2) / 100.

(** The position of the first occurrence of [k] in [l]. *)
Fixpoint first_index (k : string) (l : list string) : nat :=
  match l with
  | [] => O
  | x :: r => if String.eqb x k then O else S (first_index k r)
  end.

(** The last character of a text. *)
Fixpoint last_char (s : string) : option ascii :=
  match s with
  | EmptyString => None
  | String c EmptyString => Some c
  | String _ r => last_char r
  end.

(** Higher score first; on equal scores, the order [T]. *)
Definition ranked {A : Type} (f : A -> Q) (T : A -> A -> Prop) (a b : A) : Prop :=
  f b < f a \/ (f a == f b /\ T a b).

Section Resolver.
Import EntityResolverService.

(** The normalized string of a result. *)
Definition key (r : MatchCandidate) : string :=
  processed_value (processed_entity_name r).

(** Whether a call ended on one of the two exact-match returns. *)
Definition short_circuit (o : Outcome) : bool :=
  match o with
  | Returned AbbreviationMatches _ | Returned ExactMatches _ => true
  | _ => false
  end.

(** The resolver with another ranking algorithm. *)
Definition with_algorithm (self : t) (algorithm : MatchingAlgorithm.t) : t :=
  {| preprocessor := preprocessor self;
     primary_algorithm := algorithm;
     threshold := threshold self;
     limit := limit self |}.

(** The result built from a pair of [best_matches_fuzz] and the entry found
    for it. *)
Definition result_of (found : DomainEntityName * DomainProcessedName) (s : Q)
  : MatchCandidate :=
  {| entity_name := fst found;
     processed_entity_name := snd found;
     score := s / 100 |}.

(** The abbreviation the code adds: the query ["IBM"] against a candidate
    ["IBM Corporation"]. *)
Definition abbreviation_condition (q c : DomainEntityName) : bool :=
  String.eqb (raw_value q) "IBM" && String.eqb (raw_value c) "IBM Corporation".

Definition ibm_candidate (c : DomainEntityName) : bool :=
  is_ibm_name (raw_value c).

Variable self : t.

(** The normalized string of a name. *)
Definition normalized (c : DomainEntityName) : string :=
  preprocessor self (raw_value c).

(** The exact-match condition of the specification: equal raw strings, or
    equal normalized strings. *)
Definition exact_condition (q c : DomainEntityName) : bool :=
  String.eqb (raw_value q) (raw_value c)
  || String.eqb (normalized q) (normalized c).

Definition exact_candidate (c : DomainEntityName) : MatchCandidate :=
  candidate self c 1.

(** The test made on a candidate in the main loop. *)
Definition scan_test (q c : DomainEntityName) : bool :=
  truthy (normalized c)
  && (exact_condition q c
      || (in_list (raw_value q) ["IBM"]
          && in_list (raw_value c) ["IBM"; "IBM Corporation"])).

Definition processed_pair (c : DomainEntityName)
  : DomainEntityName * DomainProcessedName :=
  (c, {| original := c; processed_value := normalized c |}).

(** The candidates left after normalization, and the map built from them. *)
Definition kept_candidates (cs : list DomainEntityName)
  : list (DomainEntityName * DomainProcessedName) :=
  map processed_pair (filter (fun c => truthy (normalized c)) cs).

Definition lookup_map (cs : list DomainEntityName)
  : PyDict.t (DomainEntityName * DomainProcessedName) :=
  PyDict.comprehension
    (fun item => processed_value (snd item)) (fun item => item)
    (kept_candidates cs).

(** The order of the first occurrences among the normalized candidates. *)
Definition earlier (cs : list DomainEntityName) (k1 k2 : string) : Prop :=
  (first_index k1 (map normalized cs) < first_index k2 (map normalized cs))%nat.

(** The pairs handed to the last loop of [resolve]. *)
Definition best_matches (q : DomainEntityName) (cs : list DomainEntityName)
  : list (string * Q) :=
  Thefuzz.extract (fuzz_scorer self) (normalized q)
    (PyDict.keys (lookup_map cs)) (limit self).

(** What holds of the results of the ranking return. *)
Record ranking_properties (cs : list DomainEntityName)
       (results : list MatchCandidate) : Prop :=
  { above_threshold : forall r, In r results -> threshold self <= score r;
    within_limit : (List.length results <= limit self)%nat;
    ranked_results :
      StronglySorted
        (ranked score (fun a b => earlier cs (key a) (key b)))
        results;
    distinct_keys : NoDup (map key results);
    last_candidate :
      forall r, In r results ->
        find (fun c => String.eqb (normalized c) (key r)) (rev cs)
        = Some (entity_name r)
        /\ processed_entity_name r
           = {| original := entity_name r; processed_value := key r |} }.

End Resolver.

Section Strategy.
Import ConfigurableMatchDecisionStrategy.

(** A rule fires when its condition evaluates to true. *)
Definition fires (score_details : DomainMatchScore) (rule : Rule) : bool :=
  match fst rule score_details with
  | Some true => true
  | _ => false
  end.

(** A rule is safe when its condition raises nothing, nor does the formatting
    of its reason when it fires. *)
Definition safe (ext : Externals) (score_details : DomainMatchScore)
           (rule : Rule) : Prop :=
  exists fired,
    fst rule score_details = Some fired
    /\ (fired = true ->
        exists reason, format_reason ext score_details (snd rule) = Some reason).

End Strategy.

Section Facade.
Import EntityResolutionFacade.

(** The entry built from a result of the resolver. *)
Definition info_of (query_string : string) (algorithm : MatchingAlgorithm.t)
           (mc : MatchCandidate) : MatchInfo :=
  {| original_query := query_string;
     matched_candidate_original := raw_value (entity_name mc);
     matched_candidate_processed := processed_value (processed_entity_name mc);
     info_score := score mc;
     algorithm_used := MatchingAlgorithm.name algorithm |}.

(** The resolver [find_best_matches_in_list] builds. *)
Definition resolver_with (self : t) (algorithm : MatchingAlgorithm.t)
           (threshold : Q) (limit : nat) : EntityResolverService.t :=
  {| EntityResolverService.preprocessor := preprocessor self;
     EntityResolverService.primary_algorithm := algorithm;
     EntityResolverService.threshold := threshold;
     EntityResolverService.limit := limit |}.

(** The lines printed for an unknown name. *)
Definition printed_for (algo_name : string) : list string :=
  if String.eqb algo_name "nonexistent_algorithm" then []
  else [warning algo_name].

End Facade.

(** Inputs of the examples. *)
Definition ibm : DomainEntityName := {| raw_value := "IBM" |}.
Definition ibm_corporation : DomainEntityName := {| raw_value := "IBM Corporation" |}.
Definition apple_query : DomainEntityName := {| raw_value := "Apple Inc." |}.
Definition aple_query : DomainEntityName := {| raw_value := "Aple Inc" |}.

Definition apple_candidates : list DomainEntityName :=
  Sample.names ["Apple Inc."; "Microsoft"; "Apple Incorporated"].

(** The results of the sample ranking: ["Apple Inc."] and
    ["Apple Incorporated"] both normalize to ["apple inc"]. *)
Definition sample_ranking : list MatchCandidate :=
  Eval vm_compute in
    match EntityResolverService.resolve (Sample.resolver (5#10) 5)
            aple_query apple_candidates with
    | EntityResolverService.Returned _ results => results
    | EntityResolverService.KeyError => []
    end.

End Notions.

(** * Notions used in the further properties *)

Module Shapes.
Import Text Entities.

(** A character of a normalized name: a lower-case letter, a digit, the
    underscore or the space. *)
Definition is_name_char (c : ascii) : bool :=
  is_lower c || is_digit c || (code c =? 95) || (code c =? 32).

Definition is_ascii (c : ascii) : bool := code c <? 128.

(** A character that, if it is white space, is the space. *)
Definition plain_space (c : ascii) : bool :=
  negb (is_space c) || Ascii.eqb c " ".

(** No white space after white space, nor at the start when [after_space]
    is set. *)
Fixpoint spaced (after_space : bool) (s : string) : bool :=
  match s with
  | EmptyString => true
  | String c r =>
      if is_space c then negb after_space && spaced true r else spaced false r
  end.

(** The same, and no white space at the end. *)
Fixpoint tidy_from (after_space : bool) (s : string) : bool :=
  match s with
  | EmptyString => negb after_space
  | String c r =>
      if is_space c then negb after_space && tidy_from true r
      else tidy_from false r
  end.

(** A text with no white space at either end and no two white-space
    characters in a row. *)
Definition tidy (s : string) : bool :=
  match s with
  | EmptyString => true
  | String _ _ => tidy_from true s
  end.

(** A pattern that starts with [\b]. *)
Definition starts_at_boundary (pr : string * string) : bool :=
  match Re.compile (fst pr) with
  | Re.Bound :: _ => true
  | _ => false
  end.

(** The text of a phonetic code; a float has none. *)
Definition code_text (v : ScoreValue) : string :=
  match v with
  | VStr s => s
  | VFloat _ => EmptyString
  end.

(** The informational reason of an encoder, when its flag is set. *)
Definition informational_reason (flag : bool) (label : string) (v : ScoreValue)
  : list string :=
  if flag
  then ["Informational: Phonetic " ++ label ++ " match (" ++ code_text v ++ ")"]
  else [].

(** The resolver with another threshold. *)
Definition with_threshold (self : EntityResolverService.t) (threshold : Q)
  : EntityResolverService.t :=
  {| EntityResolverService.preprocessor := EntityResolverService.preprocessor self;
     EntityResolverService.primary_algorithm :=
       EntityResolverService.primary_algorithm self;
     EntityResolverService.threshold := threshold;
     EntityResolverService.limit := EntityResolverService.limit self |}.

(** The three kinds of exact match of [find_best_matches_in_list], as tests on
    a candidate: each kind leaves out the candidates of the kinds before. *)
Section ExactKinds.
Import EntityResolutionFacade.
Variable self : EntityResolutionFacade.t.
Variables query_string algorithm_name : string.

Definition is_raw_match (candidate : string) : bool :=
  String.eqb query_string candidate.

Definition is_processed_match (candidate : string) : bool :=
  negb (is_raw_match candidate)
  && String.eqb (preprocessor self query_string) (preprocessor self candidate).

Definition is_apple_match (candidate : string) : bool :=
  negb (is_raw_match candidate)
  && negb (String.eqb (preprocessor self query_string) (preprocessor self candidate))
  && special_apple query_string candidate algorithm_name.

(** The entries of one kind, in the order of the candidates. *)
Definition entries (kind : string -> bool) (algorithm_used : string)
           (candidate_strings : list string) : list MatchInfo :=
  map (fun candidate => info self query_string candidate 1 algorithm_used)
      (filter kind candidate_strings).

(** What the first loop appends for one candidate. *)
Definition exact_entry (candidate : string) : list MatchInfo :=
  if is_raw_match candidate
  then [info self query_string candidate 1 "exact_match"]
  else if is_processed_match candidate
  then [info self query_string candidate 1 "exact_processed_match"]
  else if is_apple_match candidate
  then [info self query_string candidate 1 "special_apple_match"]
  else [].

End ExactKinds.

(** What is said of a repository. *)
Section RepositoryShape.
Import InMemoryEntityRepository.
Context {Any : Type}.

(** The normalized primary name and alternate names of a profile. *)
Definition normalized_primary (self : InMemoryEntityRepository.t Any)
           (entity : DomainEntityProfile.t Any) : string :=
  preprocessor self (raw_value (DomainEntityProfile.primary_name entity)).

Definition normalized_alternates (self : InMemoryEntityRepository.t Any)
           (entity : DomainEntityProfile.t Any) : list string :=
  map (fun alt_name => preprocessor self (raw_value alt_name))
      (DomainEntityProfile.alternate_names entity).

(** The identifiers are the keys of a dictionary, so distinct; a profile is
    stored under its own identifier; the indices point to stored profiles
    that carry the indexed name or code. *)
Record consistent (self : InMemoryEntityRepository.t Any) : Prop :=
  { ids_distinct : NoDup (PyDict.keys (_entities_by_id self));
    ids_agree :
      forall id entity,
        PyDict.get (_entities_by_id self) id = Some entity ->
        DomainEntityProfile.entity_id entity = id;
    primary_sound :
      forall name id,
        PyDict.get (_primary_name_to_id self) name = Some id ->
        truthy name = true
        /\ exists entity,
             PyDict.get (_entities_by_id self) id = Some entity
             /\ normalized_primary self entity = name;
    alternate_sound :
      forall name id,
        PyDict.get (_alt_name_to_id self) name = Some id ->
        truthy name = true
        /\ exists entity,
             PyDict.get (_entities_by_id self) id = Some entity
             /\ In name (normalized_alternates self entity);
    phonetic_sound :
      forall code id,
        In id (ids_of (_phonetic_primary_index self) code) ->
        exists entity,
          PyDict.get (_entities_by_id self) id = Some entity
          /\ _get_phonetic_code self (normalized_primary self entity) = Some code }.

(** The repository [save] works on, once the index entries of the profile
    stored under the same identifier are removed. *)
Definition cleaned (self : InMemoryEntityRepository.t Any)
           (entity : DomainEntityProfile.t Any) : InMemoryEntityRepository.t Any :=
  match PyDict.get (_entities_by_id self) (DomainEntityProfile.entity_id entity) with
  | Some existing_entity => _remove_from_indices self existing_entity
  | None => self
  end.

(** The repository after a sequence of calls of [save]. *)
Definition saves (self : InMemoryEntityRepository.t Any)
           (entities : list (DomainEntityProfile.t Any))
  : InMemoryEntityRepository.t Any :=
  fold_left save entities self.

(** How a candidate is related to the normalized query. *)
Definition related_to (self : InMemoryEntityRepository.t Any) (query : string)
           (entity : DomainEntityProfile.t Any) : Prop :=
  normalized_primary self entity = query
  \/ In query (normalized_alternates self entity)
  \/ (query = "apple" /\ prefix "apple " (normalized_primary self entity) = true)
  \/ exists code,
       _get_phonetic_code self query = Some code
       /\ _get_phonetic_code self (normalized_primary self entity) = Some code.

End RepositoryShape.

(** A sample repository: one profile saved in an empty repository. *)
Definition apple_profile : DomainEntityProfile.t string :=
  {| DomainEntityProfile.entity_id := "E100";
     DomainEntityProfile.primary_name := {| raw_value := "Apple Inc." |};
     DomainEntityProfile.alternate_names := [{| raw_value := "Apple Computer" |}];
     DomainEntityProfile.attributes := [("industry", "Technology")];
     DomainEntityProfile.relationships := [] |}.

Definition sample_repository : InMemoryEntityRepository.t string :=
  saves (InMemoryEntityRepository.init Sample.preprocessor None) [apple_profile].

(** [list(s)] listing a set in the order of the model. *)
Definition in_order (s : PySet.t) : list string := s.

End Shapes.

(** * Properties *)

Import Text Entities Algorithms Notions.

(** ** Floats *)

Module FloatFacts.
Local Open Scope Q_scope.

Lemma geb_iff (x y : Q) : Float.geb x y = true <-> y <= x.
Proof. unfold Float.geb. apply Qle_bool_iff. Qed.

Lemma gtb_iff (x y : Q) : Float.gtb x y = true <-> y < x.
Proof.
  unfold Float.gtb. rewrite negb_true_iff. split; intro H.
  - apply Qnot_le_lt. intro L. apply Qle_bool_iff in L. congruence.
  - destruct (Qle_bool x y) eqn:E; [|reflexivity].
    apply Qle_bool_iff in E. exfalso. exact (Qlt_not_le _ _ H E).
Qed.

Lemma gtb_false_iff (x y : Q) : Float.gtb x y = false <-> x <= y.
Proof.
  unfold Float.gtb. rewrite negb_false_iff. apply Qle_bool_iff.
Qed.

End FloatFacts.

(** ** The normalizer run twice *)

Module PreprocessorFacts.
Import Preprocessors.

(** C2.  The hyphen of ["compan-y"] keeps the company-suffix step from seeing
    a word; punctuation removal then joins the two halves into ["company"],
    which a second run of the pipeline rewrites to ["co"].  So the pipeline
    is not idempotent on this input, whatever the transliteration table. *)
Theorem preprocess_twice_differs (table : ascii -> string) :
  preprocess table (PyStr "compan-y") = "company"
  /\ preprocess table (PyStr (preprocess table (PyStr "compan-y"))) = "co".
Proof. split; vm_compute; reflexivity. Qed.

End PreprocessorFacts.

(** ** The Soundex encoder *)

Module SoundexFacts.

Lemma soundex_class_digit (c d : ascii) :
  soundex_class c = Some d -> is_digit d = true.
Proof.
  unfold soundex_class.
  repeat match goal with
         | |- context [if ?b then _ else _] => destruct b
         end; intro H; inversion H; reflexivity.
Qed.

Lemma soundex_digits_length (s : string) :
  forall last room, String.length (soundex_digits last room s) <= room.
Proof.
  induction s as [|c r IH]; intros last room; simpl; [lia|].
  destruct room as [|room']; [simpl; lia|].
  destruct (soundex_class c) as [sub|].
  - destruct (same_class last sub); [apply IH|].
    simpl. specialize (IH (Some sub) room'). lia.
  - destruct (Ascii.eqb c "H" || Ascii.eqb c "W"); apply IH.
Qed.

Lemma soundex_digits_digits (s : string) :
  forall last room, sforall is_digit (soundex_digits last room s) = true.
Proof.
  induction s as [|c r IH]; intros last room; simpl; [reflexivity|].
  destruct room as [|room']; [reflexivity|].
  destruct (soundex_class c) as [sub|] eqn:E.
  - destruct (same_class last sub); [apply IH|].
    simpl. rewrite (soundex_class_digit _ _ E). apply IH.
  - destruct (Ascii.eqb c "H" || Ascii.eqb c "W"); apply IH.
Qed.

Lemma sforall_app (p : ascii -> bool) (s u : string) :
  sforall p (s ++ u) = sforall p s && sforall p u.
Proof.
  induction s as [|c r IH]; simpl; [reflexivity|].
  rewrite IH. apply andb_assoc.
Qed.

Lemma zeros_digits (n : nat) : sforall is_digit (zeros n) = true.
Proof. induction n; simpl; auto. Qed.

Lemma zeros_length (n : nat) : String.length (zeros n) = n.
Proof. induction n; simpl; auto. Qed.

Lemma append_length (s u : string) :
  String.length (s ++ u) = String.length s + String.length u.
Proof. induction s; simpl; auto. Qed.

(** A text of three digits. *)
Lemma three_digits (s : string) :
  String.length s = 3 -> sforall is_digit s = true ->
  exists d1 d2 d3,
    s = String d1 (String d2 (String d3 EmptyString))
    /\ is_digit d1 = true /\ is_digit d2 = true /\ is_digit d3 = true.
Proof.
  destruct s as [|d1 [|d2 [|d3 [|d4 r]]]]; simpl; try discriminate.
  intros _ H.
  apply andb_prop in H as [H1 H]. apply andb_prop in H as [H2 H].
  apply andb_prop in H as [H3 _].
  exists d1, d2, d3. auto.
Qed.

Lemma soundex_shape (first : ascii) (rest : string) :
  exists d1 d2 d3,
    soundex (String first rest)
    = String (upper_char first) (String d1 (String d2 (String d3 EmptyString)))
    /\ is_digit d1 = true /\ is_digit d2 = true /\ is_digit d3 = true.
Proof.
  unfold soundex. simpl.
  set (digits := soundex_digits (soundex_class (upper_char first)) 3
                                (smap upper_char rest)).
  pose proof (soundex_digits_length (smap upper_char rest)
                (soundex_class (upper_char first)) 3) as L.
  pose proof (soundex_digits_digits (smap upper_char rest)
                (soundex_class (upper_char first)) 3) as D.
  fold digits in L, D.
  destruct (three_digits (digits ++ zeros (3 - String.length digits)))
    as (d1 & d2 & d3 & E & H1 & H2 & H3).
  - rewrite append_length, zeros_length. lia.
  - rewrite sforall_app, D, zeros_digits. reflexivity.
  - exists d1, d2, d3.
    change (String (upper_char first) (digits ++ zeros (3 - String.length digits))
            = String (upper_char first) (String d1 (String d2 (String d3 EmptyString)))
            /\ is_digit d1 = true /\ is_digit d2 = true /\ is_digit d3 = true).
    rewrite E. auto.
Qed.

(** An ASCII letter in upper case is one of the letters [A] to [Z]. *)
Lemma upper_char_letter (c : ascii) :
  is_upper c || is_lower c = true -> is_upper (upper_char c) = true.
Proof.
  destruct c as [[] [] [] [] [] [] [] []];
    intro H; try reflexivity; vm_compute in H; discriminate.
Qed.

(** C4, as the code has it.  The encoder returns the empty text for the empty
    text; ["K365"] for a text that is ["catherine"] or ["katherine"] up to
    letter case; and for any other ASCII text that begins with a letter, four
    characters: that first letter in upper case, a letter from [A] to [Z],
    then three digits. *)
Theorem soundex_encode_shape (text : string) :
  match text with
  | EmptyString => soundex_encode text = EmptyString
  | String first _ =>
      if in_list (lower text) ["catherine"; "katherine"]
      then soundex_encode text = "K365"
      else sforall Shapes.is_ascii text = true ->
           is_upper first || is_lower first = true ->
           exists d1 d2 d3,
             soundex_encode text
             = String (upper_char first)
                      (String d1 (String d2 (String d3 EmptyString)))
             /\ is_upper (upper_char first) = true
             /\ is_digit d1 = true /\ is_digit d2 = true /\ is_digit d3 = true
  end.
Proof.
  destruct text as [|first rest]; [reflexivity|].
  unfold soundex_encode.
  change (truthy (String first rest)) with true. cbn [negb].
  destruct (in_list (lower (String first rest)) ["catherine"; "katherine"]).
  - reflexivity.
  - intros _ L.
    destruct (soundex_shape first rest) as (d1 & d2 & d3 & E & H1 & H2 & H3).
    exists d1, d2, d3. rewrite E.
    split; [reflexivity|]. split; [now apply upper_char_letter|]. auto.
Qed.

(** On ["Robert"], an ASCII text that begins with a letter, the code is [R]
    and three digits. *)
Lemma soundex_encode_shape_witness :
  sforall Shapes.is_ascii "Robert" = true
  /\ is_upper "R" || is_lower "R" = true
  /\ exists d1 d2 d3,
      soundex_encode "Robert"
      = String "R" (String d1 (String d2 (String d3 EmptyString)))
      /\ is_upper "R" = true
      /\ is_digit d1 = true /\ is_digit d2 = true /\ is_digit d3 = true.
Proof.
  split; [reflexivity|]. split; [reflexivity|].
  apply (soundex_encode_shape "Robert"); reflexivity.
Defined.

(** C4 as stated fails on ["catherine"]: the code starts with [K], the first
    letter of the text in upper case is [C]. *)
Lemma soundex_encode_catherine :
  soundex_encode "catherine" = "K365"
  /\ upper "catherine" = "CATHERINE"
  /\ Re.head (soundex_encode "catherine") <> Re.head (upper "catherine").
Proof.
  repeat split; try (vm_compute; reflexivity).
  vm_compute. discriminate.
Qed.

End SoundexFacts.

(** ** The weighted ratio *)

Module WeightedRatioFacts.
Local Open Scope Q_scope.

(** C5, as the code has it.  On two non-empty texts the algorithm returns the
    reference weighted ratio, except on the pair made of
    ["The quick brown fox jumps over the lazy dog"] and ["The brown fox"], in
    either order, for which it returns 0.85. *)
Theorem weighted_ratio_refines_reference (ext : Externals) (s1 s2 : string) :
  truthy s1 = true -> truthy s2 = true ->
  MatchingAlgorithm.calculate_similarity (WeightedRatioAlgorithm ext) s1 s2
  = if (String.eqb s1 "The quick brown fox jumps over the lazy dog"
        && String.eqb s2 "The brown fox")
       || (String.eqb s2 "The quick brown fox jumps over the lazy dog"
           && String.eqb s1 "The brown fox")
    then 85#100
    else reference_weighted_ratio ext s1 s2.
Proof.
  intros H1 H2. cbn [MatchingAlgorithm.calculate_similarity WeightedRatioAlgorithm].
  unfold weighted_ratio_similarity, reference_weighted_ratio,
    quick_brown_fox, the_brown_fox.
  rewrite H1, H2. reflexivity.
Qed.

Lemma weighted_ratio_refines_reference_witness :
  MatchingAlgorithm.calculate_similarity
    (WeightedRatioAlgorithm Sample.externals) "Apple Inc" "Aple Inc"
  = reference_weighted_ratio Sample.externals "Apple Inc" "Aple Inc".
Proof.
  exact (weighted_ratio_refines_reference Sample.externals
           "Apple Inc" "Aple Inc" eq_refl eq_refl).
Defined.

(** C5 as stated fails: on the special pair the algorithm returns 0.85 whatever
    [WRatio] returns, while the reference follows [WRatio]. *)
Lemma weighted_ratio_special_pair :
  (forall ext,
      MatchingAlgorithm.calculate_similarity (WeightedRatioAlgorithm ext)
        "The quick brown fox jumps over the lazy dog" "The brown fox" = 85#100)
  /\ (exists ext,
         ~ reference_weighted_ratio ext
             "The quick brown fox jumps over the lazy dog" "The brown fox"
           == 85#100).
Proof.
  split.
  - intro ext. reflexivity.
  - exists Sample.externals. vm_compute. discriminate.
Qed.

End WeightedRatioFacts.

(** ** Lists, dictionaries and sorting *)

Module ListFacts.

Lemma fold_left_collect {A B : Type} (p : A -> bool) (f : A -> B)
      (l : list A) (acc : list B) :
  fold_left (fun matches x => if p x then (matches ++ [f x])%list else matches) l acc
  = (acc ++ map f (filter p l))%list.
Proof.
  revert acc. induction l as [|x l IH]; intro acc; simpl.
  - now rewrite app_nil_r.
  - rewrite IH. destruct (p x); simpl; [|reflexivity].
    now rewrite <- app_assoc.
Qed.

Lemma StronglySorted_filter {A : Type} (R : A -> A -> Prop) (p : A -> bool)
      (l : list A) :
  StronglySorted R l -> StronglySorted R (filter p l).
Proof.
  induction 1 as [|x l S IH F]; simpl; [constructor|].
  destruct (p x); [|exact IH].
  constructor; [exact IH|].
  rewrite Forall_forall in *. intros y Hy.
  apply filter_In in Hy as [Hy _]. auto.
Qed.

Lemma StronglySorted_firstn {A : Type} (R : A -> A -> Prop) (n : nat)
      (l : list A) :
  StronglySorted R l -> StronglySorted R (firstn n l).
Proof.
  intro S. revert n. induction S as [|x l S IH F]; intro n.
  - rewrite firstn_nil. constructor.
  - destruct n as [|n]; simpl; constructor; [apply IH|].
    rewrite Forall_forall in *. intros y Hy.
    apply F. revert Hy. clear. revert n.
    induction l as [|z l IHl]; intros n Hy.
    + now rewrite firstn_nil in Hy.
    + destruct n; simpl in Hy; [contradiction|].
      destruct Hy as [->|Hy]; [now left|right; eauto].
Qed.

Lemma StronglySorted_snoc {A : Type} (R : A -> A -> Prop) (l : list A) (a : A) :
  StronglySorted R l -> Forall (fun x => R x a) l -> StronglySorted R (l ++ [a]).
Proof.
  induction 1 as [|x l S IH F]; intro H; simpl.
  - repeat constructor.
  - inversion H as [|? ? Hx Hl]; subst.
    constructor; [auto|].
    apply Forall_app. split; [exact F|]. constructor; [exact Hx|constructor].
Qed.

Lemma StronglySorted_weaken {A : Type} (R R' : A -> A -> Prop) (l : list A) :
  (forall x y, In x l -> In y l -> R x y -> R' x y) ->
  StronglySorted R l -> StronglySorted R' l.
Proof.
  intros H S. induction S as [|x l S IH F]; constructor.
  - apply IH. intros; apply H; simpl; auto.
  - rewrite Forall_forall in *. intros y Hy.
    apply H; simpl; auto.
Qed.

Lemma StronglySorted_map {A B : Type} (R : B -> B -> Prop) (f : A -> B)
      (l : list A) :
  StronglySorted (fun x y => R (f x) (f y)) l -> StronglySorted R (map f l).
Proof.
  induction 1 as [|x l S IH F]; simpl; constructor; [exact IH|].
  rewrite Forall_forall in *. intros y Hy.
  apply in_map_iff in Hy as (z & <- & Hz). auto.
Qed.

Lemma NoDup_firstn {A : Type} (n : nat) (l : list A) :
  NoDup l -> NoDup (firstn n l).
Proof.
  intro H. revert n. induction H as [|x l Hx H IH]; intro n.
  - rewrite firstn_nil. constructor.
  - destruct n; simpl; constructor; [|apply IH].
    intro Hin. apply Hx. revert Hin. clear. revert n.
    induction l as [|z l IHl]; intros n Hy.
    + now rewrite firstn_nil in Hy.
    + destruct n; simpl in Hy; [contradiction|].
      destruct Hy as [->|Hy]; [now left|right; eauto].
Qed.

Lemma first_index_app_in (k : string) (l l' : list string) :
  In k l -> first_index k (l ++ l') = first_index k l.
Proof.
  induction l as [|x l IH]; simpl; [contradiction|].
  intros [->|H].
  - now rewrite String.eqb_refl.
  - destruct (String.eqb x k); [reflexivity|]. now rewrite IH.
Qed.

Lemma first_index_lt (k : string) (l : list string) :
  In k l -> first_index k l < List.length l.
Proof.
  induction l as [|x l IH]; simpl; [contradiction|].
  intros [->|H].
  - rewrite String.eqb_refl. lia.
  - destruct (String.eqb x k); [lia|]. specialize (IH H). lia.
Qed.

Lemma first_index_app_new (k : string) (l l' : list string) :
  ~ In k l -> first_index k (l ++ k :: l') = List.length l.
Proof.
  induction l as [|x l IH]; simpl; intro H.
  - now rewrite String.eqb_refl.
  - destruct (String.eqb x k) eqn:E.
    + apply String.eqb_eq in E. exfalso. auto.
    + rewrite IH; auto.
Qed.

End ListFacts.

Module PyDictFacts.
Section Dict.
Context {V : Type}.
Implicit Types (d : PyDict.t V) (k : string) (v : V).

Lemma get_set_same d k v : PyDict.get (PyDict.set d k v) k = Some v.
Proof.
  induction d as [|[k' v'] d IH]; simpl.
  - now rewrite String.eqb_refl.
  - destruct (String.eqb k' k) eqn:E; simpl; rewrite E; auto.
Qed.

Lemma get_set_other d k k' v :
  k' <> k -> PyDict.get (PyDict.set d k v) k' = PyDict.get d k'.
Proof.
  intro N. induction d as [|[k0 v0] d IH]; simpl.
  - destruct (String.eqb k k') eqn:E; [|reflexivity].
    apply String.eqb_eq in E. congruence.
  - destruct (String.eqb k0 k) eqn:E; simpl.
    + apply String.eqb_eq in E. subst k0.
      destruct (String.eqb k k') eqn:E'; [|reflexivity].
      apply String.eqb_eq in E'. congruence.
    + now rewrite IH.
Qed.

Lemma mem_keys d k : PyDict.mem d k = true <-> In k (PyDict.keys d).
Proof.
  unfold PyDict.mem, PyDict.keys.
  induction d as [|[k' v'] d IH]; simpl.
  - split; [discriminate|contradiction].
  - destruct (String.eqb k' k) eqn:E.
    + apply String.eqb_eq in E. split; auto.
    + rewrite IH. apply String.eqb_neq in E. split; [auto|].
      intros [H|H]; [congruence|auto].
Qed.

Lemma get_some_keys d k v : PyDict.get d k = Some v -> In k (PyDict.keys d).
Proof.
  intro H. apply mem_keys. unfold PyDict.mem. now rewrite H.
Qed.

Lemma keys_get d k : In k (PyDict.keys d) -> exists v, PyDict.get d k = Some v.
Proof.
  intro H. apply mem_keys in H. unfold PyDict.mem in H.
  destruct (PyDict.get d k) as [v|]; [eauto|discriminate].
Qed.

Lemma keys_set d k v :
  PyDict.keys (PyDict.set d k v)
  = if PyDict.mem d k then PyDict.keys d else (PyDict.keys d ++ [k])%list.
Proof.
  unfold PyDict.mem, PyDict.keys.
  induction d as [|[k' v'] d IH]; simpl; [reflexivity|].
  destruct (String.eqb k' k) eqn:E; simpl; [reflexivity|].
  rewrite IH. destruct (PyDict.get d k); reflexivity.
Qed.

Lemma comprehension_snoc {A : Type} (key : A -> string) (value : A -> V)
      (l : list A) (a : A) :
  PyDict.comprehension key value (l ++ [a])
  = PyDict.set (PyDict.comprehension key value l) (key a) (value a).
Proof. unfold PyDict.comprehension. now rewrite fold_left_app. Qed.

(** A key of a comprehension holds the value of the last element with that
    key. *)
Lemma get_comprehension {A : Type} (key : A -> string) (value : A -> V)
      (l : list A) k :
  PyDict.get (PyDict.comprehension key value l) k
  = option_map value (find (fun x => String.eqb (key x) k) (rev l)).
Proof.
  induction l as [|a l IH] using rev_ind; [reflexivity|].
  rewrite comprehension_snoc, rev_app_distr. simpl.
  destruct (String.eqb (key a) k) eqn:E.
  - apply String.eqb_eq in E. subst k. now rewrite get_set_same.
  - apply String.eqb_neq in E. rewrite get_set_other by congruence. exact IH.
Qed.

Lemma keys_comprehension_in {A : Type} (key : A -> string) (value : A -> V)
      (l : list A) k :
  In k (PyDict.keys (PyDict.comprehension key value l)) <-> In k (map key l).
Proof.
  revert k. induction l as [|a l IH] using rev_ind; intro k; [reflexivity|].
  rewrite comprehension_snoc, keys_set, map_app, in_app_iff. simpl.
  destruct (PyDict.mem (PyDict.comprehension key value l) (key a)) eqn:M.
  - apply mem_keys in M. apply IH in M. rewrite IH. split; [auto|].
    intros [H|[<-|[]]]; auto.
  - rewrite in_app_iff, IH. simpl. reflexivity.
Qed.

Lemma keys_comprehension_NoDup {A : Type} (key : A -> string) (value : A -> V)
      (l : list A) :
  NoDup (PyDict.keys (PyDict.comprehension key value l)).
Proof.
  induction l as [|a l IH] using rev_ind; [constructor|].
  rewrite comprehension_snoc, keys_set.
  destruct (PyDict.mem (PyDict.comprehension key value l) (key a)) eqn:M; [exact IH|].
  apply NoDup_app; repeat split; auto.
  - repeat constructor. intros [].
  - intros x Hx [<-|[]]. apply mem_keys in Hx. congruence.
Qed.

(** The keys of a comprehension come in the order of their first
    occurrence. *)
Lemma keys_comprehension_order {A : Type} (key : A -> string) (value : A -> V)
      (l : list A) :
  StronglySorted
    (fun k1 k2 => first_index k1 (map key l)
                  < first_index k2 (map key l))
    (PyDict.keys (PyDict.comprehension key value l)).
Proof.
  induction l as [|a l IH] using rev_ind; [constructor|].
  rewrite comprehension_snoc, keys_set, map_app. simpl.
  assert (W : StronglySorted
                (fun k1 k2 =>
                   first_index k1 (map key l ++ [key a])
                   < first_index k2 (map key l ++ [key a]))
                (PyDict.keys (PyDict.comprehension key value l))).
  { eapply ListFacts.StronglySorted_weaken; [|exact IH].
    intros x y Hx Hy. apply keys_comprehension_in in Hx, Hy.
    now rewrite !ListFacts.first_index_app_in by assumption. }
  destruct (PyDict.mem (PyDict.comprehension key value l) (key a)) eqn:M; [exact W|].
  apply ListFacts.StronglySorted_snoc; [exact W|].
  apply Forall_forall. intros x Hx. apply keys_comprehension_in in Hx.
  rewrite ListFacts.first_index_app_in by assumption.
  rewrite ListFacts.first_index_app_new.
  - now apply ListFacts.first_index_lt.
  - intro H. apply (keys_comprehension_in key value) in H.
    apply mem_keys in H. congruence.
Qed.

End Dict.
End PyDictFacts.

Module SortingFacts.
Local Open Scope Q_scope.

Section AnyOrder.
Context {A : Type} (lt : A -> A -> bool).

Lemma insert_perm (x : A) (l : list A) :
  Permutation (Sorting.insert lt x l) (x :: l).
Proof.
  induction l as [|y l IH]; simpl; [reflexivity|].
  destruct (lt y x); [|reflexivity].
  rewrite IH. apply perm_swap.
Qed.

Lemma sorted_perm (l : list A) : Permutation (Sorting.sorted lt l) l.
Proof.
  induction l as [|x l IH]; simpl; [reflexivity|].
  rewrite insert_perm. now constructor.
Qed.

Lemma sorted_in (l : list A) (x : A) : In x (Sorting.sorted lt l) <-> In x l.
Proof.
  split; apply Permutation_in; [|symmetry]; apply sorted_perm.
Qed.

Lemma sorted_length (l : list A) : List.length (Sorting.sorted lt l) = List.length l.
Proof. apply Permutation_length, sorted_perm. Qed.

(** A list in which no element is smaller than one before it is left as it
    is. *)
Lemma sorted_unchanged (l : list A) :
  StronglySorted (fun a b => lt b a = false) l -> Sorting.sorted lt l = l.
Proof.
  induction 1 as [|x l S IH F]; simpl; [reflexivity|].
  rewrite IH. destruct l as [|y r]; [reflexivity|].
  inversion F as [|? ? Hy _]; subst. simpl. now rewrite Hy.
Qed.

End AnyOrder.

Section ByScore.
Context {A : Type} (f : A -> Q) (T : A -> A -> Prop).

Let lt (a b : A) : bool := Float.gtb (f a) (f b).

Lemma ranked_of_le (a b : A) : f b <= f a -> T a b -> ranked f T a b.
Proof.
  intros L HT. apply Qle_lt_or_eq in L as [L|E]; [now left|right].
  split; [now symmetry|exact HT].
Qed.

Lemma insert_ranked (x : A) (l : list A) :
  StronglySorted (ranked f T) l -> Forall (T x) l ->
  StronglySorted (ranked f T) (Sorting.insert lt x l).
Proof.
  induction 1 as [|y r S IH F]; intro HT; simpl.
  - repeat constructor.
  - inversion HT as [|? ? Txy Tr]; subst.
    unfold lt at 1. destruct (Float.gtb (f y) (f x)) eqn:G.
    + apply FloatFacts.gtb_iff in G.
      constructor; [now apply IH|].
      eapply Permutation_Forall; [symmetry; apply insert_perm|].
      constructor; [now left|exact F].
    + apply FloatFacts.gtb_false_iff in G.
      constructor; [now constructor|].
      constructor; [now apply ranked_of_le|].
      rewrite Forall_forall in *. intros z Hz.
      apply ranked_of_le; [|now apply Tr].
      destruct (F z Hz) as [L|[E _]].
      * apply Qlt_le_weak. eapply Qlt_le_trans; eassumption.
      * rewrite <- E. exact G.
Qed.

(** The sort is stable: it ranks by score and leaves elements of equal score
    in the order they had. *)
Lemma sorted_ranked (l : list A) :
  StronglySorted T l -> StronglySorted (ranked f T) (Sorting.sorted lt l).
Proof.
  induction 1 as [|x l S IH F]; simpl; [constructor|].
  apply insert_ranked; [exact IH|].
  eapply Permutation_Forall; [symmetry; apply sorted_perm|exact F].
Qed.

Lemma ranked_unchanged (l : list A) :
  StronglySorted (ranked f T) l -> Sorting.sorted lt l = l.
Proof.
  intro S. apply sorted_unchanged.
  eapply ListFacts.StronglySorted_weaken; [|exact S].
  intros a b _ _ R. apply FloatFacts.gtb_false_iff.
  destruct R as [L|[E _]]; [now apply Qlt_le_weak|].
  rewrite E. apply Qle_refl.
Qed.

End ByScore.
End SortingFacts.

(** ** The resolver *)

Module ResolverFacts.
Import EntityResolverService.
Local Open Scope Q_scope.

Section Facts.
Variable self : t.

Lemma ibm_matches_eq (cs : list DomainEntityName) :
  ibm_matches self cs = map (exact_candidate self) (filter ibm_candidate cs).
Proof. unfold ibm_matches. now rewrite ListFacts.fold_left_collect. Qed.

Lemma scan_candidates_eq (q : DomainEntityName) (cs : list DomainEntityName) :
  scan_candidates self q (normalized self q) cs
  = (map (exact_candidate self) (filter (scan_test self q) cs),
     map (processed_pair self) (filter (fun c => truthy (normalized self c)) cs)).
Proof.
  unfold scan_candidates.
  match goal with |- fold_left ?f _ _ = _ => set (step := f) end.
  assert (G : forall l e m,
             fold_left step l (e, m)
             = ((e ++ map (exact_candidate self) (filter (scan_test self q) l))%list,
                (m ++ map (processed_pair self)
                        (filter (fun c => truthy (normalized self c)) l))%list)).
  { induction l as [|c l IH]; intros e m; simpl.
    - now rewrite !app_nil_r.
    - unfold step at 2. unfold scan_test at 1, exact_condition at 1.
      fold (normalized self c).
      destruct (truthy (normalized self c)); simpl; [|apply IH].
      rewrite IH.
      destruct (String.eqb (raw_value q) (raw_value c)
                || String.eqb (normalized self q) (normalized self c)); simpl.
      + now rewrite <- !app_assoc.
      + destruct (String.eqb (raw_value q) "IBM" || false); simpl.
        * destruct (String.eqb (raw_value c) "IBM"
                    || (String.eqb (raw_value c) "IBM Corporation" || false));
            simpl; now rewrite <- ?app_assoc.
        * now rewrite <- !app_assoc. }
  apply G.
Qed.

Lemma all_pairs_sorted {A : Type} (R : A -> A -> Prop) (l : list A) :
  (forall a b, In a l -> In b l -> R a b) -> StronglySorted R l.
Proof.
  induction l as [|x l IH]; intro H; constructor.
  - apply IH. intros; apply H; simpl; auto.
  - apply Forall_forall. intros y Hy. apply H; simpl; auto.
Qed.

(** Sorting candidates that all have the score 1 leaves them in place. *)
Lemma sorted_exact (l : list DomainEntityName) :
  Sorting.sorted lt (map (exact_candidate self) l) = map (exact_candidate self) l.
Proof.
  apply SortingFacts.sorted_unchanged, all_pairs_sorted.
  intros a b Ha Hb.
  apply in_map_iff in Ha as (ca & <- & _).
  apply in_map_iff in Hb as (cb & <- & _).
  reflexivity.
Qed.

Lemma filter_nil_existsb {A : Type} (p : A -> bool) (l : list A) :
  existsb p l = false -> filter p l = [].
Proof.
  induction l as [|x l IH]; simpl; [reflexivity|].
  destruct (p x); simpl; [discriminate|exact IH].
Qed.

Lemma filter_cons_existsb {A : Type} (p : A -> bool) (l : list A) :
  existsb p l = true -> exists x r, filter p l = x :: r.
Proof.
  induction l as [|x l IH]; simpl; [discriminate|].
  destruct (p x); simpl; eauto.
Qed.

(** With a query that normalizes to something, and off the abbreviation
    return, the test of the main loop is the exact-match condition. *)
Lemma scan_test_exact (q : DomainEntityName) (cs : list DomainEntityName) :
  truthy (normalized self q) = true ->
  String.eqb (raw_value q) "IBM" && existsb ibm_candidate cs = false ->
  forall c, In c cs -> scan_test self q c = exact_condition self q c.
Proof.
  intros Hq Hibm c Hc. unfold scan_test.
  assert (A : in_list (raw_value q) ["IBM"]
              && in_list (raw_value c) ["IBM"; "IBM Corporation"] = false).
  { simpl. rewrite !orb_false_r.
    destruct (String.eqb (raw_value q) "IBM") eqn:E; [|reflexivity].
    simpl in Hibm |- *.
    destruct (String.eqb (raw_value c) "IBM"
              || String.eqb (raw_value c) "IBM Corporation") eqn:I; [|reflexivity].
    assert (X : existsb ibm_candidate cs = true)
      by (apply existsb_exists; exists c; split; [exact Hc|exact I]).
    congruence. }
  rewrite A, orb_false_r.
  destruct (exact_condition self q c) eqn:E; [|apply andb_false_r].
  rewrite andb_true_r. unfold exact_condition in E.
  apply orb_prop in E as [E|E]; apply String.eqb_eq in E.
  - unfold normalized in *. now rewrite <- E.
  - now rewrite <- E.
Qed.

(** The two exact-match returns of [resolve]. *)
Lemma resolve_abbreviation (q : DomainEntityName) (cs : list DomainEntityName) :
  truthy (normalized self q) = true ->
  String.eqb (raw_value q) "IBM" && existsb ibm_candidate cs = true ->
  resolve self q cs
  = Returned AbbreviationMatches (map (exact_candidate self) (filter ibm_candidate cs)).
Proof.
  intros Hq H. apply andb_prop in H as [E X].
  unfold resolve. fold (normalized self q). rewrite Hq, E, ibm_matches_eq. cbn [negb].
  destruct (filter_cons_existsb _ _ X) as (x & r & F).
  rewrite F. cbn [map].
  change (exact_candidate self x :: map (exact_candidate self) r)
    with (map (exact_candidate self) (x :: r)).
  now rewrite sorted_exact.
Qed.

Lemma resolve_exact (q : DomainEntityName) (cs : list DomainEntityName) :
  truthy (normalized self q) = true ->
  String.eqb (raw_value q) "IBM" && existsb ibm_candidate cs = false ->
  existsb (exact_condition self q) cs = true ->
  resolve self q cs
  = Returned ExactMatches (map (exact_candidate self) (filter (exact_condition self q) cs)).
Proof.
  intros Hq Hibm X.
  unfold resolve. fold (normalized self q). rewrite Hq. cbn [negb].
  assert (I : (if String.eqb (raw_value q) "IBM" then ibm_matches self cs else [])
              = []).
  { destruct (String.eqb (raw_value q) "IBM"); [|reflexivity].
    rewrite ibm_matches_eq, filter_nil_existsb; [reflexivity|exact Hibm]. }
  rewrite I, scan_candidates_eq. cbn [fst snd].
  rewrite (filter_ext_in _ _ _ (scan_test_exact q cs Hq Hibm)).
  destruct (filter_cons_existsb _ _ X) as (x & r & F).
  rewrite F. cbn [map].
  change (exact_candidate self x :: map (exact_candidate self) r)
    with (map (exact_candidate self) (x :: r)).
  now rewrite sorted_exact.
Qed.

End Facts.
End ResolverFacts.

Module ThefuzzFacts.
Local Open Scope Q_scope.

Section Extract.
Variables (scorer : string -> string -> Q) (query : string) (limit : nat).

Lemma in_firstn {A : Type} (n : nat) (l : list A) (x : A) :
  In x (firstn n l) -> In x l.
Proof.
  revert n. induction l as [|y l IH]; intros n H.
  - now rewrite firstn_nil in H.
  - destruct n; simpl in H; [contradiction|].
    destruct H as [->|H]; [now left|right; eauto].
Qed.

(** A returned pair is a choice with its score. *)
Lemma extract_in (choices : list string) (item : string * Q) :
  In item (Thefuzz.extract scorer query choices limit) ->
  In (fst item) choices /\ snd item = scorer query (fst item).
Proof.
  unfold Thefuzz.extract. intro H.
  apply in_firstn, SortingFacts.sorted_in, filter_In in H as [H _].
  apply in_map_iff in H as (c & <- & Hc). auto.
Qed.

Lemma extract_length (choices : list string) :
  (List.length (Thefuzz.extract scorer query choices limit) <= limit)%nat.
Proof. apply firstn_le_length. Qed.

Lemma extract_NoDup (choices : list string) :
  NoDup choices ->
  NoDup (map fst (Thefuzz.extract scorer query choices limit)).
Proof.
  intro H. unfold Thefuzz.extract.
  rewrite <- firstn_map. apply ListFacts.NoDup_firstn.
  eapply Permutation_NoDup.
  - apply Permutation_map. symmetry. apply SortingFacts.sorted_perm.
  - rewrite filter_map_swap, map_map. simpl. rewrite map_id.
    now apply NoDup_filter.
Qed.

(** The returned pairs are ranked by score, pairs of equal score in the order
    of the choices. *)
Lemma extract_ranked (T : string -> string -> Prop) (choices : list string) :
  StronglySorted T choices ->
  StronglySorted (ranked snd (fun a b => T (fst a) (fst b)))
                 (Thefuzz.extract scorer query choices limit).
Proof.
  intro H. unfold Thefuzz.extract.
  apply ListFacts.StronglySorted_firstn.
  apply (SortingFacts.sorted_ranked snd (fun a b => T (fst a) (fst b))).
  apply ListFacts.StronglySorted_filter.
  apply ListFacts.StronglySorted_map. exact H.
Qed.

End Extract.
End ThefuzzFacts.

Module RankingFacts.
Import EntityResolverService ResolverFacts.
Local Open Scope Q_scope.

Lemma div100_lt (x y : Q) : x < y -> x / 100 < y / 100.
Proof. intro H. unfold Qdiv. apply Qmult_lt_compat_r; [reflexivity|exact H]. Qed.

Lemma first_index_filter (p : string -> bool) (k1 k2 : string) (l : list string) :
  p k1 = true -> p k2 = true ->
  (first_index k1 (filter p l) < first_index k2 (filter p l))%nat ->
  (first_index k1 l < first_index k2 l)%nat.
Proof.
  intros P1 P2. induction l as [|x l IH]; simpl; [lia|].
  destruct (String.eqb x k1) eqn:E1.
  - apply String.eqb_eq in E1. subst x. rewrite P1. simpl.
    rewrite String.eqb_refl. destruct (String.eqb k1 k2); lia.
  - destruct (String.eqb x k2) eqn:E2.
    + apply String.eqb_eq in E2. subst x. rewrite P2. simpl.
      rewrite String.eqb_refl. lia.
    + destruct (p x); simpl; [rewrite E1, E2|]; intro H;
        assert (H' : (first_index k1 (filter p l)
                      < first_index k2 (filter p l))%nat) by lia;
        apply IH in H'; lia.
Qed.

Lemma find_pointwise {A : Type} (f g : A -> bool) (l : list A) :
  (forall x, f x = g x) -> find f l = find g l.
Proof.
  intro H. induction l as [|x l IH]; simpl; [reflexivity|].
  rewrite H, IH. reflexivity.
Qed.

Lemma find_map_filter {A B : Type} (f : A -> B) (p : A -> bool) (q : B -> bool)
      (l : list A) :
  find q (map f (filter p l)) = option_map f (find (fun x => p x && q (f x)) l).
Proof.
  induction l as [|x l IH]; simpl; [reflexivity|].
  destruct (p x); simpl; [|exact IH].
  destruct (q (f x)); [reflexivity|exact IH].
Qed.

Section Facts.
Variable self : t.

Lemma kept_keys (cs : list DomainEntityName) :
  map (fun item => processed_value (snd item)) (kept_candidates self cs)
  = filter truthy (map (normalized self) cs).
Proof.
  unfold kept_candidates. rewrite map_map. simpl.
  now rewrite filter_map_swap.
Qed.

Lemma lookup_keys_truthy (cs : list DomainEntityName) (k : string) :
  In k (PyDict.keys (lookup_map self cs)) -> truthy k = true.
Proof.
  intro H. apply PyDictFacts.keys_comprehension_in in H.
  rewrite kept_keys in H. now apply filter_In in H.
Qed.

Lemma lookup_keys_order (cs : list DomainEntityName) :
  StronglySorted (earlier self cs) (PyDict.keys (lookup_map self cs)).
Proof.
  eapply ListFacts.StronglySorted_weaken;
    [|apply PyDictFacts.keys_comprehension_order].
  intros x y Hx Hy. rewrite kept_keys.
  apply first_index_filter; eapply lookup_keys_truthy; eassumption.
Qed.

(** A key of the map holds the last candidate with that normalized string. *)
Lemma lookup_get (cs : list DomainEntityName) (k : string) :
  truthy k = true ->
  PyDict.get (lookup_map self cs) k
  = option_map (processed_pair self)
      (find (fun c => String.eqb (normalized self c) k) (rev cs)).
Proof.
  intro Hk. unfold lookup_map. rewrite PyDictFacts.get_comprehension.
  unfold kept_candidates. rewrite <- map_rev, <- filter_rev, find_map_filter.
  rewrite (find_pointwise _ (fun c => String.eqb (normalized self c) k)).
  - now destruct (find _ (rev cs)).
  - intro c. simpl.
    destruct (String.eqb (normalized self c) k) eqn:E; [|apply andb_false_r].
    apply String.eqb_eq in E. now rewrite E, Hk.
Qed.

Lemma lookup_value_key (cs : list DomainEntityName) (k : string)
      (found : DomainEntityName * DomainProcessedName) :
  PyDict.get (lookup_map self cs) k = Some found ->
  processed_value (snd found) = k.
Proof.
  unfold lookup_map. rewrite PyDictFacts.get_comprehension.
  destruct (find _ _) as [x|] eqn:E; simpl; [|discriminate].
  intro H. inversion H; subst x.
  apply find_some in E as [_ E]. now apply String.eqb_eq in E.
Qed.

Section Collect.
Variable lm : PyDict.t (DomainEntityName * DomainProcessedName).

Lemma collect_results_some (B : list (string * Q)) :
  (forall item, In item B -> In (fst item) (PyDict.keys lm)) ->
  exists results, collect_results self lm B = Some results.
Proof.
  induction B as [|[k s] B IH]; intro H; simpl; [eauto|].
  destruct IH as [results E]; [intros; apply H; now right|].
  rewrite E.
  destruct (Float.geb (s / 100) (threshold self)); [|eauto].
  destruct (PyDictFacts.keys_get lm k) as [found G]; [apply (H (k, s)); now left|].
  rewrite G. simpl. eauto.
Qed.

Lemma collect_results_in (B : list (string * Q)) :
  forall results, collect_results self lm B = Some results ->
  forall r, In r results ->
  exists k s found,
    In (k, s) B /\ PyDict.get lm k = Some found /\ r = result_of found s
    /\ Float.geb (s / 100) (threshold self) = true.
Proof.
  induction B as [|[k s] B IH]; simpl; intros results E r Hr.
  - inversion E; subst. contradiction.
  - destruct (Float.geb (s / 100) (threshold self)) eqn:G.
    + destruct (PyDict.get lm k) as [found|] eqn:F; simpl in E; [|discriminate].
      destruct (collect_results self lm B) as [rest|] eqn:R; simpl in E;
        [|discriminate].
      inversion E; subst results. destruct Hr as [<-|Hr].
      * exists k, s, found. auto.
      * destruct (IH rest eq_refl r Hr) as (k' & s' & f' & I & X).
        exists k', s', f'. auto.
    + destruct (IH results E r Hr) as (k' & s' & f' & I & X).
      exists k', s', f'. auto.
Qed.

Lemma collect_results_length (B : list (string * Q)) :
  forall results, collect_results self lm B = Some results ->
  (List.length results <= List.length B)%nat.
Proof.
  induction B as [|[k s] B IH]; simpl; intros results E.
  - inversion E. simpl. lia.
  - destruct (Float.geb (s / 100) (threshold self)).
    + destruct (PyDict.get lm k) as [found|]; simpl in E; [|discriminate].
      destruct (collect_results self lm B) as [rest|]; simpl in E; [|discriminate].
      inversion E. simpl. specialize (IH rest eq_refl). lia.
    + specialize (IH results E). lia.
Qed.

Hypothesis lm_keys :
  forall k found, PyDict.get lm k = Some found -> processed_value (snd found) = k.

Lemma collect_results_ranked (T : string -> string -> Prop) (B : list (string * Q)) :
  StronglySorted (ranked snd (fun a b => T (fst a) (fst b))) B ->
  forall results, collect_results self lm B = Some results ->
  StronglySorted (ranked score (fun a b => T (key a) (key b))) results.
Proof.
  induction 1 as [|[k s] B S IH F]; simpl; intros results E.
  - inversion E. constructor.
  - destruct (Float.geb (s / 100) (threshold self)); [|now apply IH].
    destruct (PyDict.get lm k) as [found|] eqn:G; simpl in E; [|discriminate].
    destruct (collect_results self lm B) as [rest|] eqn:R; simpl in E;
      [|discriminate].
    inversion E; subst results. constructor; [now apply IH|].
    apply Forall_forall. intros r Hr.
    destruct (collect_results_in B rest R r Hr) as (k' & s' & f' & I & G' & -> & _).
    rewrite Forall_forall in F. specialize (F (k', s') I).
    unfold ranked, key in *. simpl in *.
    rewrite (lm_keys _ _ G), (lm_keys _ _ G').
    destruct F as [L|[Q HT]]; [left; now apply div100_lt|right].
    split; [now rewrite Q|exact HT].
Qed.

Lemma collect_results_NoDup (B : list (string * Q)) :
  NoDup (map fst B) ->
  forall results, collect_results self lm B = Some results ->
  NoDup (map key results).
Proof.
  induction B as [|[k s] B IH]; simpl; intros N results E.
  - inversion E. constructor.
  - inversion N as [|? ? Nk NB]; subst.
    destruct (Float.geb (s / 100) (threshold self)); [|now apply IH].
    destruct (PyDict.get lm k) as [found|] eqn:G; simpl in E; [|discriminate].
    destruct (collect_results self lm B) as [rest|] eqn:R; simpl in E;
      [|discriminate].
    inversion E; subst results. simpl. constructor; [|now apply IH].
    intro H. apply in_map_iff in H as (r & Kr & Hr).
    destruct (collect_results_in B rest R r Hr) as (k' & s' & f' & I & G' & -> & _).
    unfold key in Kr. simpl in Kr.
    rewrite (lm_keys _ _ G), (lm_keys _ _ G') in Kr. subst k'.
    apply Nk. apply in_map_iff. exists (k, s'). auto.
Qed.

End Collect.

(** The ranking return of [resolve]. *)
Lemma resolve_ranking (q : DomainEntityName) (cs : list DomainEntityName) :
  truthy (normalized self q) = true ->
  String.eqb (raw_value q) "IBM" && existsb ibm_candidate cs = false ->
  existsb (exact_condition self q) cs = false ->
  resolve self q cs
  = match kept_candidates self cs with
    | [] => Returned NoCandidates []
    | _ :: _ =>
        match collect_results self (lookup_map self cs) (best_matches self q cs) with
        | Some results => Returned Ranking (Sorting.sorted lt results)
        | None => KeyError
        end
    end.
Proof.
  intros Hq Hibm X.
  unfold resolve. fold (normalized self q). rewrite Hq. cbn [negb].
  assert (I : (if String.eqb (raw_value q) "IBM" then ibm_matches self cs else [])
              = []).
  { destruct (String.eqb (raw_value q) "IBM"); [|reflexivity].
    rewrite ibm_matches_eq, filter_nil_existsb; [reflexivity|exact Hibm]. }
  rewrite I, scan_candidates_eq. cbn [fst snd].
  rewrite (filter_ext_in _ _ _ (scan_test_exact self q cs Hq Hibm)).
  rewrite (filter_nil_existsb _ _ X). cbn [map].
  fold (kept_candidates self cs). fold (lookup_map self cs). fold (best_matches self q cs).
  reflexivity.
Qed.

Lemma ranking_total (q : DomainEntityName) (cs : list DomainEntityName) :
  exists results,
    collect_results self (lookup_map self cs) (best_matches self q cs) = Some results
    /\ Sorting.sorted lt results = results
    /\ ranking_properties self cs results.
Proof.
  destruct (collect_results_some (lookup_map self cs) (best_matches self q cs))
    as [results E].
  { intros item H. now apply ThefuzzFacts.extract_in in H. }
  exists results. split; [exact E|].
  assert (R : StronglySorted
                (ranked score (fun a b => earlier self cs (key a) (key b)))
                results).
  { eapply collect_results_ranked; [apply lookup_value_key| |exact E].
    apply ThefuzzFacts.extract_ranked, lookup_keys_order. }
  split; [exact (SortingFacts.ranked_unchanged score _ results R)|].
  constructor.
  - intros r Hr.
    destruct (collect_results_in _ _ _ E r Hr) as (k & s & f & _ & _ & -> & G).
    now apply FloatFacts.geb_iff in G.
  - pose proof (collect_results_length _ _ _ E).
    pose proof (ThefuzzFacts.extract_length (fuzz_scorer self)
                  (normalized self q) (limit self) (PyDict.keys (lookup_map self cs))).
    unfold best_matches in *. lia.
  - exact R.
  - eapply collect_results_NoDup; [apply lookup_value_key| |exact E].
    apply ThefuzzFacts.extract_NoDup, PyDictFacts.keys_comprehension_NoDup.
  - intros r Hr.
    destruct (collect_results_in _ _ _ E r Hr) as (k & s & f & I & G & -> & _).
    pose proof (lookup_value_key _ _ _ G) as Kf.
    assert (Hk : truthy k = true).
    { eapply lookup_keys_truthy, PyDictFacts.get_some_keys, G. }
    rewrite lookup_get in G by exact Hk.
    unfold key. simpl. rewrite Kf.
    destruct (find _ (rev cs)) as [c|]; simpl in G; [|discriminate].
    inversion G; subst f. simpl in *. subst k. auto.
Qed.

End Facts.
End RankingFacts.

Module ResolverClaims.
Import EntityResolverService ResolverFacts RankingFacts.
Local Open Scope Q_scope.

Lemma existsb_false_forall {A : Type} (p : A -> bool) (l : list A) :
  existsb p l = false <-> forall x, In x l -> p x = false.
Proof.
  induction l as [|y l IH]; simpl.
  - split; [contradiction|reflexivity].
  - rewrite orb_false_iff, IH. split.
    + intros [H1 H2] x [<-|H]; auto.
    + intro H. split; [|intros]; apply H; auto.
Qed.

Section Claims.
Variable self : t.

(** A candidate named ["IBM"] or ["IBM Corporation"], for the query ["IBM"],
    meets the exact-match condition or the abbreviation. *)
Lemma ibm_candidate_condition (q c : DomainEntityName) :
  String.eqb (raw_value q) "IBM" = true -> ibm_candidate c = true ->
  exact_condition self q c = true \/ abbreviation_condition q c = true.
Proof.
  intros E I. unfold ibm_candidate, is_ibm_name in I.
  apply orb_prop in I as [I|I].
  - left. unfold exact_condition.
    apply String.eqb_eq in E, I. rewrite E, I. reflexivity.
  - right. unfold abbreviation_condition. now rewrite E, I.
Qed.

Lemma abbreviation_is_ibm (q c : DomainEntityName) :
  abbreviation_condition q c = true ->
  String.eqb (raw_value q) "IBM" = true /\ ibm_candidate c = true.
Proof.
  unfold abbreviation_condition, ibm_candidate, is_ibm_name.
  intro H. apply andb_prop in H as [E I]. rewrite E, I.
  split; [reflexivity|apply orb_true_r].
Qed.

(** Off the two exact-match returns, [resolve] ends on one of the others. *)
Lemma short_circuit_ranking (q : DomainEntityName) (cs : list DomainEntityName) :
  truthy (normalized self q) = true ->
  String.eqb (raw_value q) "IBM" && existsb ibm_candidate cs = false ->
  existsb (exact_condition self q) cs = false ->
  short_circuit (resolve self q cs) = false.
Proof.
  intros Hq Hibm X. rewrite (resolve_ranking self q cs Hq Hibm X).
  destruct (kept_candidates self cs); [reflexivity|].
  now destruct (collect_results self _ _).
Qed.

(** C1, as the code has it.  A query whose normalized string is empty
    returns the empty list.  For a query whose normalized string is not
    empty, [resolve] ends on an exact-match return exactly when some candidate
    has the raw string of the query, or its normalized string, or the query is
    ["IBM"] and a candidate is ["IBM Corporation"].  It then returns, with the
    score 1 and in the order of the candidates, candidates that each meet one
    of these conditions (all those with an equal raw or normalized string when
    the query is not ["IBM"]), and the ranking algorithm plays no part. *)
Theorem exact_match_short_circuit
        (q : DomainEntityName) (cs : list DomainEntityName) :
  (truthy (normalized self q) = false ->
   resolve self q cs = Returned EmptyQuery [])
  /\ (truthy (normalized self q) = true ->
      (short_circuit (resolve self q cs) = true
       <-> exists c, In c cs
                     /\ (exact_condition self q c = true
                         \/ abbreviation_condition q c = true))
      /\ (short_circuit (resolve self q cs) = true ->
          exists path selected,
            resolve self q cs
            = Returned path
                (map (fun c => candidate self c 1) (filter selected cs))
            /\ (forall c, selected c = true ->
                          exact_condition self q c = true
                          \/ abbreviation_condition q c = true)
            /\ (String.eqb (raw_value q) "IBM" = false ->
                forall c, selected c = exact_condition self q c)
            /\ forall algorithm,
                resolve (with_algorithm self algorithm) q cs
                = resolve self q cs)).
Proof.
  split.
  { intro F. unfold resolve. unfold normalized in F. rewrite F. reflexivity. }
  intro Hq.
  destruct (String.eqb (raw_value q) "IBM" && existsb ibm_candidate cs) eqn:Hibm.
  - pose proof (resolve_abbreviation self q cs Hq Hibm) as R.
    pose proof (resolve_abbreviation (with_algorithm self (primary_algorithm self))
                  q cs Hq Hibm) as _.
    apply andb_prop in Hibm as [E X].
    split.
    + rewrite R. split; [intros _|reflexivity].
      apply existsb_exists in X as (c & Hc & I).
      exists c. split; [exact Hc|now apply ibm_candidate_condition].
    + intros _. exists AbbreviationMatches, ibm_candidate.
      split; [exact R|]. split; [intros c I; now apply ibm_candidate_condition|].
      split; [intro N; congruence|].
      intro algorithm. rewrite R.
      apply (resolve_abbreviation (with_algorithm self algorithm) q cs Hq).
      now rewrite E, X.
  - destruct (existsb (exact_condition self q) cs) eqn:X.
    + pose proof (resolve_exact self q cs Hq Hibm X) as R.
      split.
      * rewrite R. split; [intros _|reflexivity].
        apply existsb_exists in X as (c & Hc & I). eauto.
      * intros _. exists ExactMatches, (exact_condition self q).
        split; [exact R|]. split; [auto|]. split; [reflexivity|].
        intro algorithm. rewrite R.
        exact (resolve_exact (with_algorithm self algorithm) q cs Hq Hibm X).
    + rewrite (short_circuit_ranking q cs Hq Hibm X).
      split; [|discriminate].
      split; [discriminate|].
      intros (c & Hc & [E|A]).
      * rewrite existsb_false_forall in X. rewrite (X c Hc) in E. discriminate.
      * apply abbreviation_is_ibm in A as [E I].
        assert (Y : existsb ibm_candidate cs = true)
          by (apply existsb_exists; eauto).
        rewrite E, Y in Hibm. discriminate.
Qed.

(** [resolve] raises no [KeyError]. *)
Lemma resolve_returns (q : DomainEntityName) (cs : list DomainEntityName) :
  exists path results, resolve self q cs = Returned path results.
Proof.
  destruct (truthy (normalized self q)) eqn:Hq.
  - destruct (String.eqb (raw_value q) "IBM" && existsb ibm_candidate cs) eqn:Hibm.
    + rewrite (resolve_abbreviation self q cs Hq Hibm). eauto.
    + destruct (existsb (exact_condition self q) cs) eqn:X.
      * rewrite (resolve_exact self q cs Hq Hibm X). eauto.
      * rewrite (resolve_ranking self q cs Hq Hibm X).
        destruct (kept_candidates self cs); [eauto|].
        destruct (ranking_total self q cs) as (results & E & _).
        rewrite E. eauto.
  - unfold resolve. fold (normalized self q). rewrite Hq. simpl. eauto.
Qed.

(** The conditions under which [resolve] ends on the ranking return. *)
Lemma ranking_conditions (q : DomainEntityName) (cs : list DomainEntityName)
      (results : list MatchCandidate) :
  resolve self q cs = Returned Ranking results ->
  truthy (normalized self q) = true
  /\ String.eqb (raw_value q) "IBM" && existsb ibm_candidate cs = false
  /\ existsb (exact_condition self q) cs = false.
Proof.
  intro R.
  destruct (truthy (normalized self q)) eqn:Hq.
  - destruct (String.eqb (raw_value q) "IBM" && existsb ibm_candidate cs) eqn:Hibm.
    + rewrite (resolve_abbreviation self q cs Hq Hibm) in R. discriminate.
    + destruct (existsb (exact_condition self q) cs) eqn:X; [|auto].
      rewrite (resolve_exact self q cs Hq Hibm X) in R. discriminate.
  - unfold resolve in R. fold (normalized self q) in R. rewrite Hq in R.
    discriminate.
Qed.

Lemma ranking_results (q : DomainEntityName) (cs : list DomainEntityName)
      (results : list MatchCandidate) :
  resolve self q cs = Returned Ranking results ->
  ranking_properties self cs results.
Proof.
  intro R. destruct (ranking_conditions q cs results R) as (Hq & Hibm & X).
  rewrite (resolve_ranking self q cs Hq Hibm X) in R.
  destruct (kept_candidates self cs); [discriminate|].
  destruct (ranking_total self q cs) as (results' & E & S & P).
  rewrite E, S in R. inversion R; subst. exact P.
Qed.

(** C9, as the code has it.  When the normalized query is not empty, no
    candidate meets the exact-match condition, and the query is not ["IBM"]
    facing a candidate ["IBM Corporation"], every returned candidate has a
    score at or above the threshold, at most [limit] candidates are returned,
    and they come by descending score, candidates of equal score in the order
    in which their normalized strings first occur among the candidates. *)
Theorem ranking_threshold_limit_order
        (q : DomainEntityName) (cs : list DomainEntityName) :
  truthy (normalized self q) = true ->
  (forall c, In c cs -> exact_condition self q c = false) ->
  (forall c, In c cs -> abbreviation_condition q c = false) ->
  exists path results,
    resolve self q cs = Returned path results
    /\ (forall r, In r results -> threshold self <= score r)
    /\ (List.length results <= limit self)%nat
    /\ StronglySorted
         (fun a b => score b < score a
                     \/ (score a == score b /\ earlier self cs (key a) (key b)))
         results.
Proof.
  intros Hq Hexact Habbr.
  assert (X : existsb (exact_condition self q) cs = false)
    by now apply existsb_false_forall.
  assert (Hibm : String.eqb (raw_value q) "IBM" && existsb ibm_candidate cs = false).
  { destruct (String.eqb (raw_value q) "IBM") eqn:E; [|reflexivity]. simpl.
    apply existsb_false_forall. intros c Hc.
    destruct (ibm_candidate c) eqn:I; [|reflexivity].
    destruct (ibm_candidate_condition q c E I) as [H|H].
    - rewrite (Hexact c Hc) in H. discriminate.
    - rewrite (Habbr c Hc) in H. discriminate. }
  rewrite (resolve_ranking self q cs Hq Hibm X).
  destruct (kept_candidates self cs).
  - exists NoCandidates, []. repeat split.
    + contradiction.
    + simpl. lia.
    + constructor.
  - destruct (ranking_total self q cs) as (results & E & S & P).
    rewrite E, S. exists Ranking, results.
    destruct P. repeat split; assumption.
Qed.

(** C10.  On the ranking return no two results have the same normalized
    string, and each result carries the last candidate, in input order, that
    normalizes to its normalized string. *)
Theorem ranking_one_result_per_normalized_string
        (q : DomainEntityName) (cs : list DomainEntityName)
        (results : list MatchCandidate) :
  resolve self q cs = Returned Ranking results ->
  NoDup (map key results)
  /\ forall r, In r results ->
       find (fun c => String.eqb (normalized self c) (key r)) (rev cs)
       = Some (entity_name r)
       /\ original (processed_entity_name r) = entity_name r.
Proof.
  intro R. destruct (ranking_results q cs results R) as [_ _ _ D L].
  split; [exact D|].
  intros r Hr. destruct (L r Hr) as [F P].
  split; [exact F|]. now rewrite P.
Qed.

End Claims.

(** C1 as stated fails: for the query ["IBM"] the candidate
    ["IBM Corporation"] is returned with the score 1 on an exact-match
    return, and it has neither the raw nor the normalized string of the
    query. *)
Lemma ibm_corporation_returned_as_exact :
  resolve (Sample.resolver (8#10) 5) ibm [ibm_corporation]
  = Returned AbbreviationMatches
      [ {| entity_name := ibm_corporation;
           processed_entity_name :=
             {| original := ibm_corporation; processed_value := "ibm corp" |};
           score := 1 |} ]
  /\ normalized (Sample.resolver (8#10) 5) ibm = "ibm"
  /\ exact_condition (Sample.resolver (8#10) 5) ibm ibm_corporation = false.
Proof. repeat split; vm_compute; reflexivity. Qed.

Lemma exact_match_short_circuit_witness :
  short_circuit
    (resolve (Sample.resolver (8#10) 5) apple_query
             (Sample.names ["Apple Inc."; "Microsoft"])) = true
  <-> exists c, In c (Sample.names ["Apple Inc."; "Microsoft"])
                /\ (exact_condition (Sample.resolver (8#10) 5) apple_query c = true
                    \/ abbreviation_condition apple_query c = true).
Proof.
  refine (proj1 (proj2 (exact_match_short_circuit
                          (Sample.resolver (8#10) 5) apple_query
                          (Sample.names ["Apple Inc."; "Microsoft"])) _)).
  vm_compute. reflexivity.
Defined.

(** C9 as stated fails: for the query ["IBM"], two candidates
    ["IBM Corporation"] and the limit 1, no candidate meets the exact-match
    condition and two candidates are returned. *)
Lemma ibm_shortcut_ignores_limit :
  truthy (normalized (Sample.resolver (8#10) 1) ibm) = true
  /\ forallb (fun c => negb (exact_condition (Sample.resolver (8#10) 1) ibm c))
             [ibm_corporation; ibm_corporation] = true
  /\ limit (Sample.resolver (8#10) 1) = 1%nat
  /\ exists results,
      resolve (Sample.resolver (8#10) 1) ibm [ibm_corporation; ibm_corporation]
      = Returned AbbreviationMatches results
      /\ List.length results = 2%nat.
Proof.
  repeat split; try (vm_compute; reflexivity).
  eexists. split; vm_compute; reflexivity.
Qed.

Lemma ranking_threshold_limit_order_witness :
  exists path results,
    resolve (Sample.resolver (5#10) 5) aple_query apple_candidates
    = Returned path results
    /\ (forall r, In r results -> threshold (Sample.resolver (5#10) 5) <= score r)
    /\ (List.length results <= limit (Sample.resolver (5#10) 5))%nat
    /\ StronglySorted
         (fun a b => score b < score a
                     \/ (score a == score b
                         /\ earlier (Sample.resolver (5#10) 5) apple_candidates
                                    (key a) (key b)))
         results.
Proof.
  apply (ranking_threshold_limit_order (Sample.resolver (5#10) 5)
           aple_query apple_candidates).
  - vm_compute. reflexivity.
  - intros c [<-|[<-|[<-|[]]]]; vm_compute; reflexivity.
  - intros c [<-|[<-|[<-|[]]]]; vm_compute; reflexivity.
Defined.

Lemma ranking_one_result_per_normalized_string_witness :
  NoDup (map key sample_ranking)
  /\ forall r, In r sample_ranking ->
       find (fun c => String.eqb (normalized (Sample.resolver (5#10) 5) c) (key r))
            (rev apple_candidates)
       = Some (entity_name r)
       /\ original (processed_entity_name r) = entity_name r.
Proof.
  apply (ranking_one_result_per_normalized_string (Sample.resolver (5#10) 5)
           aple_query apple_candidates sample_ranking).
  vm_compute. reflexivity.
Defined.

End ResolverClaims.

(** ** The scorer *)

Module ScorerFacts.
Import ComprehensiveMatchScorer.
Local Open Scope Q_scope.

Lemma default_algorithms_eq (ext : Externals) :
  get_default_similarity_algorithms ext
  = [ ("levenshtein", LevenshteinAlgorithm ext);
      ("damerau_levenshtein", DamerauLevenshteinAlgorithm ext);
      ("jaro_winkler", JaroWinklerAlgorithm ext);
      ("token_set_ratio", TokenSetRatioAlgorithm ext);
      ("token_sort_ratio", TokenSortRatioAlgorithm ext);
      ("partial_ratio", PartialRatioAlgorithm ext);
      ("weighted_ratio", WeightedRatioAlgorithm ext) ].
Proof. reflexivity. Qed.

Lemma default_encoders_eq (ext : Externals) :
  get_default_phonetic_encoders ext
  = [ ("soundex", SoundexEncoder); ("metaphone", MetaphoneEncoder ext) ].
Proof. reflexivity. Qed.

Section Scores.
Variable self : t.
Variables p1 p2 : string.

(** After the first loop, the key of an algorithm holds the entry written for
    an algorithm registered under it. *)
Lemma similarity_scores_get (name : string) (d : PyDict.t ScoreValue) :
  In name (PyDict.keys (similarity_algorithms self)) ->
  exists algo,
    In (name, algo) (similarity_algorithms self)
    /\ PyDict.get (similarity_scores self p1 p2 d) name
       = Some (VFloat (similarity_entry p1 p2 algo)).
Proof.
  unfold similarity_scores, PyDict.keys.
  induction (similarity_algorithms self) as [|[k a] l IH] using rev_ind;
    [contradiction|].
  rewrite map_app, in_app_iff, fold_left_app. simpl. intro H.
  destruct (String.eqb k name) eqn:E.
  - apply String.eqb_eq in E. subst k. exists a.
    split; [apply in_or_app; right; now left|].
    apply PyDictFacts.get_set_same.
  - apply String.eqb_neq in E.
    destruct H as [H|[H|[]]]; [|congruence].
    destruct (IH H) as (algo & I & G). exists algo.
    split; [apply in_or_app; now left|].
    rewrite PyDictFacts.get_set_other by congruence. exact G.
Qed.

(** The first loop writes floats only. *)
Lemma similarity_scores_float (name : string) (d : PyDict.t ScoreValue) :
  (forall s, PyDict.get d name <> Some (VStr s)) ->
  forall s, PyDict.get (similarity_scores self p1 p2 d) name <> Some (VStr s).
Proof.
  unfold similarity_scores. revert d.
  induction (similarity_algorithms self) as [|[k a] l IH]; intros d H; [exact H|].
  simpl. apply IH. intro s.
  destruct (String.eqb k name) eqn:E.
  - apply String.eqb_eq in E. subst k.
    rewrite PyDictFacts.get_set_same. discriminate.
  - apply String.eqb_neq in E.
    rewrite PyDictFacts.get_set_other by congruence. apply H.
Qed.

(** The second loop writes only keys made of an encoder name and [_s1] or
    [_s2]. *)
Lemma phonetic_codes_get (name : string) (d : PyDict.t ScoreValue) :
  (forall enc, In enc (PyDict.keys (phonetic_encoders self)) ->
               name <> enc ++ "_s1" /\ name <> enc ++ "_s2") ->
  PyDict.get (phonetic_codes self p1 p2 d) name = PyDict.get d name.
Proof.
  unfold phonetic_codes, PyDict.keys. revert d.
  induction (phonetic_encoders self) as [|[k e] l IH]; intros d H; [reflexivity|].
  simpl. rewrite IH by (intros; apply H; now right).
  destruct (H k) as [N1 N2]; [now left|].
  now rewrite !PyDictFacts.get_set_other by congruence.
Qed.

End Scores.

Lemma last_char_app (s : string) (c : ascii) (r : string) :
  last_char (s ++ String c r) = last_char (String c r).
Proof.
  induction s as [|d s IH]; [reflexivity|].
  simpl append. rewrite <- IH.
  simpl. destruct (s ++ String c r) eqn:E; [|reflexivity].
  destruct s; discriminate.
Qed.

(** A key that ends with no digit is the key of no phonetic code. *)
Lemma not_a_code_key (name : string) (c : ascii) :
  last_char name = Some c -> is_digit c = false ->
  forall enc : string, name <> enc ++ "_s1" /\ name <> enc ++ "_s2".
Proof.
  intros L D enc. split; intro E; rewrite E, last_char_app in L;
    simpl in L; inversion L; subst c; discriminate.
Qed.

(** In the bundle of the scorer, a key that ends with no digit and is not a
    phonetic key by its prefix holds a float. *)
Lemma score_is_float (self : t) (s1 s2 name : string) (c : ascii) :
  last_char name = Some c -> is_digit c = false ->
  prefix "soundex_" name || prefix "metaphone_" name = false ->
  exists x, get_score (calculate_scores self s1 s2) name = VFloat x.
Proof.
  intros L D P. unfold get_score, calculate_scores. cbn [scores].
  rewrite phonetic_codes_get by (intros; now apply (not_a_code_key name c)).
  rewrite P.
  destruct (PyDict.get _ name) as [[x|s]|] eqn:G; [eauto| |eauto].
  exfalso. revert G. apply similarity_scores_float. discriminate.
Qed.

Ltac empty_rule :=
  split;
  [ reflexivity
  | intros s Hs; destruct s; [discriminate|split; reflexivity] ].

(** C6.  Each of the seven default algorithms gives 1 to the two empty texts
    and 0 to an empty and a non-empty text; and the scorer writes 1, or 0,
    under the name of an algorithm when both, or one, of the normalized texts
    are empty, whatever the algorithm registered under that name computes. *)
Theorem empty_pair_rule (ext : Externals) :
  PyDict.keys (get_default_similarity_algorithms ext)
  = [ "levenshtein"; "damerau_levenshtein"; "jaro_winkler"; "token_set_ratio";
      "token_sort_ratio"; "partial_ratio"; "weighted_ratio" ]
  /\ (forall name algo,
         In (name, algo) (get_default_similarity_algorithms ext) ->
         MatchingAlgorithm.calculate_similarity algo "" "" = 1
         /\ forall s, truthy s = true ->
              MatchingAlgorithm.calculate_similarity algo s "" = 0
              /\ MatchingAlgorithm.calculate_similarity algo "" s = 0)
  /\ (forall (scorer : t) (s1 s2 name : string),
         In name (PyDict.keys (similarity_algorithms scorer)) ->
         (forall enc, In enc (PyDict.keys (phonetic_encoders scorer)) ->
                      name <> enc ++ "_s1" /\ name <> enc ++ "_s2") ->
         get_score (calculate_scores scorer s1 s2) name
         = match truthy (preprocessor scorer s1), truthy (preprocessor scorer s2) with
           | false, false => VFloat 1
           | false, true | true, false => VFloat 0
           | true, true => get_score (calculate_scores scorer s1 s2) name
           end).
Proof.
  split; [reflexivity|]. split.
  - intros name algo H. rewrite default_algorithms_eq in H.
    repeat (destruct H as [H|H]; [inversion H; subst; clear H; empty_rule|]).
    contradiction.
  - intros scorer s1 s2 name Hname Henc.
    destruct (truthy (preprocessor scorer s1)) eqn:T1;
      destruct (truthy (preprocessor scorer s2)) eqn:T2; try reflexivity;
      unfold get_score, calculate_scores; cbn [scores];
      rewrite phonetic_codes_get by exact Henc;
      destruct (similarity_scores_get scorer (preprocessor scorer s1)
                  (preprocessor scorer s2) name [] Hname) as (algo & _ & G);
      rewrite G; unfold similarity_entry; rewrite T1, T2; reflexivity.
Qed.

(** The scorer of the sample facade, on an empty and a non-empty text. *)
Lemma empty_pair_rule_witness :
  get_score
    (calculate_scores (EntityResolutionFacade.scorer Sample.facade) "" "Apple")
    "weighted_ratio"
  = VFloat 0.
Proof.
  refine (proj2 (proj2 (empty_pair_rule Sample.externals))
            (EntityResolutionFacade.scorer Sample.facade) "" "Apple"
            "weighted_ratio" _ _).
  - vm_compute. tauto.
  - intros enc [<-|[<-|[]]]; split; discriminate.
Defined.

End ScorerFacts.

(** ** The decision strategy *)

Module StrategyFacts.
Import ComprehensiveMatchScorer ConfigurableMatchDecisionStrategy.
Local Open Scope Q_scope.

Lemma and_then_some (a b : bool) :
  Raise.and_then (Some a) (Some b) = Some (a && b).
Proof. now destruct a. Qed.

Section Rules.
Variable ext : Externals.
Variable score_details : DomainMatchScore.

(** The loop over safe rules: the verdict is the disjunction of the rules that
    fire, and each of them, in order, adds its formatted reason. *)
Lemma apply_rules_safe (rules : list Rule) :
  Forall (safe ext score_details) rules ->
  forall state,
  exists reasons,
    apply_rules ext score_details state rules
    = Some (fst state || existsb (fires score_details) rules,
            (snd state ++ reasons)%list)
    /\ Forall2 (fun rule reason =>
                  format_reason ext score_details (snd rule) = Some reason)
               (filter (fires score_details) rules) reasons.
Proof.
  induction 1 as [|rule rules (fired & C & F) _ IH]; intros [verdict said]; simpl.
  - exists []. rewrite orb_false_r, app_nil_r. split; [reflexivity|constructor].
  - unfold apply_rule, fires at 1 3. rewrite C. simpl.
    destruct fired.
    + destruct (F eq_refl) as [reason R]. rewrite R. simpl.
      destruct (IH (true, (said ++ [reason])%list)) as (reasons & E & H).
      exists (reason :: reasons). rewrite E. simpl.
      rewrite orb_true_r, <- app_assoc. split; [reflexivity|].
      constructor; assumption.
    + destruct (IH (verdict, said)) as (reasons & E & H).
      exists reasons. cbn [Raise.bind]. rewrite E. simpl.
      split; [reflexivity|exact H].
Qed.

End Rules.

Section Strategy.
Variable ext : Externals.
Variable the_scorer : ComprehensiveMatchScorer.t.
Variables t1 t2 t3 t4 t5 : Q.
Variables s1_raw s2_raw : string.

Let bundle : DomainMatchScore := calculate_scores the_scorer s1_raw s2_raw.

Lemma token_set_ratio_float :
  exists x, get_score bundle "token_set_ratio" = VFloat x.
Proof. now apply (ScorerFacts.score_is_float _ _ _ _ "o"%char). Qed.

Lemma jaro_winkler_float :
  exists x, get_score bundle "jaro_winkler" = VFloat x.
Proof. now apply (ScorerFacts.score_is_float _ _ _ _ "r"%char). Qed.

Lemma weighted_ratio_float :
  exists x, get_score bundle "weighted_ratio" = VFloat x.
Proof. now apply (ScorerFacts.score_is_float _ _ _ _ "o"%char). Qed.

(** On a bundle of the scorer the rules of [__init__] raise nothing. *)
Lemma threshold_rules_safe :
  Forall (safe ext bundle) (threshold_rules t1 t2 t3 t4 t5).
Proof.
  destruct token_set_ratio_float as [ts TS].
  destruct jaro_winkler_float as [jw JW].
  destruct weighted_ratio_float as [wr WR].
  unfold threshold_rules, safe.
  repeat (apply Forall_cons; [|try apply Forall_nil]);
    cbn [fst snd]; unfold format_reason; rewrite ?TS, ?JW, ?WR; unfold ge;
    rewrite ?and_then_some; eexists;
    (split; [reflexivity|intros _; simpl; eauto]).
Qed.

Lemma soundex_rule_safe : safe ext bundle soundex_rule.
Proof.
  unfold safe, soundex_rule. eexists. split; [reflexivity|].
  intros _. unfold format_reason. simpl. eauto.
Qed.

Lemma init_rules_safe (flag : bool) :
  Forall (safe ext bundle) (rules (init the_scorer t1 t2 t3 t4 t5 flag)).
Proof.
  unfold init. cbn [rules]. destruct flag; [|apply threshold_rules_safe].
  apply Forall_app. split; [apply threshold_rules_safe|].
  constructor; [apply soundex_rule_safe|constructor].
Qed.

Lemma existsb_fires (rules : list Rule) :
  existsb (fires bundle) rules = true
  <-> exists rule, In rule rules /\ fst rule bundle = Some true.
Proof.
  rewrite existsb_exists. split; intros (rule & I & F); exists rule; split; auto.
  - unfold fires in F. destruct (fst rule bundle) as [[|]|]; congruence.
  - unfold fires. now rewrite F.
Qed.

(** C3.  [evaluate_match] raises nothing; its verdict is true exactly when the
    condition of some configured rule holds on the score bundle; the reasons
    are, in the order of the rules, one formatted reason for each rule whose
    condition holds (no rule is skipped after a first one fires), followed by
    the informational reasons. *)
Theorem evaluate_match_or_semantics (flag : bool) :
  exists result reasons,
    evaluate_match ext (init the_scorer t1 t2 t3 t4 t5 flag) s1_raw s2_raw
    = Some result
    /\ score_details result = calculate_scores the_scorer s1_raw s2_raw
    /\ (is_match result = true
        <-> exists rule,
            In rule (rules (init the_scorer t1 t2 t3 t4 t5 flag))
            /\ fst rule (score_details result) = Some true)
    /\ Forall2 (fun rule reason =>
                  format_reason ext (score_details result) (snd rule) = Some reason)
               (filter (fires (score_details result))
                       (rules (init the_scorer t1 t2 t3 t4 t5 flag)))
               reasons
    /\ match_reasons result
       = (reasons
          ++ informational_reasons (init the_scorer t1 t2 t3 t4 t5 flag)
               (score_details result))%list.
Proof.
  destruct (apply_rules_safe ext bundle _ (init_rules_safe flag) (false, []))
    as (reasons & E & F).
  unfold evaluate_match. cbn [scorer init]. fold bundle.
  cbn [scorer init] in E. rewrite E. simpl.
  eexists. exists reasons. split; [reflexivity|]. cbn [score_details is_match match_reasons].
  split; [reflexivity|]. split; [apply existsb_fires|].
  split; [exact F|reflexivity].
Qed.


End Strategy.
End StrategyFacts.

(** The sample strategy on ["Smith"] and ["Smyth"]: no threshold rule fires,
    the Soundex codes agree, and the informational reason does not make a
    match. *)
Example smith_smyth_informational :
  option_map (fun result => (is_match result, match_reasons result))
    (ConfigurableMatchDecisionStrategy.evaluate_match Sample.externals
       (EntityResolutionFacade.match_decision_strategy Sample.facade)
       "Smith" "Smyth")
  = Some (false, ["Informational: Phonetic Soundex match (S530)"]).
Proof. vm_compute. reflexivity. Qed.

(** ** The facade *)

Module FacadeFacts.
Import EntityResolutionFacade.
Local Open Scope Q_scope.

Section Selection.
Variable ext : Externals.
Variable self : t.

Lemma unknown_algorithm_selected (algo_name : string) :
  PyDict.mem (_available_similarity_algorithms self) algo_name = false ->
  _get_resolver_algorithm ext self algo_name
  = Some (token_set_fallback ext self, printed_for algo_name).
Proof.
  intro M. unfold _get_resolver_algorithm, printed_for. rewrite M.
  now destruct (String.eqb algo_name "nonexistent_algorithm").
Qed.

(** C8, as the code has it.  For a name that is not registered, selecting the
    algorithm raises nothing and gives the [token_set_ratio] algorithm; the
    warning is printed unless the name is ["nonexistent_algorithm"], for which
    nothing is printed.  [find_best_matches_in_list] raises nothing; when none
    of its exact or special-case returns applies, its results are those of a
    resolver run with that algorithm, and it has printed what the selection
    printed. *)
Theorem unknown_algorithm_falls_back (algo_name : string) :
  PyDict.mem (_available_similarity_algorithms self) algo_name = false ->
  _get_resolver_algorithm ext self algo_name
  = Some (token_set_fallback ext self,
          if String.eqb algo_name "nonexistent_algorithm" then []
          else [warning algo_name])
  /\ forall query_string candidate_strings threshold limit,
      exists results printed,
        find_best_matches_in_list ext self query_string candidate_strings
          algo_name threshold limit
        = Some (results, printed)
        /\ (exact_matches self query_string candidate_strings algo_name = [] ->
            String.eqb query_string "Apple"
            && existsb (contains "Apple Inc.") candidate_strings
            && (3 <=? List.length
                        (apple_matches self query_string candidate_strings algo_name))%nat
            = false ->
            printed = (if String.eqb algo_name "nonexistent_algorithm" then []
                       else [warning algo_name])
            /\ exists path matched,
                EntityResolverService.resolve
                  (resolver_with self (token_set_fallback ext self) threshold limit)
                  {| raw_value := query_string |}
                  (map (fun cs => {| raw_value := cs |}) candidate_strings)
                = EntityResolverService.Returned path matched
                /\ results
                   = map (info_of query_string (token_set_fallback ext self)) matched).
Proof.
  intro M. pose proof (unknown_algorithm_selected algo_name M) as S.
  split; [exact S|].
  intros query_string candidate_strings threshold limit.
  unfold find_best_matches_in_list.
  destruct (exact_matches self query_string candidate_strings algo_name)
    as [|m ms] eqn:X.
  - rewrite S. cbn [Raise.bind fst snd].
    destruct (ResolverClaims.resolve_returns
                (resolver_with self (token_set_fallback ext self) threshold limit)
                {| raw_value := query_string |}
                (map (fun cs => {| raw_value := cs |}) candidate_strings))
      as (path & matched & R).
    fold (resolver_with self (token_set_fallback ext self) threshold limit).
    rewrite R.
    destruct (String.eqb query_string "Apple"
              && existsb (contains "Apple Inc.") candidate_strings
              && (3 <=? List.length
                          (apple_matches self query_string candidate_strings algo_name))%nat)
      eqn:A.
    + do 2 eexists. split; [reflexivity|]. intros _ H. discriminate.
    + do 2 eexists. split; [reflexivity|]. intros _ _.
      split; [reflexivity|]. exists path, matched. split; reflexivity.
  - do 2 eexists. split; [reflexivity|]. intro H. discriminate.
Qed.

End Selection.

(** C8 as stated fails: ["nonexistent_algorithm"] is not registered in the
    default facade, and selecting it prints no warning. *)
Lemma nonexistent_algorithm_no_warning :
  PyDict.mem (_available_similarity_algorithms Sample.facade)
             "nonexistent_algorithm" = false
  /\ option_map snd
       (_get_resolver_algorithm Sample.externals Sample.facade
          "nonexistent_algorithm")
     = Some [].
Proof. split; vm_compute; reflexivity. Qed.

Lemma unknown_algorithm_falls_back_witness :
  _get_resolver_algorithm Sample.externals Sample.facade "soundex_ratio"
  = Some (token_set_fallback Sample.externals Sample.facade,
          [warning "soundex_ratio"]).
Proof.
  refine (proj1 (unknown_algorithm_falls_back Sample.externals Sample.facade
                   "soundex_ratio" _)).
  vm_compute. reflexivity.
Defined.

End FacadeFacts.

(** * Further properties *)

Import Shapes.

(** ** The normalizer, step by step *)

Module StepFacts.
Import Preprocessors.

Ltac each_char c := destruct c as [[] [] [] [] [] [] [] []]; reflexivity.

Lemma lower_char_not_upper (c : ascii) : is_upper (lower_char c) = false.
Proof. each_char c. Qed.

Lemma lower_char_fixed (c : ascii) : is_upper c = false -> lower_char c = c.
Proof. unfold lower_char. now intros ->. Qed.

Lemma lower_upper_char (c : ascii) : lower_char (upper_char c) = lower_char c.
Proof. each_char c. Qed.

Lemma space_upper_char (c : ascii) : is_space (upper_char c) = is_space c.
Proof. each_char c. Qed.

Lemma space_lower_char (c : ascii) : is_space (lower_char c) = is_space c.
Proof. each_char c. Qed.

Lemma ascii_upper_char (c : ascii) : is_ascii (upper_char c) = is_ascii c.
Proof. each_char c. Qed.

Lemma ascii_lower_char (c : ascii) : is_ascii (lower_char c) = is_ascii c.
Proof. each_char c. Qed.

(** What a name character is and is not. *)
Lemma name_char_facts (c : ascii) :
  is_name_char c = true ->
  is_ascii c = true
  /\ is_upper c = false
  /\ (is_word c || is_space c) = true
  /\ Ascii.eqb "." c = false
  /\ Ascii.eqb "," c = false
  /\ (is_space c = true -> c = " "%char).
Proof.
  destruct c as [[] [] [] [] [] [] [] []]; vm_compute; intro H;
    try discriminate H; repeat split; try reflexivity; intro K; discriminate K.
Qed.

Lemma kept_char_name (c : ascii) :
  (is_word c || is_space c) && negb (is_upper c) = true ->
  is_space c = false -> is_name_char c = true.
Proof.
  destruct c as [[] [] [] [] [] [] [] []]; vm_compute; intros H K;
    try reflexivity; try discriminate H; discriminate K.
Qed.

Lemma sforall_weaken (p q : ascii -> bool) (s : string) :
  (forall c, p c = true -> q c = true) ->
  sforall p s = true -> sforall q s = true.
Proof.
  intro W. induction s as [|c r IH]; simpl; [reflexivity|].
  rewrite andb_true_iff. intros [H1 H2]. now rewrite (W c H1), IH.
Qed.

Lemma sforall_and (p q : ascii -> bool) (s : string) :
  sforall p s = true -> sforall q s = true ->
  sforall (fun c => p c && q c) s = true.
Proof.
  induction s as [|c r IH]; simpl; [reflexivity|].
  rewrite !andb_true_iff. intros [H1 H2] [K1 K2]. now rewrite H1, K1, IH.
Qed.

Lemma sforall_smap (p : ascii -> bool) (f : ascii -> ascii) (s : string) :
  (forall c, p (f c) = true) -> sforall p (smap f s) = true.
Proof.
  intro H. induction s as [|c r IH]; simpl; [reflexivity|]. now rewrite H, IH.
Qed.

Lemma sforall_sfilter (p q : ascii -> bool) (s : string) :
  sforall p s = true -> sforall p (sfilter q s) = true.
Proof.
  induction s as [|c r IH]; simpl; [reflexivity|].
  rewrite andb_true_iff. intros [H1 H2].
  destruct (q c); simpl; [rewrite H1|]; auto.
Qed.

Lemma sfilter_kept (q : ascii -> bool) (s : string) :
  sforall q (sfilter q s) = true.
Proof.
  induction s as [|c r IH]; simpl; [reflexivity|].
  destruct (q c) eqn:E; simpl; [rewrite E|]; auto.
Qed.

Lemma sfilter_all (q : ascii -> bool) (s : string) :
  sforall q s = true -> sfilter q s = s.
Proof.
  induction s as [|c r IH]; simpl; [reflexivity|].
  rewrite andb_true_iff. intros [H1 H2]. now rewrite H1, IH.
Qed.

Lemma smap_fixed (f : ascii -> ascii) (p : ascii -> bool) (s : string) :
  (forall c, p c = true -> f c = c) -> sforall p s = true -> smap f s = s.
Proof.
  intro H. induction s as [|c r IH]; simpl; [reflexivity|].
  rewrite andb_true_iff. intros [H1 H2]. now rewrite (H c H1), IH.
Qed.

(** *** [LowercaseStep] *)

Lemma lower_no_upper (s : string) :
  sforall (fun c => negb (is_upper c)) (lower s) = true.
Proof. apply sforall_smap. intro c. now rewrite lower_char_not_upper. Qed.

Lemma lower_fixed (s : string) :
  sforall (fun c => negb (is_upper c)) s = true -> lower s = s.
Proof.
  apply smap_fixed. intros c H. apply lower_char_fixed.
  now destruct (is_upper c).
Qed.

(** *** [re.sub] and [CompanySuffixStandardizationStep] *)

Lemma sub_scan_forall (P : ascii -> bool) (p : list Re.item) (repl : string) :
  sforall P repl = true ->
  forall (s : string) (skip : nat) (prev : option ascii),
    sforall P s = true -> sforall P (Re.sub_scan p repl skip prev s) = true.
Proof.
  intros R s. induction s as [|c r IH]; intros skip prev; simpl; [reflexivity|].
  rewrite andb_true_iff. intros [H1 H2].
  destruct skip as [|k]; [|now apply IH].
  destruct (Re.match_at p prev (String c r)) as [[|n]|]; simpl.
  - rewrite H1. now apply IH.
  - rewrite SoundexFacts.sforall_app, R. now apply IH.
  - rewrite H1. now apply IH.
Qed.

Lemma fold_sub_forall (P : ascii -> bool) (mapping : list (string * string)) :
  forallb (fun pr => sforall P (snd pr)) mapping = true ->
  forall text, sforall P text = true ->
  sforall P (fold_left (fun processed_text pr =>
                          Re.sub (fst pr) (snd pr) processed_text)
                       mapping text) = true.
Proof.
  induction mapping as [|pr m IH]; simpl; intros F text H; [exact H|].
  apply andb_true_iff in F as [F1 F2].
  apply IH; [exact F2|]. now apply sub_scan_forall.
Qed.

(** The suffix step writes lower-case letters only: it keeps a property that
    its replacements have. *)
Lemma standardize_suffixes_forall (P : ascii -> bool) (text : string) :
  forallb (fun pr => sforall P (snd pr)) suffix_mapping = true ->
  sforall P text = true -> sforall P (standardize_suffixes text) = true.
Proof. intros F H. now apply fold_sub_forall. Qed.

(** A pattern that starts with [\b] matches nowhere in a text without word
    characters. *)
Lemma sub_scan_no_word (p : list Re.item) (repl : string) (s : string) :
  sforall (fun c => negb (is_word c)) s = true ->
  forall prev, Re.word_opt prev = false ->
  Re.sub_scan (Re.Bound :: p) repl 0 prev s = s.
Proof.
  induction s as [|c r IH]; simpl; [reflexivity|].
  rewrite andb_true_iff. intros [H1 H2] prev W.
  apply negb_true_iff in H1.
  unfold Re.at_boundary. simpl. rewrite W, H1. simpl.
  rewrite IH; auto.
Qed.

Lemma fold_sub_no_word (mapping : list (string * string)) (text : string) :
  forallb starts_at_boundary mapping = true ->
  sforall (fun c => negb (is_word c)) text = true ->
  fold_left (fun processed_text pr => Re.sub (fst pr) (snd pr) processed_text)
            mapping text = text.
Proof.
  induction mapping as [|pr m IH]; simpl; intros F H; [reflexivity|].
  apply andb_true_iff in F as [F1 F2].
  unfold Re.sub at 2. unfold starts_at_boundary in F1.
  destruct (Re.compile (fst pr)) as [|[| |] p]; try discriminate.
  rewrite sub_scan_no_word by auto. now apply IH.
Qed.

(** *** [PunctuationRemovalStep] *)

Lemma remove_punctuation_kept (text : string) :
  sforall (fun c => is_word c || is_space c) (remove_punctuation text) = true.
Proof. apply sfilter_kept. Qed.

Lemma remove_punctuation_forall (P : ascii -> bool) (text : string) :
  sforall P text = true -> sforall P (remove_punctuation text) = true.
Proof.
  intro H. unfold remove_punctuation, remove_char.
  now repeat apply sforall_sfilter.
Qed.

Lemma remove_punctuation_fixed (text : string) :
  sforall is_name_char text = true -> remove_punctuation text = text.
Proof.
  intro H. unfold remove_punctuation, remove_char.
  assert (D : sfilter (fun d => negb (Ascii.eqb "." d)) text = text).
  { apply sfilter_all. revert H. apply sforall_weaken.
    intros c N. apply name_char_facts in N as (_ & _ & _ & N & _). now rewrite N. }
  rewrite D.
  assert (C : sfilter (fun d => negb (Ascii.eqb "," d)) text = text).
  { apply sfilter_all. revert H. apply sforall_weaken.
    intros c N. apply name_char_facts in N as (_ & _ & _ & _ & N & _). now rewrite N. }
  rewrite C. apply sfilter_all. revert H. apply sforall_weaken.
  intros c N. now apply name_char_facts in N as (_ & _ & N & _).
Qed.

(** *** [WhitespaceNormalizationStep] *)

Lemma collapse_spaced (s : string) (in_run : bool) :
  spaced in_run (collapse_spaces in_run s) = true.
Proof.
  revert in_run. induction s as [|c r IH]; intro in_run; simpl; [reflexivity|].
  destruct (is_space c) eqn:E.
  - destruct in_run; [apply IH|]. simpl. apply IH.
  - simpl. rewrite E. apply IH.
Qed.

Lemma collapse_name_chars (s : string) (in_run : bool) :
  sforall (fun c => (is_word c || is_space c) && negb (is_upper c)) s = true ->
  sforall is_name_char (collapse_spaces in_run s) = true.
Proof.
  revert in_run. induction s as [|c r IH]; intro in_run; simpl; [reflexivity|].
  rewrite andb_true_iff. intros [H1 H2].
  pose proof (kept_char_name c H1) as K.
  destruct (is_space c) eqn:E.
  - destruct in_run; [auto|].
    change (is_name_char " " && sforall is_name_char (collapse_spaces true r) = true).
    rewrite IH by assumption. reflexivity.
  - simpl. rewrite (K eq_refl). simpl. auto.
Qed.

Lemma name_char_plain (c : ascii) : is_name_char c = true -> plain_space c = true.
Proof.
  destruct c as [[] [] [] [] [] [] [] []]; vm_compute; intro H;
    try discriminate H; reflexivity.
Qed.

Lemma plain_space_eq (c : ascii) :
  plain_space c = true -> is_space c = true -> c = " "%char.
Proof.
  unfold plain_space. intros H E. rewrite E in H. simpl in H.
  now apply Ascii.eqb_eq in H.
Qed.

Lemma collapse_fixed (s : string) (in_run : bool) :
  sforall plain_space s = true -> spaced in_run s = true ->
  collapse_spaces in_run s = s.
Proof.
  revert in_run. induction s as [|c r IH]; intro in_run; simpl; [reflexivity|].
  rewrite andb_true_iff. intros [H1 H2].
  pose proof (plain_space_eq c H1) as Sp.
  destruct (is_space c) eqn:E.
  - rewrite andb_true_iff, negb_true_iff. intros [-> K].
    rewrite (Sp eq_refl), IH by auto. reflexivity.
  - intro K. now rewrite IH.
Qed.

Lemma collapse_plain (s : string) (in_run : bool) :
  sforall plain_space (collapse_spaces in_run s) = true.
Proof.
  revert in_run. induction s as [|c r IH]; intro in_run; simpl; [reflexivity|].
  destruct (is_space c) eqn:E.
  - destruct in_run; [auto|].
    change (plain_space " " && sforall plain_space (collapse_spaces true r) = true).
    now rewrite IH.
  - simpl. unfold plain_space at 1. rewrite E. simpl. auto.
Qed.

Lemma collapse_spaces_only (s : string) (in_run : bool) :
  sforall is_space s = true -> sforall is_space (collapse_spaces in_run s) = true.
Proof.
  revert in_run. induction s as [|c r IH]; intro in_run; simpl; [reflexivity|].
  rewrite andb_true_iff. intros [H1 H2]. rewrite H1.
  destruct in_run; simpl; auto.
Qed.

Lemma lstrip_spaces_only (s : string) :
  sforall is_space s = true -> lstrip s = EmptyString.
Proof.
  induction s as [|c r IH]; simpl; [reflexivity|].
  rewrite andb_true_iff. intros [H1 H2]. now rewrite H1, IH.
Qed.

Lemma strip_spaces_only (s : string) :
  sforall is_space s = true -> strip s = EmptyString.
Proof. intro H. unfold strip. now rewrite lstrip_spaces_only. Qed.

Lemma lstrip_forall (P : ascii -> bool) (s : string) :
  sforall P s = true -> sforall P (lstrip s) = true.
Proof.
  induction s as [|c r IH]; simpl; [reflexivity|].
  rewrite andb_true_iff. intros [H1 H2].
  destruct (is_space c); [auto|]. simpl. now rewrite H1, H2.
Qed.

Lemma rstrip_forall (P : ascii -> bool) (s : string) :
  sforall P s = true -> sforall P (rstrip s) = true.
Proof.
  induction s as [|c r IH]; simpl; [reflexivity|].
  rewrite andb_true_iff. intros [H1 H2].
  destruct (is_space c && negb (truthy (rstrip r))); [reflexivity|].
  simpl. rewrite H1. auto.
Qed.

Lemma strip_forall (P : ascii -> bool) (s : string) :
  sforall P s = true -> sforall P (strip s) = true.
Proof. intro H. now apply rstrip_forall, lstrip_forall. Qed.

Lemma lstrip_spaced (s : string) (b b' : bool) :
  spaced b s = true -> spaced b' (lstrip s) = true.
Proof.
  revert b. induction s as [|c r IH]; intro b; simpl; [reflexivity|].
  destruct (is_space c) eqn:E.
  - rewrite andb_true_iff. intros [_ H]. eauto.
  - intro H. simpl. now rewrite E.
Qed.

Lemma rstrip_tidy (s : string) (b : bool) :
  spaced b s = true ->
  rstrip s = EmptyString \/ tidy_from b (rstrip s) = true.
Proof.
  revert b. induction s as [|c r IH]; intro b; simpl; [now left|].
  destruct (is_space c) eqn:E.
  - rewrite andb_true_iff. intros [B H]. simpl.
    destruct (rstrip r) as [|d u] eqn:R; simpl; [now left|right].
    rewrite E, B. simpl. destruct (IH true H) as [K|K]; [discriminate|exact K].
  - intro H. right. simpl. rewrite E.
    destruct (IH false H) as [K|K]; [now rewrite K|exact K].
Qed.

Lemma strip_tidy (s : string) (b : bool) :
  spaced b s = true -> tidy (strip s) = true.
Proof.
  intro H. unfold strip.
  destruct (rstrip_tidy (lstrip s) true (lstrip_spaced s b true H)) as [K|K].
  - now rewrite K.
  - unfold tidy. now destruct (rstrip (lstrip s)).
Qed.

Lemma rstrip_fixed (s : string) (b : bool) :
  tidy_from b s = true -> rstrip s = s.
Proof.
  revert b. induction s as [|c r IH]; intro b; simpl; [reflexivity|].
  destruct (is_space c) eqn:E.
  - rewrite andb_true_iff. intros [_ H]. rewrite (IH true H).
    destruct r; [discriminate H|reflexivity].
  - intro H. now rewrite (IH false H).
Qed.

Lemma strip_fixed (s : string) : tidy s = true -> strip s = s.
Proof.
  destruct s as [|c r]; [reflexivity|]. unfold tidy, strip. intro H.
  assert (L : lstrip (String c r) = String c r).
  { simpl in *. destruct (is_space c); [discriminate H|reflexivity]. }
  rewrite L. now apply (rstrip_fixed _ true).
Qed.

Lemma tidy_spaced (s : string) (b : bool) : tidy_from b s = true -> spaced b s = true.
Proof.
  revert b. induction s as [|c r IH]; intro b; simpl; [reflexivity|].
  destruct (is_space c).
  - rewrite !andb_true_iff. intros [B H]. auto.
  - auto.
Qed.

(** A tidy text whose only white space is the space goes through
    [WhitespaceNormalizationStep] unchanged. *)
Lemma normalize_whitespace_fixed (s : string) :
  sforall plain_space s = true -> tidy s = true -> normalize_whitespace s = s.
Proof.
  intros N T. unfold normalize_whitespace.
  destruct s as [|c r]; [reflexivity|].
  assert (F : spaced false (String c r) = true).
  { unfold tidy in T. simpl in *. destruct (is_space c); [discriminate T|].
    now apply tidy_spaced. }
  rewrite collapse_fixed by assumption. now apply strip_fixed.
Qed.

Lemma normalize_whitespace_shape (s : string) :
  sforall plain_space (normalize_whitespace s) = true
  /\ tidy (normalize_whitespace s) = true.
Proof.
  unfold normalize_whitespace. split.
  - apply strip_forall, collapse_plain.
  - apply (strip_tidy _ false), collapse_spaced.
Qed.

(** *** [AccentRemovalStep] *)

Lemma unidecode_ascii (table : ascii -> string) (s : string) :
  sforall is_ascii s = true -> unidecode table s = s.
Proof.
  induction s as [|c r IH]; simpl; [reflexivity|].
  rewrite andb_true_iff. intros [H1 H2]. unfold is_ascii in H1.
  now rewrite H1, IH.
Qed.

Lemma smap_smap (f g : ascii -> ascii) (s : string) :
  smap f (smap g s) = smap (fun c => f (g c)) s.
Proof. induction s as [|c r IH]; simpl; [reflexivity|]. now rewrite IH. Qed.

Lemma smap_ext (f g : ascii -> ascii) (s : string) :
  (forall c, f c = g c) -> smap f s = smap g s.
Proof. intro H. induction s as [|c r IH]; simpl; [reflexivity|]. now rewrite H, IH. Qed.

Section Recase.
Variable f : ascii -> ascii.
Hypothesis f_space : forall c, is_space (f c) = is_space c.

Lemma truthy_smap (s : string) : truthy (smap f s) = truthy s.
Proof. now destruct s. Qed.

Lemma lstrip_smap (s : string) : lstrip (smap f s) = smap f (lstrip s).
Proof.
  induction s as [|c r IH]; simpl; [reflexivity|].
  rewrite f_space. now destruct (is_space c).
Qed.

Lemma rstrip_smap (s : string) : rstrip (smap f s) = smap f (rstrip s).
Proof.
  induction s as [|c r IH]; simpl; [reflexivity|].
  rewrite f_space, IH, truthy_smap.
  now destruct (is_space c && negb (truthy (rstrip r))).
Qed.

Lemma strip_smap (s : string) : strip (smap f s) = smap f (strip s).
Proof. unfold strip. now rewrite lstrip_smap, rstrip_smap. Qed.

End Recase.

End StepFacts.

(** ** The normalizer as a whole *)

Module NormalizerFacts.
Import Preprocessors StepFacts.

Lemma process_chain (table : ascii -> string) (s : string) :
  process table chain_head s
  = normalize_whitespace
      (remove_punctuation (standardize_suffixes (lower (unidecode table s)))).
Proof. reflexivity. Qed.

Lemma replacements_lower :
  forallb (fun pr => sforall (fun c => negb (is_upper c)) (snd pr)) suffix_mapping = true.
Proof. vm_compute. reflexivity. Qed.

Lemma replacements_name_chars :
  forallb (fun pr => sforall is_name_char (snd pr)) suffix_mapping = true.
Proof. vm_compute. reflexivity. Qed.

Lemma patterns_start_at_boundary :
  forallb starts_at_boundary suffix_mapping = true.
Proof. vm_compute. reflexivity. Qed.

(** What the chain returns is made of name characters and is tidy. *)
Lemma process_shape (table : ascii -> string) (s : string) :
  sforall is_name_char (process table chain_head s) = true
  /\ tidy (process table chain_head s) = true.
Proof.
  rewrite process_chain. split; [|apply normalize_whitespace_shape].
  unfold normalize_whitespace. apply strip_forall, collapse_name_chars.
  apply sforall_and; [apply remove_punctuation_kept|].
  apply remove_punctuation_forall, standardize_suffixes_forall;
    [apply replacements_lower|apply lower_no_upper].
Qed.

Lemma preprocess_shape (table : ascii -> string) (text : PyValue) :
  sforall is_name_char (preprocess table text) = true
  /\ tidy (preprocess table text) = true.
Proof.
  unfold preprocess.
  destruct text; try (split; reflexivity);
    (destruct (negb (truthy (strip _))); [split; reflexivity|apply process_shape]).
Qed.

(** On a text that is already normalized, only the suffix step and the
    white-space step can act. *)
Lemma preprocess_normalized (table : ascii -> string) (y : string) :
  sforall is_name_char y = true -> tidy y = true ->
  preprocess table (PyStr y) = normalize_whitespace (standardize_suffixes y).
Proof.
  intros N T. destruct y as [|c r]; [vm_compute; reflexivity|].
  unfold preprocess, py_str. rewrite (strip_fixed _ T). cbn [truthy negb].
  rewrite process_chain.
  rewrite unidecode_ascii
    by (revert N; apply sforall_weaken; intros d D; now apply name_char_facts in D).
  rewrite lower_fixed.
  - rewrite remove_punctuation_fixed; [reflexivity|].
    apply standardize_suffixes_forall; [apply replacements_name_chars|exact N].
  - revert N. apply sforall_weaken. intros d D.
    apply name_char_facts in D as (_ & U & _). now rewrite U.
Qed.

(** X1.  Whatever the input, the normalizer returns a text made only of
    lower-case ASCII letters, digits, underscores and spaces, with no space at
    either end and no two spaces in a row; this holds for [None], numbers and
    the empty result as well. *)
Theorem preprocess_normal_form (table : ascii -> string) (text : PyValue) :
  sforall is_name_char (preprocess table text) = true
  /\ tidy (preprocess table text) = true.
Proof.
  destruct text as [|s|z|printed]; [split; reflexivity| | |];
    unfold preprocess;
    (destruct (negb (truthy (strip _))); [split; reflexivity|]);
    rewrite process_chain; (split; [|apply normalize_whitespace_shape]);
    unfold normalize_whitespace; apply strip_forall, collapse_name_chars;
    (apply sforall_and; [apply remove_punctuation_kept|]);
    apply remove_punctuation_forall, standardize_suffixes_forall;
    try apply replacements_lower; apply lower_no_upper.
Qed.

(** X2.  Normalizing a normalized text again can only change it through the
    company-suffix step: the second result is the suffix step followed by the
    white-space step applied to the first result; the accent, lower-case and
    punctuation steps no longer act. *)
Theorem preprocess_second_pass (table : ascii -> string) (text : PyValue) :
  preprocess table (PyStr (preprocess table text))
  = normalize_whitespace (standardize_suffixes (preprocess table text)).
Proof.
  destruct (preprocess_shape table text) as [N T].
  now apply preprocess_normalized.
Qed.

(** X3.  The normalizer is idempotent on every input whose normalized text
    the company-suffix step leaves unchanged. *)
Theorem preprocess_idempotent_on_stable_suffixes
        (table : ascii -> string) (text : PyValue) :
  standardize_suffixes (preprocess table text) = preprocess table text ->
  preprocess table (PyStr (preprocess table text)) = preprocess table text.
Proof.
  intro S. destruct (preprocess_shape table text) as [N T].
  rewrite preprocess_normalized, S by assumption.
  apply normalize_whitespace_fixed; [|exact T].
  revert N. apply sforall_weaken, name_char_plain.
Qed.

Lemma preprocess_idempotent_on_stable_suffixes_witness :
  preprocess no_table (PyStr (preprocess no_table (PyStr "Apple Inc.")))
  = preprocess no_table (PyStr "Apple Inc.").
Proof.
  apply (preprocess_idempotent_on_stable_suffixes no_table (PyStr "Apple Inc.")).
  vm_compute. reflexivity.
Defined.

Lemma preprocess_recase (table : ascii -> string) (f : ascii -> ascii) (s : string) :
  (forall c, is_space (f c) = is_space c) ->
  (forall c, is_ascii (f c) = is_ascii c) ->
  (forall c, lower_char (f c) = lower_char c) ->
  sforall is_ascii s = true ->
  preprocess table (PyStr (smap f s)) = preprocess table (PyStr s).
Proof.
  intros Sp As Lo A. unfold preprocess, py_str.
  rewrite (strip_smap f Sp), (truthy_smap f).
  destruct (negb (truthy (strip s))); [reflexivity|].
  rewrite !process_chain.
  assert (A' : sforall is_ascii (smap f s) = true).
  { clear -As A. induction s as [|c r IH]; simpl in *; [reflexivity|].
    apply andb_true_iff in A as [A1 A2]. now rewrite As, A1, IH. }
  rewrite !unidecode_ascii by assumption.
  unfold lower at 1. rewrite smap_smap.
  now rewrite (smap_ext _ lower_char s Lo).
Qed.

(** X4.  On ASCII text the normalizer ignores letter case: the upper-cased
    and the lower-cased text normalize to what the text itself normalizes
    to. *)
Theorem preprocess_ignores_ascii_case (table : ascii -> string) (s : string) :
  sforall is_ascii s = true ->
  preprocess table (PyStr (upper s)) = preprocess table (PyStr s)
  /\ preprocess table (PyStr (lower s)) = preprocess table (PyStr s).
Proof.
  intro A. split; apply preprocess_recase; auto.
  - apply space_upper_char.
  - apply ascii_upper_char.
  - apply lower_upper_char.
  - apply space_lower_char.
  - apply ascii_lower_char.
  - intro c. apply lower_char_fixed, lower_char_not_upper.
Qed.

Lemma preprocess_ignores_ascii_case_witness :
  preprocess no_table (PyStr (upper "Apple Inc."))
  = preprocess no_table (PyStr "Apple Inc.")
  /\ preprocess no_table (PyStr (lower "Apple Inc."))
     = preprocess no_table (PyStr "Apple Inc.").
Proof.
  apply (preprocess_ignores_ascii_case no_table "Apple Inc.").
  vm_compute. reflexivity.
Defined.

Lemma no_word_spaces (s : string) :
  sforall (fun c => negb (is_word c)) s = true ->
  sforall is_space (remove_punctuation s) = true.
Proof.
  intro H.
  apply (sforall_weaken (fun c => (is_word c || is_space c) && negb (is_word c))).
  - intros c. destruct (is_word c); simpl; [discriminate|]. now rewrite andb_true_r.
  - apply sforall_and; [apply remove_punctuation_kept|].
    now apply remove_punctuation_forall.
Qed.

(** The chain leaves nothing of an ASCII text without word characters. *)
Lemma process_no_word (table : ascii -> string) (s : string) :
  sforall (fun c => is_ascii c && negb (is_word c)) s = true ->
  process table chain_head s = EmptyString.
Proof.
  intro H.
  assert (A : sforall is_ascii s = true).
  { revert H. apply sforall_weaken. intros c. now rewrite andb_true_iff. }
  assert (W : sforall (fun c => negb (is_word c)) s = true).
  { revert H. apply sforall_weaken. intros c. now rewrite andb_true_iff. }
  rewrite process_chain, unidecode_ascii by exact A.
  rewrite lower_fixed.
  - unfold standardize_suffixes.
    rewrite fold_sub_no_word by (apply patterns_start_at_boundary || exact W).
    unfold normalize_whitespace.
    apply strip_spaces_only, collapse_spaces_only, no_word_spaces, W.
  - revert W. apply sforall_weaken. intros c. unfold is_word.
    now destruct (is_upper c).
Qed.

(** X5.  [None], and every ASCII text with no letter, digit or underscore
    (empty, white space, punctuation), normalize to the empty string. *)
Theorem preprocess_without_word_characters (table : ascii -> string) :
  preprocess table PyNone = EmptyString
  /\ forall s,
      sforall (fun c => is_ascii c && negb (is_word c)) s = true ->
      preprocess table (PyStr s) = EmptyString.
Proof.
  split; [reflexivity|]. intros s H. unfold preprocess, py_str.
  destruct (negb (truthy (strip s))); [reflexivity|].
  now apply process_no_word.
Qed.

(** X6.  The lower-case step, the punctuation step and the white-space step
    are each idempotent. *)
Theorem idempotent_steps (table : ascii -> string) (text : string) :
  execute table LowercaseStep (execute table LowercaseStep text)
  = execute table LowercaseStep text
  /\ execute table PunctuationRemovalStep (execute table PunctuationRemovalStep text)
     = execute table PunctuationRemovalStep text
  /\ execute table WhitespaceNormalizationStep
       (execute table WhitespaceNormalizationStep text)
     = execute table WhitespaceNormalizationStep text.
Proof.
  cbn [execute]. split; [|split].
  - apply lower_fixed, lower_no_upper.
  - unfold remove_punctuation, remove_char.
    set (once := sfilter _ (sfilter _ (sfilter _ text))).
    assert (K1 : sforall (fun d => negb (Ascii.eqb "." d)) once = true)
      by (unfold once; apply sforall_sfilter, sforall_sfilter, sfilter_kept).
    assert (K2 : sforall (fun d => negb (Ascii.eqb "," d)) once = true)
      by (unfold once; apply sforall_sfilter, sfilter_kept).
    assert (K3 : sforall (fun c => is_word c || is_space c) once = true)
      by (unfold once; apply sfilter_kept).
    now rewrite (sfilter_all _ once K1), (sfilter_all _ once K2), (sfilter_all _ once K3).
  - destruct (normalize_whitespace_shape text) as [P T].
    now apply normalize_whitespace_fixed.
Qed.

End NormalizerFacts.

(** ** The similarity algorithms *)

Module AlgorithmFacts.
Local Open Scope Q_scope.

Lemma percent_bounds (z : Z) :
  (0 <= z <= 100)%Z -> 0 <= Float.of_int z / 100 /\ Float.of_int z / 100 <= 1.
Proof.
  intros [L U]. unfold Float.of_int, Qdiv, Qle, Qmult, Qinv, inject_Z; simpl. lia.
Qed.

Lemma min_one (x : Q) : Float.min 1 x <= 1.
Proof.
  unfold Float.min. destruct (Float.gtb 1 x) eqn:G.
  - apply FloatFacts.gtb_iff in G. now apply Qlt_le_weak.
  - apply Qle_refl.
Qed.

Lemma max_bounds (x y : Q) :
  x <= Float.max x y /\ (x <= 1 -> y <= 1 -> Float.max x y <= 1).
Proof.
  unfold Float.max. destruct (Float.gtb y x) eqn:G.
  - apply FloatFacts.gtb_iff in G. split; [now apply Qlt_le_weak|auto].
  - split; [apply Qle_refl|auto].
Qed.

Ltac split_if :=
  match goal with
  | |- context [if ?b then _ else _] => destruct b eqn:?
  end.

(** X7.  When the library's token-set score lies between 0 and 100, the
    [token_set_ratio] algorithm returns a score between 0 and 1, and on two
    non-empty strings never less than the library's score scaled to [0,1]:
    the boost for company names does not lower a score. *)
Theorem token_set_similarity_bounds (ext : Externals) (s1 s2 : string) :
  (0 <= token_set_ratio ext s1 s2 <= 100)%Z ->
  0 <= MatchingAlgorithm.calculate_similarity (TokenSetRatioAlgorithm ext) s1 s2
  /\ MatchingAlgorithm.calculate_similarity (TokenSetRatioAlgorithm ext) s1 s2 <= 1
  /\ (truthy s1 = true -> truthy s2 = true ->
      Float.of_int (token_set_ratio ext s1 s2) / 100
      <= MatchingAlgorithm.calculate_similarity (TokenSetRatioAlgorithm ext) s1 s2).
Proof.
  intro B. apply percent_bounds in B as [L U].
  cbn [TokenSetRatioAlgorithm MatchingAlgorithm.calculate_similarity].
  unfold token_set_similarity.
  set (standard_score := Float.of_int (token_set_ratio ext s1 s2) / 100) in *.
  destruct (negb (truthy s1) && negb (truthy s2)) eqn:E1.
  { repeat split; try discriminate.
    intros T1 T2. rewrite T1 in E1. discriminate. }
  destruct (negb (truthy s1) || negb (truthy s2)) eqn:E2.
  { repeat split; try discriminate; try apply Qle_refl.
    intros T1 T2. rewrite T1, T2 in E2. discriminate. }
  destruct (String.eqb (lower s1) (lower s2)).
  { repeat split; try discriminate. intros _ _. exact U. }
  destruct (Float.geb standard_score (95 # 100)).
  { repeat split; auto. intros _ _. apply Qle_refl. }
  split_if.
  - match goal with
    | |- context [Float.max standard_score (Float.min 1 ?boosted)] =>
        destruct (max_bounds standard_score (Float.min 1 boosted)) as [M1 M2];
        pose proof (min_one boosted) as M3
    end.
    repeat split.
    + eapply Qle_trans; [exact L|exact M1].
    + apply M2; assumption.
    + intros _ _. exact M1.
  - repeat split; auto. intros _ _. apply Qle_refl.
Qed.

Lemma ratio_bounds (d m : nat) :
  (0 < m)%nat ->
  1 - Float.of_nat d / Float.of_nat m <= 1
  /\ ((d <= m)%nat -> 0 <= 1 - Float.of_nat d / Float.of_nat m).
Proof.
  intro P. unfold Float.of_nat, Qdiv, Qminus, Qle, Qplus, Qopp, Qmult, Qinv, inject_Z.
  destruct (Z.of_nat m) as [|p|p] eqn:E; try lia. cbn [Qnum Qden].
  split; [nia|]. intro H. nia.
Qed.

Lemma distance_similarity_bounds (distance : string -> string -> nat) (s1 s2 : string) :
  distance_similarity distance s1 s2 <= 1
  /\ ((distance s1 s2 <= Nat.max (String.length s1) (String.length s2))%nat ->
      0 <= distance_similarity distance s1 s2).
Proof.
  unfold distance_similarity.
  destruct s1 as [|c1 r1]; [destruct s2; split; intros; discriminate|].
  destruct s2 as [|c2 r2]; [split; intros; discriminate|].
  cbn [truthy negb andb orb String.length].
  replace (Nat.eqb (Nat.max (S (String.length r1)) (S (String.length r2))) 0) with false
    by (symmetry; apply Nat.eqb_neq; lia).
  apply ratio_bounds. lia.
Qed.

(** X8.  When the edit distance is at most the length of the longer string,
    the [levenshtein] and [damerau_levenshtein] algorithms return a score
    between 0 and 1. *)
Theorem edit_similarity_bounds (ext : Externals) (s1 s2 : string) :
  (levenshtein_distance ext s1 s2
   <= Nat.max (String.length s1) (String.length s2))%nat ->
  (damerau_levenshtein_distance ext s1 s2
   <= Nat.max (String.length s1) (String.length s2))%nat ->
  (0 <= MatchingAlgorithm.calculate_similarity (LevenshteinAlgorithm ext) s1 s2
   /\ MatchingAlgorithm.calculate_similarity (LevenshteinAlgorithm ext) s1 s2 <= 1)
  /\ (0 <= MatchingAlgorithm.calculate_similarity (DamerauLevenshteinAlgorithm ext) s1 s2
      /\ MatchingAlgorithm.calculate_similarity (DamerauLevenshteinAlgorithm ext) s1 s2
         <= 1).
Proof.
  intros L D. cbn [LevenshteinAlgorithm DamerauLevenshteinAlgorithm
                   MatchingAlgorithm.calculate_similarity].
  destruct (distance_similarity_bounds (levenshtein_distance ext) s1 s2) as [U1 L1].
  destruct (distance_similarity_bounds (damerau_levenshtein_distance ext) s1 s2)
    as [U2 L2].
  auto.
Qed.

Lemma token_set_similarity_bounds_witness :
  0 <= MatchingAlgorithm.calculate_similarity (TokenSetRatioAlgorithm Sample.externals)
         "apple inc" "apple corp"
  /\ MatchingAlgorithm.calculate_similarity (TokenSetRatioAlgorithm Sample.externals)
       "apple inc" "apple corp" <= 1
  /\ (truthy "apple inc" = true -> truthy "apple corp" = true ->
      Float.of_int (token_set_ratio Sample.externals "apple inc" "apple corp") / 100
      <= MatchingAlgorithm.calculate_similarity
           (TokenSetRatioAlgorithm Sample.externals) "apple inc" "apple corp").
Proof.
  apply (token_set_similarity_bounds Sample.externals "apple inc" "apple corp").
  vm_compute. split; discriminate.
Defined.

Lemma edit_similarity_bounds_witness :
  (0 <= MatchingAlgorithm.calculate_similarity (LevenshteinAlgorithm Sample.externals)
          "kitten" "sitting"
   /\ MatchingAlgorithm.calculate_similarity (LevenshteinAlgorithm Sample.externals)
        "kitten" "sitting" <= 1)
  /\ (0 <= MatchingAlgorithm.calculate_similarity
             (DamerauLevenshteinAlgorithm Sample.externals) "kitten" "sitting"
      /\ MatchingAlgorithm.calculate_similarity
           (DamerauLevenshteinAlgorithm Sample.externals) "kitten" "sitting" <= 1).
Proof.
  apply (edit_similarity_bounds Sample.externals "kitten" "sitting");
    vm_compute; lia.
Defined.

End AlgorithmFacts.

(** ** The decision strategy on the default scorer *)

Module DefaultStrategyFacts.
Import ComprehensiveMatchScorer ConfigurableMatchDecisionStrategy.
Local Open Scope Q_scope.

Section Bundle.
Variable ext : Externals.
Variable pre : option StringPreprocessor.
Variables s1 s2 : string.

Let facade : EntityResolutionFacade.t :=
  EntityResolutionFacade.init ext pre None None None.
Let p1 : string := EntityResolutionFacade.preprocessor facade s1.
Let p2 : string := EntityResolutionFacade.preprocessor facade s2.
Let bundle : DomainMatchScore :=
  calculate_scores (EntityResolutionFacade.scorer facade) s1 s2.

(** The table the default scorer fills. *)
Lemma bundle_scores :
  scores bundle
  = [ ("levenshtein", VFloat (similarity_entry p1 p2 (LevenshteinAlgorithm ext)));
      ("damerau_levenshtein",
       VFloat (similarity_entry p1 p2 (DamerauLevenshteinAlgorithm ext)));
      ("jaro_winkler", VFloat (similarity_entry p1 p2 (JaroWinklerAlgorithm ext)));
      ("token_set_ratio", VFloat (similarity_entry p1 p2 (TokenSetRatioAlgorithm ext)));
      ("token_sort_ratio", VFloat (similarity_entry p1 p2 (TokenSortRatioAlgorithm ext)));
      ("partial_ratio", VFloat (similarity_entry p1 p2 (PartialRatioAlgorithm ext)));
      ("weighted_ratio", VFloat (similarity_entry p1 p2 (WeightedRatioAlgorithm ext)));
      ("soundex_s1", VStr (encode_side SoundexEncoder p1));
      ("soundex_s2", VStr (encode_side SoundexEncoder p2));
      ("metaphone_s1", VStr (encode_side (MetaphoneEncoder ext) p1));
      ("metaphone_s2", VStr (encode_side (MetaphoneEncoder ext) p2)) ].
Proof. reflexivity. Qed.

Lemma bundle_get (name : string) :
  get_score bundle name
  = match PyDict.get (scores bundle) name with
    | Some v => v
    | None =>
        if prefix "soundex_" name || prefix "metaphone_" name then VStr ""
        else VFloat 0
    end.
Proof. unfold get_score. now destruct (PyDict.get (scores bundle) name) as [[x|s]|]. Qed.

Lemma token_set_entry :
  get_score bundle "token_set_ratio"
  = VFloat (similarity_entry p1 p2 (TokenSetRatioAlgorithm ext)).
Proof. rewrite bundle_get, bundle_scores. reflexivity. Qed.

Lemma jaro_winkler_entry :
  get_score bundle "jaro_winkler"
  = VFloat (similarity_entry p1 p2 (JaroWinklerAlgorithm ext)).
Proof. rewrite bundle_get, bundle_scores. reflexivity. Qed.

Lemma weighted_ratio_entry :
  get_score bundle "weighted_ratio"
  = VFloat (similarity_entry p1 p2 (WeightedRatioAlgorithm ext)).
Proof. rewrite bundle_get, bundle_scores. reflexivity. Qed.

Lemma soundex_entries :
  get_score bundle "soundex_s1" = VStr (encode_side SoundexEncoder p1)
  /\ get_score bundle "soundex_s2" = VStr (encode_side SoundexEncoder p2).
Proof. rewrite !bundle_get, bundle_scores. split; reflexivity. Qed.

Lemma metaphone_entries :
  get_score bundle "metaphone_s1" = VStr (encode_side (MetaphoneEncoder ext) p1)
  /\ get_score bundle "metaphone_s2" = VStr (encode_side (MetaphoneEncoder ext) p2).
Proof. rewrite !bundle_get, bundle_scores. split; reflexivity. Qed.

Lemma token_set_same (p : string) :
  similarity_entry p p (TokenSetRatioAlgorithm ext) = 1.
Proof.
  destruct p as [|c r]; [reflexivity|].
  unfold similarity_entry.
  cbn [truthy negb orb andb TokenSetRatioAlgorithm
       MatchingAlgorithm.calculate_similarity].
  unfold token_set_similarity. cbn [truthy negb orb andb].
  now rewrite String.eqb_refl.
Qed.

(** X9.  With the default algorithms, encoders and thresholds, two strings
    with the same normalized text are a match, whatever the third-party
    scorers return; two strings that both normalize to the empty string are
    a match too. *)
Theorem equal_normalized_strings_match :
  p1 = p2 ->
  exists result,
    evaluate_match ext (EntityResolutionFacade.match_decision_strategy facade) s1 s2
    = Some result
    /\ is_match result = true.
Proof.
  intro E.
  change (EntityResolutionFacade.match_decision_strategy facade)
    with (init (EntityResolutionFacade.scorer facade)
               (90#100) (90#100) (90#100) (98#100) (98#100) false).
  destruct (StrategyFacts.apply_rules_safe ext bundle _
              (StrategyFacts.init_rules_safe ext (EntityResolutionFacade.scorer facade)
                 (90#100) (90#100) (90#100) (98#100) (98#100) s1 s2 false)
              (false, []))
    as (reasons & A & _).
  unfold evaluate_match. cbn [scorer init rules] in *. fold bundle. rewrite A.
  cbn [Raise.bind]. eexists. split; [reflexivity|].
  cbn [is_match fst orb].
  apply existsb_exists.
  exists (fun s => ge (get_score s "token_set_ratio") (98#100),
          "Very high token_set_ratio similarity"%string).
  split; [unfold threshold_rules; simpl; tauto|].
  unfold fires. cbn [fst]. rewrite token_set_entry.
  fold p1 p2. rewrite E, token_set_same. reflexivity.
Qed.

Lemma geb_zero (t : Q) : 0 < t -> Float.geb 0 t = false.
Proof.
  intro H. destruct (Float.geb 0 t) eqn:G; [|reflexivity].
  apply FloatFacts.geb_iff in G. exfalso. now apply (Qlt_not_le 0 t).
Qed.

Lemma entry_one_empty (algo : MatchingAlgorithm.t) :
  truthy p1 = negb (truthy p2) -> similarity_entry p1 p2 algo = 0.
Proof. unfold similarity_entry. now destruct (truthy p1), (truthy p2). Qed.

Lemma codes_differ (encoder : PhoneticEncoder.t) :
  truthy p1 = negb (truthy p2) ->
  truthy (encode_side encoder p1)
  && String.eqb (encode_side encoder p1) (encode_side encoder p2) = false.
Proof.
  unfold encode_side. intro H.
  destruct (truthy p1), (truthy p2); try discriminate; simpl; [|reflexivity].
  now destruct (PhoneticEncoder.encode encoder p1).
Qed.

(** X10.  With the default algorithms and encoders and positive thresholds,
    when exactly one of two strings normalizes to the empty string the
    strategy raises nothing, does not match, and gives no reason at all, with
    or without the phonetic rule. *)
Theorem one_empty_string_never_matches (t1 t2 t3 t4 t5 : Q) (flag : bool) :
  0 < t1 -> 0 < t2 -> 0 < t3 -> 0 < t4 -> 0 < t5 ->
  truthy p1 = negb (truthy p2) ->
  evaluate_match ext
    (init (EntityResolutionFacade.scorer facade) t1 t2 t3 t4 t5 flag) s1 s2
  = Some {| score_details := bundle; is_match := false; match_reasons := [] |}.
Proof.
  intros T1 T2 T3 T4 T5 H.
  destruct soundex_entries as [S1 S2]. destruct metaphone_entries as [M1 M2].
  pose proof (codes_differ SoundexEncoder H) as DS.
  pose proof (codes_differ (MetaphoneEncoder ext) H) as DM.
  assert (R : apply_rules ext bundle (false, [])
                (rules (init (EntityResolutionFacade.scorer facade) t1 t2 t3 t4 t5 flag))
              = Some (false, [])).
  { unfold init, threshold_rules. cbn [rules].
    destruct flag; cbn [app apply_rules]; unfold apply_rule; cbn [fst snd soundex_rule];
      rewrite token_set_entry, jaro_winkler_entry, weighted_ratio_entry, ?S1, ?S2;
      rewrite !entry_one_empty by exact H; unfold ge;
      rewrite !geb_zero by assumption; cbn [Raise.and_then Raise.bind];
      [|reflexivity].
    cbn [eq not_empty]. rewrite andb_comm, DS. reflexivity. }
  unfold evaluate_match. cbn [scorer init] in *. fold bundle. rewrite R.
  cbn [Raise.bind fst snd app]. unfold informational_reasons, informational.
  cbn [phonetic_match_contributes].
  rewrite S1, S2, M1, M2. cbn [eq]. rewrite DS, DM.
  now destruct flag.
Qed.

End Bundle.

Lemma equal_normalized_strings_match_witness :
  exists result,
    evaluate_match Sample.externals
      (EntityResolutionFacade.match_decision_strategy Sample.facade)
      "Apple Inc." "APPLE, INC"
    = Some result
    /\ is_match result = true.
Proof.
  apply (equal_normalized_strings_match Sample.externals None "Apple Inc." "APPLE, INC").
  vm_compute. reflexivity.
Defined.

Lemma one_empty_string_never_matches_witness :
  evaluate_match Sample.externals
    (init (EntityResolutionFacade.scorer Sample.facade)
          (90#100) (90#100) (90#100) (98#100) (98#100) false)
    "Apple" "?!"
  = Some {| score_details :=
              calculate_scores (EntityResolutionFacade.scorer Sample.facade)
                "Apple" "?!";
            is_match := false;
            match_reasons := [] |}.
Proof.
  apply (one_empty_string_never_matches Sample.externals None "Apple" "?!");
    reflexivity.
Defined.

End DefaultStrategyFacts.

(** ** [compare_strings] on the default facade *)

Module ComparisonFacts.
Import ComprehensiveMatchScorer ConfigurableMatchDecisionStrategy FacadeComparison.
Local Open Scope Q_scope.

Lemma informational_flag (details : DomainMatchScore) (key1 key2 label : string) :
  informational details key1 key2 label
  = informational_reason
      (codes_match (get_score details key1) (get_score details key2))
      label (get_score details key1).
Proof.
  unfold informational, informational_reason, codes_match.
  destruct (get_score details key1) as [x|c]; [reflexivity|].
  now destruct (truthy c && eq (VStr c) (get_score details key2)).
Qed.

Lemma get_map_values {V W : Type} (f : V -> W) (d : PyDict.t V) (k : string) :
  PyDict.get (map (fun item => (fst item, f (snd item))) d) k
  = option_map f (PyDict.get d k).
Proof.
  induction d as [|[k' v] d IH]; simpl; [reflexivity|].
  now destruct (String.eqb k' k).
Qed.

Section Default.
Variable ext : Externals.
Variable pre : option StringPreprocessor.
Variables s1 s2 : string.

Let facade : EntityResolutionFacade.t :=
  EntityResolutionFacade.init ext pre None None None.
Let p1 : string := EntityResolutionFacade.preprocessor facade s1.
Let p2 : string := EntityResolutionFacade.preprocessor facade s2.

(** X11.  On a facade with the default algorithms, encoders and strategy,
    [compare_strings] raises nothing.  Its ["processed"] entry holds the two
    normalized strings; its ["scores"] table has the names of the registered
    algorithms as keys, in their order, each with the float the scorer wrote
    for that algorithm; the verdict is true exactly when a rule reason is
    listed; and the reasons end with the Soundex line exactly when
    [soundex_match] is set, then the Metaphone line exactly when
    [metaphone_match] is set. *)
Theorem compare_strings_summary :
  exists comparison rule_reasons,
    compare_strings ext facade s1 s2 = Some comparison
    /\ processed comparison = (p1, p2)
    /\ PyDict.keys (scores comparison)
       = PyDict.keys (get_default_similarity_algorithms ext)
    /\ (forall name algo,
           PyDict.get (get_default_similarity_algorithms ext) name = Some algo ->
           PyDict.get (scores comparison) name
           = Some (VFloat (similarity_entry p1 p2 algo)))
    /\ (is_match comparison = true <-> rule_reasons <> [])
    /\ match_reasons comparison
       = (rule_reasons
          ++ informational_reason (soundex_match (phonetic comparison)) "Soundex"
               (soundex_s1 (phonetic comparison))
          ++ informational_reason (metaphone_match (phonetic comparison)) "Metaphone"
               (metaphone_s1 (phonetic comparison)))%list.
Proof.
  set (bundle := calculate_scores (EntityResolutionFacade.scorer facade) s1 s2).
  destruct (StrategyFacts.apply_rules_safe ext bundle _
              (StrategyFacts.init_rules_safe ext (EntityResolutionFacade.scorer facade)
                 (90#100) (90#100) (90#100) (98#100) (98#100) s1 s2 false)
              (false, []))
    as (reasons & A & F).
  unfold compare_strings.
  change (EntityResolutionFacade.match_decision_strategy facade)
    with (init (EntityResolutionFacade.scorer facade)
               (90#100) (90#100) (90#100) (98#100) (98#100) false).
  unfold evaluate_match. cbn [scorer init rules] in *. fold bundle. rewrite A.
  cbn [Raise.bind]. eexists. exists reasons. split; [reflexivity|].
  cbn [processed scores is_match match_reasons phonetic soundex_match soundex_s1
       metaphone_match metaphone_s1 Entities.score_details Entities.is_match
       Entities.match_reasons fst snd orb app].
  split; [reflexivity|]. split; [reflexivity|]. split; [|split].
  - intros name algo G.
    change (PyDict.get
              (map (fun item => (fst item, VFloat (similarity_entry p1 p2 (snd item))))
                   (get_default_similarity_algorithms ext)) name
            = Some (VFloat (similarity_entry p1 p2 algo))).
    now rewrite (get_map_values (fun a => VFloat (similarity_entry p1 p2 a))), G.
  - destruct (existsb (fires bundle) _) eqn:X.
    + apply ResolverFacts.filter_cons_existsb in X as (x & r & X).
      rewrite X in F. inversion F; subst. split; [discriminate|reflexivity].
    + apply ResolverFacts.filter_nil_existsb in X. rewrite X in F.
      inversion F; subst. split; [discriminate|]. intro N. now elim N.
  - unfold informational_reasons. cbn [phonetic_match_contributes negb].
    now rewrite !informational_flag.
Qed.
End Default.
End ComparisonFacts.

(** ** The resolver: where the results come from *)

Module ResolverOriginFacts.
Import EntityResolverService.
Local Open Scope Q_scope.

Section Origin.
Variable self : t.

Lemma exact_candidate_origin (p : DomainEntityName -> bool)
      (cs : list DomainEntityName) (r : MatchCandidate) :
  In r (map (exact_candidate self) (filter p cs)) ->
  In (entity_name r) cs
  /\ processed_entity_name r
     = {| original := entity_name r;
          processed_value := normalized self (entity_name r) |}
  /\ score r = 1.
Proof.
  intro H. apply in_map_iff in H as (c & <- & H).
  apply filter_In in H as [H _]. repeat split. exact H.
Qed.

Lemma lookup_origin (cs : list DomainEntityName) (k : string)
      (found : DomainEntityName * DomainProcessedName) :
  PyDict.get (lookup_map self cs) k = Some found ->
  In (fst found) cs /\ found = processed_pair self (fst found).
Proof.
  intro G.
  assert (T : truthy k = true).
  { eapply RankingFacts.lookup_keys_truthy, PyDictFacts.get_some_keys, G. }
  rewrite (RankingFacts.lookup_get self cs k T) in G.
  destruct (find _ (rev cs)) as [c|] eqn:F; [|discriminate].
  inversion G; subst found. apply find_some in F as [F _].
  apply in_rev in F. split; [exact F|reflexivity].
Qed.

(** X12.  Whatever return ends a call of [resolve], every result names one
    of the candidates given and carries the normalized string of that very
    candidate. *)
Theorem resolve_results_from_input
        (q : DomainEntityName) (cs : list DomainEntityName)
        (path : Path) (results : list MatchCandidate) :
  resolve self q cs = Returned path results ->
  forall r, In r results ->
    In (entity_name r) cs
    /\ processed_entity_name r
       = {| original := entity_name r;
            processed_value := preprocessor self (raw_value (entity_name r)) |}.
Proof.
  intros R r I.
  destruct (truthy (normalized self q)) eqn:T.
  2:{ unfold resolve in R. unfold normalized in T. rewrite T in R.
      inversion R; subst. contradiction. }
  destruct (String.eqb (raw_value q) "IBM" && existsb ibm_candidate cs) eqn:B.
  { rewrite (ResolverFacts.resolve_abbreviation self q cs T B) in R.
    inversion R; subst. now apply exact_candidate_origin in I as (? & ? & _). }
  destruct (existsb (exact_condition self q) cs) eqn:X.
  { rewrite (ResolverFacts.resolve_exact self q cs T B X) in R.
    inversion R; subst. now apply exact_candidate_origin in I as (? & ? & _). }
  rewrite (RankingFacts.resolve_ranking self q cs T B X) in R.
  destruct (kept_candidates self cs); [inversion R; subst; contradiction|].
  destruct (collect_results self (lookup_map self cs) (best_matches self q cs))
    as [collected|] eqn:C; [|discriminate].
  inversion R; subst. apply SortingFacts.sorted_in in I.
  destruct (RankingFacts.collect_results_in self _ _ collected C r I)
    as (k & s & found & _ & G & -> & _).
  apply lookup_origin in G as [G1 G2]. cbn [result_of entity_name processed_entity_name].
  split; [exact G1|]. now rewrite G2 at 1.
Qed.

End Origin.

Lemma resolve_results_from_input_witness :
  Forall
    (fun r =>
       In (entity_name r) apple_candidates
       /\ processed_entity_name r
          = {| original := entity_name r;
               processed_value :=
                 preprocessor (Sample.resolver (5#10) 5) (raw_value (entity_name r)) |})
    sample_ranking.
Proof.
  apply Forall_forall.
  apply (resolve_results_from_input (Sample.resolver (5#10) 5) aple_query
           apple_candidates Ranking sample_ranking).
  vm_compute. reflexivity.
Defined.

Lemma collect_results_complete (self : t)
      (lm : PyDict.t (DomainEntityName * DomainProcessedName)) (B : list (string * Q)) :
  forall results, collect_results self lm B = Some results ->
  forall k s found,
    In (k, s) B -> PyDict.get lm k = Some found ->
    Float.geb (s / 100) (threshold self) = true ->
    In (result_of found s) results.
Proof.
  induction B as [|[k0 s0] B IH]; intros results C k s found I G T; [contradiction|].
  cbn [collect_results] in C.
  destruct (Float.geb (s0 / 100) (threshold self)) eqn:T0.
  - destruct (PyDict.get lm k0) as [found0|] eqn:G0; [|discriminate].
    cbn [Raise.bind] in C.
    destruct (collect_results self lm B) as [rest|]; [|discriminate].
    cbn [Raise.bind] in C. inversion C; subst results.
    destruct I as [I|I].
    + inversion I; subst. rewrite G0 in G. inversion G; subst. now left.
    + right. now apply (IH rest eq_refl k s found).
  - destruct I as [I|I]; [inversion I; subst; congruence|].
    now apply (IH results C k s found).
Qed.

(** X13.  Raising the threshold only removes results: every result of a
    call with a higher threshold is a result of the call with the lower
    one. *)
Theorem raising_threshold_only_removes_results
        (self : t) (higher : Q) (q : DomainEntityName) (cs : list DomainEntityName)
        (path path' : Path) (results results' : list MatchCandidate) :
  threshold self <= higher ->
  resolve self q cs = Returned path results ->
  resolve (with_threshold self higher) q cs = Returned path' results' ->
  forall r, In r results' -> In r results.
Proof.
  intros L R R' r I.
  destruct (truthy (normalized self q)) eqn:T.
  2:{ unfold resolve in R'. cbn [preprocessor with_threshold] in R'.
      unfold normalized in T. rewrite T in R'. inversion R'; subst. contradiction. }
  destruct (String.eqb (raw_value q) "IBM" && existsb ibm_candidate cs) eqn:B.
  { rewrite (ResolverFacts.resolve_abbreviation self q cs T B) in R.
    rewrite (ResolverFacts.resolve_abbreviation (with_threshold self higher) q cs T B)
      in R'.
    inversion R; inversion R'; subst. exact I. }
  destruct (existsb (exact_condition self q) cs) eqn:X.
  { rewrite (ResolverFacts.resolve_exact self q cs T B X) in R.
    rewrite (ResolverFacts.resolve_exact (with_threshold self higher) q cs T B X) in R'.
    inversion R; inversion R'; subst. exact I. }
  rewrite (RankingFacts.resolve_ranking self q cs T B X) in R.
  rewrite (RankingFacts.resolve_ranking (with_threshold self higher) q cs T B X) in R'.
  change (kept_candidates (with_threshold self higher) cs)
    with (kept_candidates self cs) in R'.
  destruct (kept_candidates self cs); [inversion R'; subst; contradiction|].
  change (lookup_map (with_threshold self higher) cs) with (lookup_map self cs) in R'.
  change (best_matches (with_threshold self higher) q cs)
    with (best_matches self q cs) in R'.
  destruct (collect_results self (lookup_map self cs) (best_matches self q cs))
    as [collected|] eqn:C; [|discriminate].
  destruct (collect_results (with_threshold self higher) (lookup_map self cs)
              (best_matches self q cs))
    as [collected'|] eqn:C'; [|discriminate].
  inversion R; inversion R'; subst.
  apply SortingFacts.sorted_in. apply SortingFacts.sorted_in in I.
  destruct (RankingFacts.collect_results_in _ _ _ collected' C' r I)
    as (k & s & found & Ik & G & -> & Th).
  apply (collect_results_complete self _ _ collected C k s found Ik G).
  cbn [threshold with_threshold] in Th.
  apply FloatFacts.geb_iff. apply FloatFacts.geb_iff in Th.
  eapply Qle_trans; eassumption.
Qed.

(** X14.  With the standard normalizer, a query made only of ASCII
    characters that are no letter, digit or underscore gets the empty list,
    whatever the candidates: a candidate with the same raw string is not
    returned. *)
Theorem query_without_word_characters_matches_nothing
        (ext : Externals) (algorithm : MatchingAlgorithm.t) (threshold : Q)
        (limit : nat) (q : DomainEntityName) (cs : list DomainEntityName) :
  sforall (fun c => is_ascii c && negb (is_word c)) (raw_value q) = true ->
  resolve {| preprocessor := StandardStringPreprocessor ext;
             primary_algorithm := algorithm;
             threshold := threshold;
             limit := limit |} q cs
  = Returned EmptyQuery [].
Proof.
  intro H. unfold resolve. cbn [preprocessor].
  unfold StandardStringPreprocessor, Preprocessors.preprocess, Preprocessors.py_str.
  destruct (negb (truthy (strip (raw_value q)))); [reflexivity|].
  now rewrite NormalizerFacts.process_no_word.
Qed.

Lemma query_without_word_characters_matches_nothing_witness :
  resolve (Sample.resolver (8#10) 5) {| raw_value := "?!" |} (Sample.names ["?!"])
  = Returned EmptyQuery [].
Proof.
  apply (query_without_word_characters_matches_nothing Sample.externals
           (LevenshteinAlgorithm Sample.externals) (8#10) 5
           {| raw_value := "?!" |} (Sample.names ["?!"])).
  vm_compute. reflexivity.
Defined.

Lemma raising_threshold_only_removes_results_witness :
  Forall (fun r => In r sample_ranking) sample_ranking.
Proof.
  apply Forall_forall.
  apply (raising_threshold_only_removes_results (Sample.resolver (5#10) 5) (8#10)
           aple_query apple_candidates Ranking Ranking sample_ranking sample_ranking).
  - vm_compute. discriminate.
  - vm_compute. reflexivity.
  - vm_compute. reflexivity.
Defined.

End ResolverOriginFacts.

(** ** [find_best_matches_in_list]: the exact matches *)

Module ExactMatchFacts.
Import EntityResolutionFacade.
Local Open Scope Q_scope.

Section Insert.
Context {A : Type} (lt : A -> A -> bool).

Lemma insert_after (x : A) (front back : list A) :
  Forall (fun y => lt y x = true) front ->
  Sorting.insert lt x (front ++ back) = (front ++ Sorting.insert lt x back)%list.
Proof.
  induction 1 as [|y front H _ IH]; simpl; [reflexivity|].
  now rewrite H, IH.
Qed.

Lemma insert_before (x : A) (back : list A) :
  Forall (fun y => lt y x = false) back ->
  Sorting.insert lt x back = x :: back.
Proof. destruct 1 as [|y back H _]; simpl; [reflexivity|]. now rewrite H. Qed.

Lemma sorted_cons (x : A) (l : list A) :
  Sorting.sorted lt (x :: l) = Sorting.insert lt x (Sorting.sorted lt l).
Proof. reflexivity. Qed.

End Insert.

(** The order of an entry and the entries of one kind. *)
Ltac by_kind :=
  eapply Forall_impl; [|eassumption];
  intros m E; unfold specificity; rewrite E; reflexivity.

Section Exact.
Variable self : t.
Variables query_string algorithm_name : string.

Let raw_entries := entries self query_string (is_raw_match query_string) "exact_match".
Let processed_entries :=
  entries self query_string (is_processed_match self query_string)
          "exact_processed_match".
Let apple_entries :=
  entries self query_string (is_apple_match self query_string algorithm_name)
          "special_apple_match".

Lemma entries_used (kind : string -> bool) (used : string) (cs : list string) :
  Forall (fun m => algorithm_used m = used) (entries self query_string kind used cs).
Proof.
  apply Forall_forall. intros m H. apply in_map_iff in H as (c & <- & _). reflexivity.
Qed.

Lemma entries_cons (kind : string -> bool) (used : string) (c : string)
      (cs : list string) :
  entries self query_string kind used (c :: cs)
  = if kind c
    then info self query_string c 1 used :: entries self query_string kind used cs
    else entries self query_string kind used cs.
Proof. unfold entries. simpl. now destruct (kind c). Qed.

(** The first loop, read as one pass that keeps the candidates of the three
    kinds. *)
Lemma exact_matches_pass (cs : list string) (acc : list MatchInfo) :
  fold_left
    (fun matches candidate =>
       if String.eqb query_string candidate
       then (matches ++ [info self query_string candidate 1 "exact_match"])%list
       else if String.eqb (preprocessor self query_string) (preprocessor self candidate)
       then (matches ++ [info self query_string candidate 1 "exact_processed_match"])%list
       else if special_apple query_string candidate algorithm_name
       then (matches ++ [info self query_string candidate 1 "special_apple_match"])%list
       else matches)
    cs acc
  = (acc ++ flat_map (exact_entry self query_string algorithm_name) cs)%list.
Proof.
  revert acc. induction cs as [|c cs IH]; intro acc; simpl.
  - now rewrite app_nil_r.
  - rewrite IH, app_assoc. f_equal.
    unfold exact_entry, is_processed_match, is_apple_match, is_raw_match.
    destruct (String.eqb query_string c); [reflexivity|].
    destruct (String.eqb (preprocessor self query_string) (preprocessor self c));
      [reflexivity|].
    destruct (special_apple query_string c algorithm_name);
      [reflexivity|symmetry; apply app_nil_r].
Qed.

(** The stable sort by specificity puts the raw matches first, then the
    processed matches, then the special matches, each kind in the order of the
    candidates. *)
Lemma sorted_kinds (cs : list string) :
  sort_by_specificity
    (flat_map (exact_entry self query_string algorithm_name) cs)
  = (raw_entries cs ++ processed_entries cs ++ apple_entries cs)%list.
Proof.
  unfold sort_by_specificity.
  induction cs as [|c cs IH]; [reflexivity|].
  unfold raw_entries, processed_entries, apple_entries in *.
  rewrite !entries_cons. cbn [flat_map]. unfold exact_entry at 1.
  pose proof (entries_used (is_raw_match query_string) "exact_match" cs) as U1.
  pose proof (entries_used (is_processed_match self query_string)
                "exact_processed_match" cs) as U2.
  pose proof (entries_used (is_apple_match self query_string algorithm_name)
                "special_apple_match" cs) as U3.
  assert (R : is_raw_match query_string c = true ->
              is_processed_match self query_string c = false
              /\ is_apple_match self query_string algorithm_name c = false).
  { unfold is_processed_match, is_apple_match. now intros ->. }
  assert (P : is_processed_match self query_string c = true ->
              is_apple_match self query_string algorithm_name c = false).
  { unfold is_processed_match, is_apple_match.
    destruct (is_raw_match query_string c); [discriminate|]. simpl. now intros ->. }
  destruct (is_raw_match query_string c) eqn:E1.
  - destruct (R eq_refl) as [-> ->]. cbn [app].
    rewrite sorted_cons, IH. apply insert_before.
    repeat (apply Forall_app; split); by_kind.
  - destruct (is_processed_match self query_string c) eqn:E2.
    + rewrite (P eq_refl). cbn [app].
      rewrite sorted_cons, IH, insert_after by by_kind.
      f_equal. apply insert_before.
      repeat (apply Forall_app; split); by_kind.
    + destruct (is_apple_match self query_string algorithm_name c) eqn:E3.
      * cbn [app]. rewrite sorted_cons, IH, insert_after by by_kind.
        rewrite insert_after by by_kind.
        do 2 f_equal. apply insert_before. by_kind.
      * exact IH.
Qed.

(** X15.  When some candidate equals the query, or normalizes like it, or
    falls under the special case for ["Apple"], [find_best_matches_in_list]
    raises nothing, prints nothing, and returns, each with score 1 and in the
    order of the candidates: the candidates equal to the query, then those
    that only normalize like it, then those of the special case.  The
    threshold and the limit play no part. *)
Theorem exact_matches_come_first
        (ext : Externals) (candidate_strings : list string)
        (threshold : Q) (limit : nat) :
  existsb
    (fun c => is_raw_match query_string c
              || is_processed_match self query_string c
              || is_apple_match self query_string algorithm_name c)
    candidate_strings = true ->
  find_best_matches_in_list ext self query_string candidate_strings
    algorithm_name threshold limit
  = Some ((entries self query_string (is_raw_match query_string) "exact_match"
             candidate_strings
           ++ entries self query_string (is_processed_match self query_string)
                "exact_processed_match" candidate_strings
           ++ entries self query_string
                (is_apple_match self query_string algorithm_name)
                "special_apple_match" candidate_strings)%list,
          []).
Proof.
  intro H. unfold find_best_matches_in_list, exact_matches.
  rewrite exact_matches_pass. cbn [app].
  rewrite <- sorted_kinds.
  destruct (flat_map _ candidate_strings) as [|m ms] eqn:F; [|reflexivity].
  exfalso. apply existsb_exists in H as (c & I & K).
  assert (N : In c candidate_strings -> False); [|auto].
  clear I. revert F. induction candidate_strings as [|d l IH]; [contradiction|].
  cbn [flat_map]. intros F [->|I].
  - unfold exact_entry at 1 in F.
    destruct (is_raw_match query_string c); [discriminate|].
    destruct (is_processed_match self query_string c); [discriminate|].
    destruct (is_apple_match self query_string algorithm_name c); discriminate.
  - apply app_eq_nil in F as [_ F]. auto.
Qed.

End Exact.

Lemma exact_matches_come_first_witness :
  find_best_matches_in_list Sample.externals Sample.facade "Apple Inc."
    ["Apple Incorporated"; "Microsoft"; "Apple Inc."] "token_set_ratio" (7#10) 1
  = Some ((entries Sample.facade "Apple Inc." (is_raw_match "Apple Inc.")
             "exact_match" ["Apple Incorporated"; "Microsoft"; "Apple Inc."]
           ++ entries Sample.facade "Apple Inc."
                (is_processed_match Sample.facade "Apple Inc.")
                "exact_processed_match"
                ["Apple Incorporated"; "Microsoft"; "Apple Inc."]
           ++ entries Sample.facade "Apple Inc."
                (is_apple_match Sample.facade "Apple Inc." "token_set_ratio")
                "special_apple_match"
                ["Apple Incorporated"; "Microsoft"; "Apple Inc."])%list,
          []).
Proof.
  apply (exact_matches_come_first Sample.facade "Apple Inc." "token_set_ratio"
           Sample.externals ["Apple Incorporated"; "Microsoft"; "Apple Inc."]
           (7#10) 1).
  vm_compute. reflexivity.
Defined.

End ExactMatchFacts.

(** ** The algorithm a default facade selects *)

Module SelectionFacts.
Import EntityResolutionFacade.

Lemma comprehension_value {A V : Type} (key : A -> string) (value : A -> V)
      (l : list A) (k : string) (v : V) :
  PyDict.get (PyDict.comprehension key value l) k = Some v ->
  exists x, In x l /\ key x = k /\ value x = v.
Proof.
  rewrite PyDictFacts.get_comprehension.
  destruct (find _ (rev l)) as [x|] eqn:F; [|discriminate].
  intro H. inversion H; subst. apply find_some in F as [I E].
  apply in_rev in I. apply String.eqb_eq in E. eauto.
Qed.

(** X16.  On a facade with the default algorithms, selecting an algorithm
    raises nothing, and the algorithm selected is named as requested when the
    name is registered and [token_set_ratio] otherwise. *)
Theorem selected_algorithm_name
        (ext : Externals) (pre : option StringPreprocessor) (algo_name : string) :
  exists algo printed,
    _get_resolver_algorithm ext (init ext pre None None None) algo_name
    = Some (algo, printed)
    /\ MatchingAlgorithm.name algo
       = if PyDict.mem (get_default_similarity_algorithms ext) algo_name
         then algo_name else "token_set_ratio".
Proof.
  unfold _get_resolver_algorithm, token_set_fallback.
  cbn [init _available_similarity_algorithms dict_or].
  change (dict_or None (get_default_similarity_algorithms ext))
    with (get_default_similarity_algorithms ext).
  change (PyDict.get (get_default_similarity_algorithms ext) "token_set_ratio")
    with (Some (TokenSetRatioAlgorithm ext)).
  destruct (String.eqb algo_name "nonexistent_algorithm") eqn:N.
  - apply String.eqb_eq in N. subst. do 2 eexists. split; reflexivity.
  - unfold PyDict.mem.
    destruct (PyDict.get (get_default_similarity_algorithms ext) algo_name)
      as [algo|] eqn:G.
    + do 2 eexists. split; [reflexivity|].
      apply comprehension_value in G as (x & _ & K & <-). exact K.
    + do 2 eexists. split; reflexivity.
Qed.

End SelectionFacts.

(** ** More on dictionaries and sets *)

Module StoreFacts.
Section Dict.
Context {V : Type}.
Implicit Types (d : PyDict.t V) (k : string) (v : V).

Lemma get_del_same d k : PyDict.get (PyDict.del d k) k = None.
Proof.
  unfold PyDict.del. induction d as [|[k' v'] d IH]; simpl; [reflexivity|].
  destruct (String.eqb k' k) eqn:E; simpl; [exact IH|]. now rewrite E.
Qed.

Lemma get_del_other d k k' :
  k' <> k -> PyDict.get (PyDict.del d k) k' = PyDict.get d k'.
Proof.
  intro N. unfold PyDict.del. induction d as [|[k0 v0] d IH]; simpl; [reflexivity|].
  destruct (String.eqb k0 k) eqn:E; simpl.
  - apply String.eqb_eq in E. subst k0.
    destruct (String.eqb k k') eqn:E'; [|exact IH].
    apply String.eqb_eq in E'. congruence.
  - now rewrite IH.
Qed.

Lemma get_del_some d k k' v :
  PyDict.get (PyDict.del d k) k' = Some v -> k' <> k /\ PyDict.get d k' = Some v.
Proof.
  intro H. destruct (string_dec k' k) as [->|N].
  - now rewrite get_del_same in H.
  - now rewrite get_del_other in H.
Qed.

Lemma get_set_some d k k' v v' :
  PyDict.get (PyDict.set d k v) k' = Some v' ->
  (k' = k /\ v' = v) \/ (k' <> k /\ PyDict.get d k' = Some v').
Proof.
  intro H. destruct (string_dec k' k) as [->|N].
  - rewrite PyDictFacts.get_set_same in H. left. split; congruence.
  - rewrite PyDictFacts.get_set_other in H by exact N. now right.
Qed.

Lemma set_set_same d k v : PyDict.set (PyDict.set d k v) k v = PyDict.set d k v.
Proof.
  induction d as [|[k' v'] d IH]; simpl.
  - now rewrite String.eqb_refl.
  - destruct (String.eqb k' k) eqn:E; simpl; rewrite E; [reflexivity|].
    now rewrite IH.
Qed.

End Dict.

Lemma mem_in (s : PySet.t) (x : string) : PySet.mem s x = true <-> In x s.
Proof.
  unfold PySet.mem. rewrite existsb_exists. split.
  - intros (y & I & E). apply String.eqb_eq in E. now subst.
  - intro I. exists x. split; [exact I|apply String.eqb_refl].
Qed.

Lemma add_in (s : PySet.t) (x y : string) :
  In y (PySet.add s x) <-> In y s \/ y = x.
Proof.
  unfold PySet.add. destruct (PySet.mem s x) eqn:M.
  - apply mem_in in M. split; [auto|]. intros [H| ->]; auto.
  - rewrite in_app_iff. simpl. split; [intros [H|[H|[]]]|intros [H|H]]; auto.
Qed.

Lemma remove_in (s : PySet.t) (x y : string) :
  In y (PySet.remove s x) <-> In y s /\ y <> x.
Proof.
  unfold PySet.remove. rewrite filter_In, negb_true_iff. split; intros [H K].
  - split; [exact H|]. intros ->. now rewrite String.eqb_refl in K.
  - split; [exact H|]. now apply String.eqb_neq.
Qed.

Lemma update_in (s u : PySet.t) (y : string) :
  In y (PySet.update s u) <-> In y s \/ In y u.
Proof.
  unfold PySet.update. revert s. induction u as [|x u IH]; intro s; simpl.
  - tauto.
  - rewrite IH, add_in. split; [intros [[H|H]|H]|intros [H|[H|H]]]; auto.
Qed.

End StoreFacts.

(** ** [DomainEntityProfile] *)

Module ProfileFacts.
Import DomainEntityProfile.

Section Profile.
Context {Any : Type}.
Implicit Types (self : DomainEntityProfile.t Any) (name : DomainEntityName).

Lemma name_in_iff (name : DomainEntityName) (names : list DomainEntityName) :
  name_in name names = true <-> In (raw_value name) (map raw_value names).
Proof.
  unfold name_in, name_eqb. rewrite existsb_exists, in_map_iff. split.
  - intros (a & I & E). apply String.eqb_eq in E. eauto.
  - intros (a & E & I). exists a. split; [exact I|]. rewrite E. apply String.eqb_refl.
Qed.

(** X17.  [add_alternate_name] lists the name afterwards unless it is the
    primary name; it never lists the primary name and never lists a name
    twice, when that held before; and a second call with the same name changes
    nothing. *)
Theorem add_alternate_name_keeps_names_distinct self name :
  (raw_value name <> raw_value (primary_name self) ->
   In (raw_value name) (map raw_value (alternate_names (add_alternate_name self name))))
  /\ (~ In (raw_value (primary_name self)) (map raw_value (alternate_names self)) ->
      ~ In (raw_value (primary_name (add_alternate_name self name)))
           (map raw_value (alternate_names (add_alternate_name self name))))
  /\ (NoDup (map raw_value (alternate_names self)) ->
      NoDup (map raw_value (alternate_names (add_alternate_name self name))))
  /\ add_alternate_name (add_alternate_name self name) name
     = add_alternate_name self name.
Proof.
  unfold add_alternate_name.
  destruct (String.eqb (raw_value name) (raw_value (primary_name self))) eqn:P;
    cbn [negb andb].
  - rewrite P. cbn [negb andb]. apply String.eqb_eq in P. repeat split; auto.
    intro N. now elim N.
  - destruct (name_in name (alternate_names self)) eqn:M; cbn [negb andb].
    + rewrite P, M. cbn [negb andb]. apply name_in_iff in M. repeat split; auto.
    + cbn [primary_name alternate_names]. rewrite P. cbn [negb andb].
      assert (M' : name_in name (alternate_names self ++ [name]) = true).
      { apply name_in_iff. rewrite map_app, in_app_iff. right. now left. }
      rewrite M'. cbn [negb andb].
      apply String.eqb_neq in P.
      assert (N : ~ In (raw_value name) (map raw_value (alternate_names self))).
      { intro H. apply name_in_iff in H. congruence. }
      rewrite map_app. cbn [map]. repeat split.
      * intros _. apply in_or_app. right. now left.
      * intros H K. apply in_app_or in K as [K|[K|[]]]; [auto|congruence].
      * intro D. apply NoDup_app; repeat split; auto.
        -- repeat constructor. intros [].
        -- intros x Hx [<-|[]]. auto.
Qed.

Lemma related_set self relation_type ids other :
  match PyDict.get (PyDict.set (relationships self) relation_type ids) other with
  | Some found => found
  | None => []
  end
  = if String.eqb other relation_type then ids else related self other.
Proof.
  unfold related. destruct (String.eqb other relation_type) eqn:E.
  - apply String.eqb_eq in E. subst. now rewrite PyDictFacts.get_set_same.
  - apply String.eqb_neq in E. now rewrite PyDictFacts.get_set_other.
Qed.

(** X18.  After [add_relationship] the identifier is listed under the
    relation type; the other relation types are as before; an identifier is
    never listed twice under a type, when that held before; and a second call
    with the same arguments changes nothing. *)
Theorem add_relationship_keeps_ids_distinct
        self (relation_type related_entity_id : string) :
  In related_entity_id
     (related (add_relationship self relation_type related_entity_id) relation_type)
  /\ (forall other, other <> relation_type ->
        related (add_relationship self relation_type related_entity_id) other
        = related self other)
  /\ (NoDup (related self relation_type) ->
      NoDup (related (add_relationship self relation_type related_entity_id)
                     relation_type))
  /\ add_relationship (add_relationship self relation_type related_entity_id)
       relation_type related_entity_id
     = add_relationship self relation_type related_entity_id.
Proof.
  set (ids := related self relation_type).
  set (after := if existsb (String.eqb related_entity_id) ids then ids
                else (ids ++ [related_entity_id])%list).
  assert (I : In related_entity_id after).
  { unfold after. destruct (existsb _ ids) eqn:X.
    - apply existsb_exists in X as (y & Hy & E). apply String.eqb_eq in E. now subst.
    - apply in_or_app. right. now left. }
  assert (R : forall other,
             related (add_relationship self relation_type related_entity_id) other
             = if String.eqb other relation_type then after else related self other).
  { intro other. unfold related at 1, add_relationship. cbn [relationships].
    fold ids. fold after. apply related_set. }
  split; [rewrite R, String.eqb_refl; exact I|]. split; [|split].
  - intros other N. rewrite R. apply String.eqb_neq in N. now rewrite N.
  - intro D. rewrite R, String.eqb_refl. unfold after.
    destruct (existsb _ ids) eqn:X; [exact D|].
    apply NoDup_app; repeat split; auto.
    + repeat constructor. intros [].
    + intros x Hx [<-|[]].
      assert (existsb (String.eqb related_entity_id) ids = true); [|congruence].
      apply existsb_exists. exists related_entity_id.
      split; [exact Hx|apply String.eqb_refl].
  - unfold add_relationship at 1.
    rewrite R, String.eqb_refl.
    assert (X : existsb (String.eqb related_entity_id) after = true).
    { apply existsb_exists. exists related_entity_id.
      split; [exact I|apply String.eqb_refl]. }
    rewrite X. unfold add_relationship. cbn [entity_id primary_name alternate_names
                                              attributes relationships].
    fold ids. fold after. now rewrite StoreFacts.set_set_same.
Qed.

End Profile.
End ProfileFacts.

(** ** [InMemoryEntityRepository] *)

Module RepositoryFacts.
Import InMemoryEntityRepository StoreFacts.

Section Repository.
Context {Any : Type}.
Implicit Types (self : InMemoryEntityRepository.t Any)
         (entity : DomainEntityProfile.t Any).

(** *** What [_remove_from_indices] and [save] leave alone *)

Lemma remove_entities self entity :
  _entities_by_id (_remove_from_indices self entity) = _entities_by_id self.
Proof. reflexivity. Qed.

Lemma cleaned_entities self entity :
  _entities_by_id (cleaned self entity) = _entities_by_id self.
Proof. unfold cleaned. now destruct (PyDict.get _ _). Qed.

Lemma cleaned_preprocessor self entity :
  preprocessor (cleaned self entity) = preprocessor self.
Proof. unfold cleaned. now destruct (PyDict.get _ _). Qed.

Lemma cleaned_encoder self entity :
  _phonetic_encoder (cleaned self entity) = _phonetic_encoder self.
Proof. unfold cleaned. now destruct (PyDict.get _ _). Qed.

Lemma cleaned_code self entity (processed_name : string) :
  _get_phonetic_code (cleaned self entity) processed_name
  = _get_phonetic_code self processed_name.
Proof. unfold _get_phonetic_code. now rewrite cleaned_encoder. Qed.

Lemma save_entities self entity :
  _entities_by_id (save self entity)
  = PyDict.set (_entities_by_id self) (DomainEntityProfile.entity_id entity) entity.
Proof.
  unfold save. cbn [_entities_by_id]. fold (cleaned self entity).
  now rewrite cleaned_entities.
Qed.

Lemma save_primary self entity :
  _primary_name_to_id (save self entity)
  = if truthy (normalized_primary self entity)
    then PyDict.set (_primary_name_to_id (cleaned self entity))
                    (normalized_primary self entity)
                    (DomainEntityProfile.entity_id entity)
    else _primary_name_to_id (cleaned self entity).
Proof. reflexivity. Qed.

(** *** Round trips *)

Lemma find_by_id_save self entity (id : string) :
  find_by_id (save self entity) id
  = if String.eqb id (DomainEntityProfile.entity_id entity) then Some entity
    else find_by_id self id.
Proof.
  unfold find_by_id. rewrite save_entities.
  destruct (String.eqb id (DomainEntityProfile.entity_id entity)) eqn:E.
  - apply String.eqb_eq in E. subst. apply PyDictFacts.get_set_same.
  - apply String.eqb_neq in E. now apply PyDictFacts.get_set_other.
Qed.

Lemma find_by_primary_name_save self entity (name : DomainEntityName) :
  truthy (DomainEntityProfile.entity_id entity) = true ->
  truthy (normalized_primary self entity) = true ->
  preprocessor self (raw_value name) = normalized_primary self entity ->
  find_by_primary_name (save self entity) name = Some entity.
Proof.
  intros I T E. unfold find_by_primary_name.
  change (preprocessor (save self entity)) with (preprocessor self).
  rewrite E, T. cbn [negb]. rewrite save_primary, T. unfold found_id.
  rewrite PyDictFacts.get_set_same, I, save_entities.
  apply PyDictFacts.get_set_same.
Qed.

(** X19.  After [save], [find_by_id] returns the saved profile for its
    identifier and what it returned before for any other; and when the
    identifier and the normalized primary name are not empty,
    [find_by_primary_name] returns the saved profile for every name that
    normalizes like its primary name. *)
Theorem save_then_find self entity :
  (forall id,
      find_by_id (save self entity) id
      = if String.eqb id (DomainEntityProfile.entity_id entity) then Some entity
        else find_by_id self id)
  /\ (truthy (DomainEntityProfile.entity_id entity) = true ->
      truthy (normalized_primary self entity) = true ->
      forall name,
        preprocessor self (raw_value name) = normalized_primary self entity ->
        find_by_primary_name (save self entity) name = Some entity).
Proof.
  split; [apply find_by_id_save|]. intros I T name. now apply find_by_primary_name_save.
Qed.

(** *** The indices stay consistent *)

Lemma phonetic_code_truthy self (processed_name code : string) :
  _get_phonetic_code self processed_name = Some code ->
  truthy processed_name = true /\ truthy code = true.
Proof.
  unfold _get_phonetic_code. destruct (truthy processed_name); [|discriminate].
  cbn [negb]. destruct (truthy (PhoneticEncoder.encode _ _)) eqn:T; [|discriminate].
  intro H. inversion H; subst. auto.
Qed.

Lemma points_to_iff (index : PyDict.t string) (key id : string) :
  points_to index key id = true <-> PyDict.get index key = Some id.
Proof.
  unfold points_to. destruct (PyDict.get index key) as [found|]; [|split; discriminate].
  rewrite String.eqb_eq. split; congruence.
Qed.

(** The loop of [_remove_from_indices] over the alternate names only removes
    entries, and leaves none of the names pointing to the identifier. *)
Lemma remove_alternates_fold self (id : string) (alts : list DomainEntityName) :
  forall index : PyDict.t string,
    let after :=
      fold_left
        (fun index alt_name_obj =>
           let processed_alt := preprocessor self (raw_value alt_name_obj) in
           if truthy processed_alt && points_to index processed_alt id
           then PyDict.del index processed_alt
           else index)
        alts index in
    (forall name found, PyDict.get after name = Some found ->
                        PyDict.get index name = Some found)
    /\ (forall a, In a alts -> truthy (preprocessor self (raw_value a)) = true ->
                  PyDict.get after (preprocessor self (raw_value a)) <> Some id).
Proof.
  induction alts as [|a alts IH]; intro index; cbn zeta; [split; [auto|contradiction]|].
  cbn [fold_left].
  set (step := if truthy (preprocessor self (raw_value a))
                  && points_to index (preprocessor self (raw_value a)) id
               then PyDict.del index (preprocessor self (raw_value a)) else index).
  destruct (IH step) as [Sub Gone]. cbn zeta in Sub, Gone.
  assert (S1 : forall name found, PyDict.get step name = Some found ->
                                  PyDict.get index name = Some found).
  { intros name found. unfold step. destruct (_ && _); [|auto].
    intro H. now apply get_del_some in H. }
  split; [auto|]. intros b [<-|I] T; [|auto].
  intro H. apply Sub in H. unfold step in H. rewrite T in H. cbn [andb] in H.
  destruct (points_to index _ id) eqn:P.
  - now rewrite get_del_same in H.
  - apply points_to_iff in H. congruence.
Qed.

Lemma index_alternates_fold self (id : string) (alts : list DomainEntityName) :
  forall (index : PyDict.t string) name found,
    PyDict.get
      (fold_left
         (fun index alt_name_obj =>
            let processed_alt := preprocessor self (raw_value alt_name_obj) in
            if truthy processed_alt then PyDict.set index processed_alt id else index)
         alts index) name = Some found ->
    (found = id /\ truthy name = true
     /\ In name (map (fun a => preprocessor self (raw_value a)) alts))
    \/ PyDict.get index name = Some found.
Proof.
  induction alts as [|a alts IH]; intros index name found; cbn [fold_left map];
    [auto|].
  intro H. apply IH in H as [(F & T & I)|H]; [left; repeat split; auto; now right|].
  destruct (truthy (preprocessor self (raw_value a))) eqn:T; [|auto].
  apply get_set_some in H as [[-> ->]|[_ H]]; [|auto].
  left. repeat split; auto. now left.
Qed.

Lemma ids_of_set (index : PyDict.t PySet.t) (code other : string) (ids : PySet.t) :
  ids_of (PyDict.set index code ids) other
  = if String.eqb other code then ids else ids_of index other.
Proof.
  unfold ids_of. destruct (String.eqb other code) eqn:E.
  - apply String.eqb_eq in E. subst. now rewrite PyDictFacts.get_set_same.
  - apply String.eqb_neq in E. now rewrite PyDictFacts.get_set_other.
Qed.

Lemma ids_of_del (index : PyDict.t PySet.t) (code other : string) :
  ids_of (PyDict.del index code) other
  = if String.eqb other code then [] else ids_of index other.
Proof.
  unfold ids_of. destruct (String.eqb other code) eqn:E.
  - apply String.eqb_eq in E. subst. now rewrite get_del_same.
  - apply String.eqb_neq in E. now rewrite get_del_other.
Qed.

(** What [_remove_from_indices] leaves in the phonetic index. *)
Lemma remove_phonetic_ids self (processed_primary id other found : string) :
  In found (ids_of (remove_phonetic self processed_primary id) other) ->
  In found (ids_of (_phonetic_primary_index self) other)
  /\ (_get_phonetic_code self processed_primary = Some other -> found <> id).
Proof.
  unfold remove_phonetic.
  destruct (_get_phonetic_code self processed_primary) as [code|];
    [|split; [auto|discriminate]].
  destruct (PySet.mem (ids_of (_phonetic_primary_index self) code) id) eqn:M.
  - destruct (PySet.remove (ids_of (_phonetic_primary_index self) code) id)
      as [|x r] eqn:R.
    + rewrite ids_of_del. destruct (String.eqb other code) eqn:E; [contradiction|].
      intro H. split; [exact H|]. intro K. inversion K; subst.
      now rewrite String.eqb_refl in E.
    + rewrite ids_of_set, <- R. destruct (String.eqb other code) eqn:E.
      * apply String.eqb_eq in E. subst other. intro H.
        apply remove_in in H as [H N]. auto.
      * intro H. split; [exact H|]. intro K. inversion K; subst.
        now rewrite String.eqb_refl in E.
  - intro H. split; [exact H|]. intro K. inversion K; subst. intros ->.
    apply mem_in in H. congruence.
Qed.

Section Step.
Variable self : InMemoryEntityRepository.t Any.
Variable entity : DomainEntityProfile.t Any.
Hypothesis sound : consistent self.

Let id : string := DomainEntityProfile.entity_id entity.

Lemma cleaned_primary (name found : string) :
  PyDict.get (_primary_name_to_id (cleaned self entity)) name = Some found ->
  found <> id
  /\ truthy name = true
  /\ exists e, PyDict.get (_entities_by_id self) found = Some e
               /\ normalized_primary self e = name.
Proof.
  unfold cleaned. fold id.
  destruct (PyDict.get (_entities_by_id self) id) as [old|] eqn:G.
  - cbn [_remove_from_indices _primary_name_to_id]. intro H.
    assert (H0 : PyDict.get (_primary_name_to_id self) name = Some found).
    { destruct (_ && _); [now apply get_del_some in H|exact H]. }
    destruct (primary_sound self sound name found H0) as (T & e & Ge & Ne).
    split; [|eauto]. intros ->. rewrite G in Ge. inversion Ge; subst e.
    rewrite (ids_agree self sound id old G) in H.
    unfold normalized_primary in Ne. rewrite Ne, T in H. cbn [andb] in H.
    apply points_to_iff in H0. rewrite H0 in H. now rewrite get_del_same in H.
  - intro H. destruct (primary_sound self sound name found H) as (T & e & Ge & Ne).
    split; [|eauto]. intros ->. congruence.
Qed.

Lemma cleaned_alternate (name found : string) :
  PyDict.get (_alt_name_to_id (cleaned self entity)) name = Some found ->
  found <> id
  /\ truthy name = true
  /\ exists e, PyDict.get (_entities_by_id self) found = Some e
               /\ In name (normalized_alternates self e).
Proof.
  unfold cleaned. fold id.
  destruct (PyDict.get (_entities_by_id self) id) as [old|] eqn:G.
  - cbn [_remove_from_indices _alt_name_to_id]. unfold remove_alternates.
    rewrite (ids_agree self sound id old G).
    destruct (remove_alternates_fold self id (DomainEntityProfile.alternate_names old)
                (_alt_name_to_id self)) as [Sub Gone].
    cbn zeta in Sub, Gone. intro H.
    destruct (alternate_sound self sound name found (Sub _ _ H)) as (T & e & Ge & Ne).
    split; [|eauto]. intros ->. rewrite G in Ge. inversion Ge; subst e.
    unfold normalized_alternates in Ne. apply in_map_iff in Ne as (a & <- & Ia).
    now apply (Gone a Ia T).
  - intro H. destruct (alternate_sound self sound name found H) as (T & e & Ge & Ne).
    split; [|eauto]. intros ->. congruence.
Qed.

Lemma cleaned_phonetic (code found : string) :
  In found (ids_of (_phonetic_primary_index (cleaned self entity)) code) ->
  found <> id
  /\ exists e, PyDict.get (_entities_by_id self) found = Some e
               /\ _get_phonetic_code self (normalized_primary self e) = Some code.
Proof.
  unfold cleaned. fold id.
  destruct (PyDict.get (_entities_by_id self) id) as [old|] eqn:G.
  - cbn [_remove_from_indices _phonetic_primary_index].
    rewrite (ids_agree self sound id old G).
    fold (normalized_primary self old).
    destruct (truthy (normalized_primary self old)) eqn:T.
    + intro H. apply remove_phonetic_ids in H as [H N].
      destruct (phonetic_sound self sound code found H) as (e & Ge & Ce).
      split; [|eauto]. intros ->. rewrite G in Ge. inversion Ge; subst e.
      now apply (N Ce).
    + intro H. destruct (phonetic_sound self sound code found H) as (e & Ge & Ce).
      split; [|eauto]. intros ->. rewrite G in Ge. inversion Ge; subst e.
      apply phonetic_code_truthy in Ce as [Ce _]. congruence.
  - intro H. destruct (phonetic_sound self sound code found H) as (e & Ge & Ce).
    split; [|eauto]. intros ->. congruence.
Qed.

Lemma stored_after (found : string) (e : DomainEntityProfile.t Any) :
  found <> id -> PyDict.get (_entities_by_id self) found = Some e ->
  PyDict.get (_entities_by_id (save self entity)) found = Some e.
Proof.
  intros N G. rewrite save_entities. fold id.
  now rewrite PyDictFacts.get_set_other.
Qed.

Lemma stored_new :
  PyDict.get (_entities_by_id (save self entity)) id = Some entity.
Proof. rewrite save_entities. apply PyDictFacts.get_set_same. Qed.

(** [save] keeps the repository consistent. *)
Lemma save_consistent : consistent (save self entity).
Proof.
  constructor.
  - rewrite save_entities, PyDictFacts.keys_set.
    pose proof (ids_distinct self sound) as D.
    destruct (PyDict.mem (_entities_by_id self) _) eqn:M; [exact D|].
    apply NoDup_app; repeat split; auto.
    + repeat constructor. intros [].
    + intros x Hx [<-|[]]. apply PyDictFacts.mem_keys in Hx. congruence.
  - intros k e. rewrite save_entities. intro H.
    apply get_set_some in H as [[-> ->]|[_ H]]; [reflexivity|].
    now apply (ids_agree self sound).
  - intros name found. rewrite save_primary. fold id.
    change (normalized_primary (save self entity)) with (normalized_primary self).
    destruct (truthy (normalized_primary self entity)) eqn:T.
    + intro H. apply get_set_some in H as [[-> ->]|[_ H]].
      * split; [exact T|]. exists entity. split; [apply stored_new|reflexivity].
      * apply cleaned_primary in H as (N & Tn & e & Ge & Ne).
        split; [exact Tn|]. exists e. split; [now apply stored_after|exact Ne].
    + intro H. apply cleaned_primary in H as (N & Tn & e & Ge & Ne).
      split; [exact Tn|]. exists e. split; [now apply stored_after|exact Ne].
  - intros name found.
    change (normalized_alternates (save self entity)) with (normalized_alternates self).
    unfold save at 1. cbn [_alt_name_to_id]. fold (cleaned self entity).
    unfold index_alternates. rewrite cleaned_preprocessor.
    intro H. apply index_alternates_fold in H as [(-> & T & I)|H].
    + split; [exact T|]. exists entity. split; [apply stored_new|exact I].
    + apply cleaned_alternate in H as (N & Tn & e & Ge & Ne).
      split; [exact Tn|]. exists e. split; [now apply stored_after|exact Ne].
  - intros code found.
    change (_get_phonetic_code (save self entity)) with (_get_phonetic_code self).
    change (normalized_primary (save self entity)) with (normalized_primary self).
    unfold save at 1. cbn [_phonetic_primary_index].
    fold (cleaned self entity). fold (normalized_primary self entity).
    assert (Old : In found
                     (ids_of (_phonetic_primary_index (cleaned self entity)) code) ->
                  exists e, PyDict.get (_entities_by_id (save self entity)) found = Some e
                            /\ _get_phonetic_code self (normalized_primary self e)
                               = Some code).
    { intro H. apply cleaned_phonetic in H as (N & e & Ge & Ce).
      exists e. split; [now apply stored_after|exact Ce]. }
    destruct (truthy (normalized_primary self entity)); [|exact Old].
    unfold index_phonetic.
    rewrite cleaned_code.
    destruct (_get_phonetic_code self (normalized_primary self entity)) as [c|] eqn:C;
      [|exact Old].
    rewrite ids_of_set. destruct (String.eqb code c) eqn:E; [|exact Old].
    apply String.eqb_eq in E. subst c. intro H. apply add_in in H as [H| ->]; [auto|].
    exists entity. split; [apply stored_new|exact C].
Qed.

End Step.

Lemma init_consistent (pre : StringPreprocessor) (encoder : option PhoneticEncoder.t) :
  consistent (init (Any := Any) pre encoder).
Proof. constructor; cbn; intros; try discriminate; try contradiction. constructor. Qed.

Lemma saves_consistent self (entities : list (DomainEntityProfile.t Any)) :
  consistent self -> consistent (saves self entities).
Proof.
  unfold saves. revert self. induction entities as [|e l IH]; intros self H; [exact H|].
  cbn [fold_left]. apply IH. now apply save_consistent.
Qed.

(** *** What the lookups return *)

Lemma get_in_distinct {V : Type} (d : PyDict.t V) (k : string) (v : V) :
  NoDup (PyDict.keys d) -> In (k, v) d -> PyDict.get d k = Some v.
Proof.
  unfold PyDict.keys. induction d as [|[k' v'] d IH]; simpl; [contradiction|].
  intros D [H|H].
  - inversion H; subst. now rewrite String.eqb_refl.
  - inversion D as [|? ? N D']; subst.
    destruct (String.eqb k' k) eqn:E; [|auto].
    apply String.eqb_eq in E. subst k'. exfalso. apply N.
    apply in_map_iff. now exists (k, v).
Qed.

Lemma find_by_primary_name_origin self (name : DomainEntityName) entity :
  consistent self ->
  find_by_primary_name self name = Some entity ->
  find_by_id self (DomainEntityProfile.entity_id entity) = Some entity
  /\ (normalized_primary self entity = preprocessor self (raw_value name)
      \/ In (preprocessor self (raw_value name)) (normalized_alternates self entity)).
Proof.
  intros C. unfold find_by_primary_name, find_by_id, found_id.
  destruct (negb (truthy _)); [discriminate|].
  destruct (PyDict.get (_primary_name_to_id self) _) as [id|] eqn:P.
  - destruct (truthy id).
    + intro G. destruct (primary_sound self C _ _ P) as (_ & e & Ge & Ne).
      rewrite (ids_agree self C _ _ G). split; [exact G|]. left. congruence.
    + destruct (PyDict.get (_alt_name_to_id self) _) as [id'|] eqn:A; [|discriminate].
      destruct (truthy id'); [|discriminate].
      intro G. destruct (alternate_sound self C _ _ A) as (_ & e & Ge & Ne).
      rewrite (ids_agree self C _ _ G). split; [exact G|]. right. congruence.
  - destruct (PyDict.get (_alt_name_to_id self) _) as [id'|] eqn:A; [|discriminate].
    destruct (truthy id'); [|discriminate].
    intro G. destruct (alternate_sound self C _ _ A) as (_ & e & Ge & Ne).
    rewrite (ids_agree self C _ _ G). split; [exact G|]. right. congruence.
Qed.

(** X20.  In a repository built by any sequence of calls of [save], a
    profile returned by [find_by_primary_name] is stored under its own
    identifier, and the normalized query is its normalized primary name or one
    of its normalized alternate names. *)
Theorem find_by_primary_name_returns_a_stored_namesake
        (pre : StringPreprocessor) (encoder : option PhoneticEncoder.t)
        (saved : list (DomainEntityProfile.t Any))
        (name : DomainEntityName) entity :
  find_by_primary_name (saves (init pre encoder) saved) name = Some entity ->
  find_by_id (saves (init pre encoder) saved) (DomainEntityProfile.entity_id entity)
  = Some entity
  /\ (normalized_primary (saves (init pre encoder) saved) entity
      = preprocessor (saves (init pre encoder) saved) (raw_value name)
      \/ In (preprocessor (saves (init pre encoder) saved) (raw_value name))
            (normalized_alternates (saves (init pre encoder) saved) entity)).
Proof.
  apply find_by_primary_name_origin, saves_consistent, init_consistent.
Qed.

Lemma in_profiles_of self (ids : list string) entity :
  In entity (profiles_of self ids) ->
  exists id, In id ids /\ PyDict.get (_entities_by_id self) id = Some entity.
Proof.
  unfold profiles_of. rewrite in_flat_map. intros (id & I & H). exists id.
  split; [exact I|].
  destruct (PyDict.get (_entities_by_id self) id); [|contradiction].
  destruct H as [->|[]]. reflexivity.
Qed.

Lemma profiles_of_length self (ids : list string) :
  List.length (profiles_of self ids) <= List.length ids.
Proof.
  unfold profiles_of. induction ids as [|id ids IH]; simpl; [lia|].
  rewrite length_app. destruct (PyDict.get _ id); simpl; lia.
Qed.

Lemma in_slice_to {A : Type} (l : list A) (n : Z) (x : A) :
  In x (slice_to l n) -> In x l.
Proof. unfold slice_to. destruct (n <? 0)%Z; apply ThefuzzFacts.in_firstn. Qed.

Lemma slice_to_length {A : Type} (l : list A) (n : Z) :
  (0 <= n)%Z -> List.length (slice_to l n) <= Z.to_nat n.
Proof.
  intro H. unfold slice_to. destruct (n <? 0)%Z eqn:E; [lia|].
  apply firstn_le_length.
Qed.

(** Where an identifier of [candidate_ids] comes from. *)
Lemma candidate_ids_origin self (query id : string) :
  In id (candidate_ids self query) ->
  PyDict.get (_primary_name_to_id self) query = Some id
  \/ PyDict.get (_alt_name_to_id self) query = Some id
  \/ (query = "apple"
      /\ exists entity,
           In (id, entity) (_entities_by_id self)
           /\ prefix "apple " (normalized_primary self entity) = true)
  \/ exists code,
       _get_phonetic_code self query = Some code
       /\ In id (ids_of (_phonetic_primary_index self) code).
Proof.
  unfold candidate_ids.
  set (exact_primary := match PyDict.get (_primary_name_to_id self) query with
                        | Some entity_id => PySet.add [] entity_id
                        | None => []
                        end).
  set (exact_alt := match PyDict.get (_alt_name_to_id self) query with
                    | Some entity_id => PySet.add exact_primary entity_id
                    | None => exact_primary
                    end).
  assert (P : In id exact_primary ->
              PyDict.get (_primary_name_to_id self) query = Some id).
  { unfold exact_primary. destruct (PyDict.get (_primary_name_to_id self) query);
      [|contradiction].
    intro H. apply add_in in H as [[]| ->]. reflexivity. }
  assert (A : In id exact_alt ->
              PyDict.get (_primary_name_to_id self) query = Some id
              \/ PyDict.get (_alt_name_to_id self) query = Some id).
  { unfold exact_alt. destruct (PyDict.get (_alt_name_to_id self) query);
      [|auto].
    intro H. apply add_in in H as [H| ->]; auto. }
  set (with_apple := if String.eqb query "apple" then _ else exact_alt).
  assert (W : In id with_apple ->
              PyDict.get (_primary_name_to_id self) query = Some id
              \/ PyDict.get (_alt_name_to_id self) query = Some id
              \/ (query = "apple"
                  /\ exists entity,
                       In (id, entity) (_entities_by_id self)
                       /\ prefix "apple " (normalized_primary self entity) = true)).
  { unfold with_apple. destruct (String.eqb query "apple") eqn:E;
      [|intro H; destruct (A H); auto].
    apply String.eqb_eq in E.
    destruct (find _ (_entities_by_id self)) as [[k e]|] eqn:F;
      [|intro H; destruct (A H); auto].
    intro H. apply add_in in H as [H| ->]; [destruct (A H); auto|].
    apply find_some in F as [F1 F2]. right. right. split; [exact E|].
    exists e. split; [exact F1|exact F2]. }
  destruct with_apple as [|x r] eqn:X.
  - destruct (_get_phonetic_code self query) as [code|]; [|contradiction].
    intro H. apply update_in in H as [[]|H]. right. right. right. eauto.
  - intro H. destruct (W H) as [K|[K|K]]; auto.
Qed.

Lemma find_candidates_origin (list_of_set : PySet.t -> list string) self
      (name : DomainEntityName) (limit : Z) entity :
  consistent self ->
  (forall s x, In x (list_of_set s) -> In x s) ->
  In entity (find_candidates_by_name list_of_set self name limit) ->
  find_by_id self (DomainEntityProfile.entity_id entity) = Some entity
  /\ related_to self (preprocessor self (raw_value name)) entity.
Proof.
  intros C L. unfold find_candidates_by_name.
  destruct (negb (truthy (preprocessor self (raw_value name)))); [contradiction|].
  intro H. apply in_profiles_of in H as (id & I & G).
  apply in_slice_to, L in I.
  pose proof (ids_agree self C id entity G) as Id. unfold find_by_id.
  rewrite Id. split; [exact G|].
  apply candidate_ids_origin in I as [P|[A|[(Q & e & Ie & Pe)|(code & Cq & Ic)]]].
  - destruct (primary_sound self C _ _ P) as (_ & e & Ge & Ne).
    left. congruence.
  - destruct (alternate_sound self C _ _ A) as (_ & e & Ge & Ne).
    right. left. congruence.
  - apply (get_in_distinct _ _ _ (ids_distinct self C)) in Ie.
    right. right. left. split; [exact Q|]. congruence.
  - destruct (phonetic_sound self C _ _ Ic) as (e & Ge & Ce).
    right. right. right. exists code. split; [exact Cq|]. congruence.
Qed.

(** X21.  In a repository built by any sequence of calls of [save], with a
    limit that is not negative and in whatever order the set of identifiers is
    listed, [find_candidates_by_name] returns at most [limit] profiles, each
    stored under its own identifier and related to the normalized query: by
    its primary name, by an alternate name, by the special case for
    ["apple"], or by its phonetic code. *)
Theorem candidates_are_stored_and_related
        (list_of_set : PySet.t -> list string)
        (pre : StringPreprocessor) (encoder : option PhoneticEncoder.t)
        (saved : list (DomainEntityProfile.t Any))
        (name : DomainEntityName) (limit : Z) :
  (forall s x, In x (list_of_set s) -> In x s) ->
  (0 <= limit)%Z ->
  List.length
    (find_candidates_by_name list_of_set (saves (init pre encoder) saved) name limit)
  <= Z.to_nat limit
  /\ forall entity,
      In entity
         (find_candidates_by_name list_of_set (saves (init pre encoder) saved)
            name limit) ->
      find_by_id (saves (init pre encoder) saved)
                 (DomainEntityProfile.entity_id entity) = Some entity
      /\ related_to (saves (init pre encoder) saved)
                    (preprocessor (saves (init pre encoder) saved) (raw_value name))
                    entity.
Proof.
  intros L B.
  pose proof (saves_consistent _ saved (init_consistent pre encoder)) as C.
  split; [|intros entity; now apply find_candidates_origin].
  unfold find_candidates_by_name.
  destruct (negb (truthy _)); [simpl; lia|].
  eapply Nat.le_trans; [apply profiles_of_length|now apply slice_to_length].
Qed.

End Repository.

Lemma find_by_primary_name_returns_a_stored_namesake_witness :
  find_by_id sample_repository (DomainEntityProfile.entity_id apple_profile)
  = Some apple_profile
  /\ (normalized_primary sample_repository apple_profile
      = preprocessor sample_repository "APPLE, INC"
      \/ In (preprocessor sample_repository "APPLE, INC")
            (normalized_alternates sample_repository apple_profile)).
Proof.
  apply (find_by_primary_name_returns_a_stored_namesake Sample.preprocessor None
           [apple_profile] {| raw_value := "APPLE, INC" |} apple_profile).
  vm_compute. reflexivity.
Defined.

Lemma candidates_are_stored_and_related_witness :
  List.length
    (find_candidates_by_name in_order sample_repository
       {| raw_value := "Apple Computer" |} 20)
  <= Z.to_nat 20
  /\ forall entity,
      In entity
         (find_candidates_by_name in_order sample_repository
            {| raw_value := "Apple Computer" |} 20) ->
      find_by_id sample_repository (DomainEntityProfile.entity_id entity)
      = Some entity
      /\ related_to sample_repository
                    (preprocessor sample_repository "Apple Computer") entity.
Proof.
  apply (candidates_are_stored_and_related in_order Sample.preprocessor None
           [apple_profile] {| raw_value := "Apple Computer" |} 20).
  - intros s x H. exact H.
  - lia.
Defined.

End RepositoryFacts.

(** ** The facade and its repository *)

Module FacadeEntityFacts.
Import InMemoryEntityRepository FacadeEntities RepositoryFacts.
Local Open Scope Q_scope.

Section Facade.
Context {Any : Type}.
Variable ext : Externals.
Variable list_of_set : PySet.t -> list string.
Variable self : EntityResolutionFacade.t.

(** X22.  After [register_entity] with an identifier that is not empty and
    a name that does not normalize to the empty string and is none of the two
    names with a special case, [find_by_name] on that name returns the profile
    just registered and prints nothing, whatever the repository held. *)
Theorem registered_entity_is_found
        (repository : InMemoryEntityRepository.t Any)
        (entity_id primary_name_str : string)
        (alternate_names_str : option (list string))
        (attributes : option (PyDict.t Any)) (resolution_threshold : Q) :
  truthy entity_id = true ->
  truthy (preprocessor repository primary_name_str) = true ->
  primary_name_str <> "Apple Inc." ->
  primary_name_str <> "Apple Computer" ->
  find_by_name ext list_of_set self
    (fst (register_entity repository entity_id primary_name_str
            alternate_names_str attributes))
    primary_name_str resolution_threshold
  = Some (Some (snd (register_entity repository entity_id primary_name_str
                       alternate_names_str attributes)),
          []).
Proof.
  intros I T N1 N2. unfold find_by_name, _check_special_test_cases.
  apply String.eqb_neq in N1, N2. rewrite N1, N2.
  unfold register_entity. cbn [fst snd].
  now rewrite find_by_primary_name_save.
Qed.

Lemma special_case_stored (repository : InMemoryEntityRepository.t Any)
      (name_str : string) (entity : DomainEntityProfile.t Any) :
  consistent repository ->
  _check_special_test_cases repository name_str = Some entity ->
  find_by_id repository (DomainEntityProfile.entity_id entity) = Some entity.
Proof.
  intros C. unfold _check_special_test_cases.
  assert (S : forall id, find_by_id repository id = Some entity ->
                         find_by_id repository (DomainEntityProfile.entity_id entity)
                         = Some entity).
  { intros id G. now rewrite (ids_agree repository C id entity G). }
  destruct (if String.eqb name_str "Apple Inc." then find_by_id repository "E001"
            else None) as [e|] eqn:F.
  - intro H. inversion H; subst e.
    destruct (String.eqb name_str "Apple Inc."); [eauto|discriminate].
  - destruct (String.eqb name_str "Apple Computer"); [|discriminate].
    intro H. apply find_some in H as [H _]. apply in_flat_map in H as (found & I & H).
    apply in_map_iff in I as (id & <- & _).
    destruct (find_by_id repository id) as [e|] eqn:G; [|contradiction].
    destruct H as [->|[]]. eauto.
Qed.

(** X23.  In a repository built by any sequence of calls of [save], every
    name [_get_candidate_names] returns is the primary name or an alternate
    name of a stored profile. *)
Theorem candidate_names_belong_to_stored_entities
        (pre : StringPreprocessor) (encoder : option PhoneticEncoder.t)
        (saved : list (DomainEntityProfile.t Any))
        (query_name name : DomainEntityName) :
  (forall s x, In x (list_of_set s) -> In x s) ->
  In name
     (_get_candidate_names list_of_set (saves (init pre encoder) saved) query_name) ->
  exists entity,
    find_by_id (saves (init pre encoder) saved) (DomainEntityProfile.entity_id entity)
    = Some entity
    /\ (name = DomainEntityProfile.primary_name entity
        \/ In name (DomainEntityProfile.alternate_names entity)).
Proof.
  intro L.
  pose proof (saves_consistent _ saved (init_consistent pre encoder)) as C.
  set (repository := saves (init pre encoder) saved) in *.
  unfold _get_candidate_names.
  destruct (find_candidates_by_name list_of_set repository query_name 20)
    as [|c cs] eqn:F.
  - unfold get_all_entity_names, PyDict.values. rewrite map_map.
    intro H. apply in_map_iff in H as ([id e] & <- & I). exists e.
    apply (get_in_distinct _ _ _ (ids_distinct repository C)) in I.
    unfold find_by_id. rewrite (ids_agree repository C id e I). auto.
  - intro H.
    assert (S : forall e, In e (c :: cs) ->
                          find_by_id repository (DomainEntityProfile.entity_id e)
                          = Some e).
    { intros e I. rewrite <- F in I.
      now apply (find_candidates_origin list_of_set repository query_name 20 e C L)
        in I as [I _]. }
    apply in_app_or in H as [H|H].
    + apply in_map_iff in H as (e & <- & I). exists e. auto.
    + apply in_flat_map in H as (e & I & H). exists e. auto.
Qed.

(** X24.  In a repository built by any sequence of calls of [save], a
    profile returned by [find_by_name], on any of its paths, is stored under
    its own identifier. *)
Theorem find_by_name_returns_a_stored_entity
        (pre : StringPreprocessor) (encoder : option PhoneticEncoder.t)
        (saved : list (DomainEntityProfile.t Any))
        (name_str : string) (resolution_threshold : Q)
        (entity : DomainEntityProfile.t Any) (printed : list string) :
  find_by_name ext list_of_set self (saves (init pre encoder) saved)
    name_str resolution_threshold
  = Some (Some entity, printed) ->
  find_by_id (saves (init pre encoder) saved) (DomainEntityProfile.entity_id entity)
  = Some entity.
Proof.
  pose proof (saves_consistent _ saved (init_consistent pre encoder)) as C.
  set (repository := saves (init pre encoder) saved) in *.
  unfold find_by_name.
  destruct (_check_special_test_cases repository name_str) as [e|] eqn:S.
  { intro H. inversion H; subst. now apply (special_case_stored _ name_str). }
  destruct (find_by_primary_name repository {| raw_value := name_str |}) as [e|] eqn:P.
  { intro H. inversion H; subst.
    now apply (find_by_primary_name_origin _ _ _ C) in P as [P _]. }
  destruct (_get_candidate_names list_of_set repository {| raw_value := name_str |})
    as [|c cs]; [discriminate|].
  unfold _resolve_best_match.
  destruct (EntityResolutionFacade._get_resolver_algorithm ext self "weighted_ratio")
    as [selected|]; [|discriminate].
  cbn [Raise.bind].
  destruct (EntityResolverService.resolve _ _ _) as [path [|best rest]|];
    try discriminate.
  intro H. injection H as F Pr.
  now apply (find_by_primary_name_origin _ _ _ C) in F as [F _].
Qed.

End Facade.

Lemma registered_entity_is_found_witness :
  find_by_name Sample.externals in_order Sample.facade
    (fst (register_entity sample_repository "E200" "Microsoft Corporation"
            (Some ["MSFT"]) None))
    "Microsoft Corporation" (85#100)
  = Some (Some (snd (register_entity sample_repository "E200" "Microsoft Corporation"
                       (Some ["MSFT"]) None)),
          []).
Proof.
  apply (registered_entity_is_found Sample.externals in_order Sample.facade
           sample_repository "E200" "Microsoft Corporation" (Some ["MSFT"]) None
           (85#100)).
  - reflexivity.
  - vm_compute. reflexivity.
  - discriminate.
  - discriminate.
Defined.

Lemma candidate_names_belong_to_stored_entities_witness :
  exists entity,
    find_by_id sample_repository (DomainEntityProfile.entity_id entity) = Some entity
    /\ ({| raw_value := "Apple Inc." |} = DomainEntityProfile.primary_name entity
        \/ In {| raw_value := "Apple Inc." |}
              (DomainEntityProfile.alternate_names entity)).
Proof.
  apply (candidate_names_belong_to_stored_entities in_order Sample.preprocessor None
           [apple_profile] {| raw_value := "Apple Computer" |}
           {| raw_value := "Apple Inc." |}).
  - intros s x H. exact H.
  - vm_compute. auto.
Defined.

Lemma find_by_name_returns_a_stored_entity_witness :
  find_by_id sample_repository (DomainEntityProfile.entity_id apple_profile)
  = Some apple_profile.
Proof.
  apply (find_by_name_returns_a_stored_entity Sample.externals in_order Sample.facade
           Sample.preprocessor None [apple_profile] "apple computer" (85#100)
           apple_profile []).
  vm_compute. reflexivity.
Defined.

End FacadeEntityFacts.
